(** * RoBoRa firmware: command channel and firmware-update protocol layer

    A shallow embedding of [src/websocket.cpp], [src/ota.cpp] and
    [src/motors.cpp].  Global and function-static variables of the C++ code
    become fields of explicit state records; every call into a collaborator
    (the web-socket server, the [Update] flash writer, the motor driver, the
    display, the configuration store) is recorded as an [Action] in the order
    the code performs it, and every value a collaborator hands back is an
    input of the transition. *)

From Stdlib Require Import ZArith List String Ascii Bool Lia.
From Stdlib.Strings Require Import Byte.
From Stdlib Require Import DecimalString.
Import ListNotations.

#[local] Set Warnings "-register-all".

#[local] Open Scope string_scope.
#[local] Open Scope list_scope.
#[local] Open Scope Z_scope.

Infix "+++" := String.append (right associativity, at level 60).

(** ** Machine integers of the ESP32 target *)

Definition SIZE_MOD : Z := 2 ^ 32.

(** [size_t] and [uint32_t] arithmetic wraps modulo 2^32. *)
Definition wrap32 (z : Z) : Z := z mod SIZE_MOD.

(** Conversion to [int16_t], as done for the arguments of [motorsApply]. *)
Definition to_int16 (z : Z) : Z := (z + 32768) mod 65536 - 32768.

(** Conversion to [uint8_t]. *)
Definition to_uint8 (z : Z) : Z := z mod 256.

Definition INT_MAX : Z := 2147483647.
Definition INT_MIN : Z := -2147483648.

(** Arduino's [constrain(x, lo, hi)] macro. *)
Definition constrain (x lo hi : Z) : Z :=
  if x <? lo then lo else if x >? hi then hi else x.

(** ** C strings *)

(** The double-quote character. *)
Definition dq : string := String "034"%char EmptyString.

(** The backslash character. *)
Definition bs : string := String "092"%char EmptyString.

(** [q s] is [s] between double quotes. *)
Definition q (s : string) : string := dq +++ s +++ dq.

Definition is_space (c : ascii) : bool :=
  let n := nat_of_ascii c in
  (Nat.eqb n 32 || (Nat.leb 9 n && Nat.leb n 13))%bool.

Definition is_digit (c : ascii) : bool :=
  let n := nat_of_ascii c in (Nat.leb 48 n && Nat.leb n 57)%bool.

Definition digit_val (c : ascii) : Z := Z.of_nat (nat_of_ascii c) - 48.

Fixpoint skip_spaces (s : string) : string :=
  match s with
  | String c r => if is_space c then skip_spaces r else s
  | EmptyString => s
  end.

Fixpoint digits_value (s : string) (acc : Z) : Z :=
  match s with
  | String c r => if is_digit c then digits_value r (acc * 10 + digit_val c) else acc
  | EmptyString => acc
  end.

(** [strtol(s, NULL, 10)] with a 32-bit [long]: leading white space, an
    optional sign, then decimal digits; saturates at the ends of the range. *)
Definition strtol (s : string) : Z :=
  let clamp z := Z.max INT_MIN (Z.min INT_MAX z) in
  match skip_spaces s with
  | String "-"%char r => clamp (- digits_value r 0)
  | String "+"%char r => clamp (digits_value r 0)
  | r => clamp (digits_value r 0)
  end.

(** [atoi(s)] is [(int) strtol(s, NULL, 10)]. *)
Definition atoi (s : string) : Z := strtol s.

Definition to_lower (c : ascii) : ascii :=
  let n := nat_of_ascii c in
  if (Nat.leb 65 n && Nat.leb n 90)%bool then ascii_of_nat (n + 32) else c.

Fixpoint lowercase (s : string) : string :=
  match s with
  | String c r => String (to_lower c) (lowercase r)
  | EmptyString => EmptyString
  end.

(** [strcasecmp(a, b) == 0] and [String::equalsIgnoreCase]. *)
Definition equalsIgnoreCase (a b : string) : bool :=
  String.eqb (lowercase a) (lowercase b).

(** [strncmp(k, p, strlen p) == 0]. *)
Definition has_prefix (p k : string) : bool := String.prefix p k.

(** Arduino's [String(int)]: decimal rendering. *)
Definition String_of_int (z : Z) : string := NilZero.string_of_int (Z.to_int z).

(** What is read of a string through a [const char *]: the characters
    before its first NUL. *)
Fixpoint c_str (s : string) : string :=
  match s with
  | EmptyString => EmptyString
  | String c r => if Ascii.eqb c Ascii.zero then EmptyString else String c (c_str r)
  end.

(** ** ArduinoJson documents *)

Module Json.

(** A document holds null, a boolean, an integer, a string, an array or an
    object; object members keep their insertion order.  Floating-point
    leaves are not represented. *)
Inductive JsonVariant : Type :=
| JNull
| JBool (b : bool)
| JInt (z : Z)
| JString (s : string)
| JArray (l : list JsonVariant)
| JObject (m : list (string * JsonVariant)).

Definition JsonDocument := JsonVariant.

Fixpoint lookup (k : string) (m : list (string * JsonVariant)) : option JsonVariant :=
  match m with
  | [] => None
  | (k', v) :: r => if String.eqb k' k then Some v else lookup k r
  end.

Fixpoint assign (k : string) (v : JsonVariant) (m : list (string * JsonVariant))
  : list (string * JsonVariant) :=
  match m with
  | [] => [(k, v)]
  | (k', v') :: r => if String.eqb k' k then (k', v) :: r else (k', v') :: assign k v r
  end.

(** [doc[key]] read: the member, or null when [doc] is not an object or has
    no such member. *)
Definition get (doc : JsonVariant) (k : string) : JsonVariant :=
  match doc with
  | JObject m => match lookup k m with Some v => v | None => JNull end
  | _ => JNull
  end.

(** [doc[key] = v]: a document that is not yet an object becomes one. *)
Definition set (doc : JsonVariant) (k : string) (v : JsonVariant) : JsonVariant :=
  match doc with
  | JObject m => JObject (assign k v m)
  | _ => JObject [(k, v)]
  end.

(** [doc.as<JsonObject>()] iteration: the members, none for a non-object. *)
Definition members (doc : JsonVariant) : list (string * JsonVariant) :=
  match doc with JObject m => m | _ => [] end.

(** [v.as<const char *>()] as the callers read it ([strcasecmp],
    the [String] constructor): the string up to its first NUL, or a null
    pointer. *)
Definition as_cstr (v : JsonVariant) : option string :=
  match v with JString s => Some (c_str s) | _ => None end.

(** [v | dflt] with a string default, a [const char *] read by [atoi] and
    the [String] constructor: the string up to its first NUL. *)
Definition or_cstr (v : JsonVariant) (dflt : string) : string :=
  match v with JString s => c_str s | _ => dflt end.

Definition isNull (v : JsonVariant) : bool :=
  match v with JNull => true | _ => false end.

(** [v.as<int>()] and [v.as<long>()] (both 32 bits wide): integers that
    fit, booleans as 0/1, strings through the number parser, 0 otherwise. *)
Definition as_int (v : JsonVariant) : Z :=
  match v with
  | JInt z => if (INT_MIN <=? z) && (z <=? INT_MAX) then z else 0
  | JBool b => if b then 1 else 0
  | JString s =>
      let z := strtol s in
      if (INT_MIN <? z) && (z <? INT_MAX) then z else 0
  | _ => 0
  end.

Definition escape_char (c : ascii) : string :=
  match nat_of_ascii c with
  | 34%nat => bs +++ dq
  | 92%nat => bs +++ bs
  | 8%nat => bs +++ "b"
  | 12%nat => bs +++ "f"
  | 10%nat => bs +++ "n"
  | 13%nat => bs +++ "r"
  | 9%nat => bs +++ "t"
  | _ => String c EmptyString
  end.

Fixpoint escape (s : string) : string :=
  match s with
  | String c r => escape_char c +++ escape r
  | EmptyString => EmptyString
  end.

(** [serializeJson(doc, s)]: the compact rendering. *)
Fixpoint serializeJson (v : JsonVariant) : string :=
  match v with
  | JNull => "null"
  | JBool true => "true"
  | JBool false => "false"
  | JInt z => String_of_int z
  | JString s => q (escape s)
  | JArray l =>
      "[" +++
      (fix elems (l : list JsonVariant) : string :=
         match l with
         | [] => EmptyString
         | x :: r => serializeJson x +++
                     match r with [] => EmptyString | _ => "," +++ elems r end
         end) l +++ "]"
  | JObject m =>
      "{" +++
      (fix membs (m : list (string * JsonVariant)) : string :=
         match m with
         | [] => EmptyString
         | (k, x) :: r => q (escape k) +++ ":" +++ serializeJson x +++
                          match r with [] => EmptyString | _ => "," +++ membs r end
         end) m +++ "}"
  end.

End Json.
Import Json.

(** ** Calls into collaborators, in program order *)

Inductive Action : Type :=
| ClientText (client : Z) (s : string)        (* client->text(s) *)
| TextAll (s : string)                        (* ws.textAll(s) *)
| DriveTank (throttle steer : Z)              (* motors.driveTank *)
| ScheduleReboot (ms : Z)
| ConfigPut (key value : string)
| ConfigSaveAllDefaults
| TelemetryReload
| FnSet (idx : Z) (on : bool)
| DisplayLoadAutoScroll (mode n size : Z) (invert truncate : bool)
                        (delayMs : Z) (loop : bool)
| UpdateAbort
| UpdateSetMD5 (md5 : string)
| UpdateBegin (size : Z) (cmd : Z)
| UpdateWrite (len : Z)
| UpdateEnd
| UpdatePrintError
| RequestSend (code : Z) (body : string).

(** [WsSendJson(client, doc)]: nothing is sent when serialization yields no
    byte; a null [client] broadcasts. *)
Definition WsSendJson (client : option Z) (doc : JsonDocument) : list Action :=
  let s := serializeJson doc in
  if (String.length s =? 0)%nat then []
  else match client with
       | Some c => [ClientText c s]
       | None => [TextAll s]
       end.

(** ** Firmware and filesystem update endpoints ([src/ota.cpp]) *)

Module Ota.

Definition OTA_REQUEST_RESET : Z := 700.

(** Command codes of the [Update] library. *)
Definition U_FLASH : Z := 0.
Definition U_SPIFFS : Z := 100.

Record esp_partition_t := { label : string; size : Z }.

(** What the handlers read from the HTTP request. *)
Record Request := {
  hdrUpdateTarget : option string;   (* X-Update-Target *)
  hdrContentMD5 : option string;     (* X-Content-MD5 *)
  contentLength : Z
}.

(** What the flash collaborators answer during one callback; each is asked
    at most once per callback. *)
Record Flash := {
  fsPartition : option esp_partition_t;       (* esp_partition_find_first *)
  nextUpdatePartition : option esp_partition_t; (* esp_ota_get_next_update_partition *)
  beginOk : bool;                             (* Update.begin *)
  writeRet : Z;                               (* Update.write *)
  endOk : bool;                               (* Update.end(true) *)
  millis : Z
}.

(** The file-level statics [written] and [lastProgMs], shared by both
    endpoints, and the function-level statics of each upload lambda. *)
Record State := {
  written : Z;
  lastProgMs : Z;
  mpBegan : bool;
  mpMaxSize : Z;
  mpPart : option esp_partition_t;
  ocBegan : bool;
  ocMaxSize : Z;
  ocPart : option esp_partition_t
}.

Definition init : State :=
  {| written := 0; lastProgMs := 0;
     mpBegan := false; mpMaxSize := 0; mpPart := None;
     ocBegan := false; ocMaxSize := 0; ocPart := None |}.

Definition wsBroadcastOta (fill : JsonDocument -> JsonDocument) : list Action :=
  [TextAll (serializeJson (fill (Json.set JNull "CMD" (JString "ota"))))].

Definition wsOtaStart (isFs : bool) (total max : Z) (lbl : string) : list Action :=
  wsBroadcastOta (fun d =>
    let d := Json.set d "event" (JString "start") in
    let d := Json.set d "target" (JString (if isFs then "fs" else "app")) in
    let d := Json.set d "total" (JInt total) in
    let d := Json.set d "max" (JInt max) in
    Json.set d "part" (JString lbl)).

Definition wsOtaReject (reason : string) : list Action :=
  wsBroadcastOta (fun d =>
    Json.set (Json.set d "event" (JString "reject")) "reason" (JString reason)).

Definition wsOtaProgress (done total : Z) : list Action :=
  wsBroadcastOta (fun d =>
    Json.set (Json.set (Json.set d "event" (JString "progress")) "done" (JInt done))
             "total" (JInt total)).

Definition wsOtaEnd (ok : bool) (msg : string) : list Action :=
  wsBroadcastOta (fun d =>
    Json.set (Json.set (Json.set d "event" (JString "end")) "ok" (JBool ok))
             "message" (JString msg)).

Definition updateCmdFromTarget (fsTarget : bool) : Z :=
  if fsTarget then U_SPIFFS else U_FLASH.

(** [getFsPartition(&out, &maxSize)] with CONFIG_PARTITION_USE_SPIFFS: the
    out-parameters are written only when a partition is found. *)
Definition getFsPartition (fl : Flash) (out : option esp_partition_t) (maxSize : Z)
  : bool * option esp_partition_t * Z :=
  match fsPartition fl with
  | Some p => (true, Some p, size p)
  | None => (false, out, maxSize)
  end.

(** [getTargetPartition(isFs, &out, &maxSize)]: for the firmware target
    [*out] is overwritten even when no partition is found. *)
Definition getTargetPartition (fl : Flash) (isFs : bool)
    (out : option esp_partition_t) (maxSize : Z)
  : bool * option esp_partition_t * Z :=
  if isFs then getFsPartition fl out maxSize
  else match nextUpdatePartition fl with
       | None => (false, None, maxSize)
       | Some p => (true, Some p, size p)
       end.

Definition isFsTarget (req : Request) : bool :=
  match hdrUpdateTarget req with
  | Some v => equalsIgnoreCase v "fs"
  | None => false
  end.

Definition setMD5 (req : Request) : list Action :=
  match hdrContentMD5 req with
  | Some m => [UpdateSetMD5 m]
  | None => []
  end.

Definition partLabel (p : option esp_partition_t) : string :=
  match p with Some p => label p | None => EmptyString end.

(** Result of a block that may [return] from the enclosing lambda. *)
Inductive Flow : Type :=
| Return (st : State) (acts : list Action)
| Continue (st : State) (acts : list Action).

(** *** Multipart endpoint [/update] *)

(** The [if (index == 0)] block of the multipart upload handler. *)
Definition mpSetup (req : Request) (fl : Flash) (st : State) : Flow :=
  let isFs := isFsTarget req in
  match getTargetPartition fl isFs (mpPart st) (mpMaxSize st) with
  | (false, part, maxSize) =>
      Return {| written := written st; lastProgMs := lastProgMs st;
                mpBegan := mpBegan st; mpMaxSize := maxSize; mpPart := part;
                ocBegan := ocBegan st; ocMaxSize := ocMaxSize st; ocPart := ocPart st |}
             (wsOtaReject "Partition not found" ++ [UpdateAbort])
  | (true, part, maxSize) =>
      let acts := setMD5 req
                  ++ wsOtaStart isFs (contentLength req) maxSize (partLabel part)
                  ++ [UpdateBegin maxSize (updateCmdFromTarget isFs)] in
      if beginOk fl then
        Continue {| written := 0; lastProgMs := lastProgMs st;
                    mpBegan := true; mpMaxSize := maxSize; mpPart := part;
                    ocBegan := ocBegan st; ocMaxSize := ocMaxSize st; ocPart := ocPart st |}
                 acts
      else
        Return {| written := written st; lastProgMs := lastProgMs st;
                  mpBegan := mpBegan st; mpMaxSize := maxSize; mpPart := part;
                  ocBegan := ocBegan st; ocMaxSize := ocMaxSize st; ocPart := ocPart st |}
               (acts ++ wsOtaReject "Update.begin failed" ++ [UpdatePrintError])
  end.

Definition setWritten (st : State) (w prog : Z) : State :=
  {| written := w; lastProgMs := prog;
     mpBegan := mpBegan st; mpMaxSize := mpMaxSize st; mpPart := mpPart st;
     ocBegan := ocBegan st; ocMaxSize := ocMaxSize st; ocPart := ocPart st |}.

(** The body shared by both [if (began && len > 0)] blocks once the size
    check has passed: write, count what was actually written, and emit a
    progress message at most every 150 ms. *)
Definition writeChunk (fl : Flash) (len total maxSize : Z) (st : State)
  : State * list Action :=
  let w := writeRet fl in
  let a1 := UpdateWrite len :: (if w =? len then [] else [UpdatePrintError]) in
  let written' := wrap32 (written st + w) in
  let now := millis fl in
  if wrap32 (now - lastProgMs st) >=? 150 then
    (setWritten st written' now,
     a1 ++ wsOtaProgress written' (if total =? 0 then maxSize else total))
  else (setWritten st written' (lastProgMs st), a1).

(** The [if (began && len > 0)] block of the multipart handler. *)
Definition mpWrite (req : Request) (fl : Flash) (len : Z) (st : State) : Flow :=
  if mpBegan st && (len >? 0) then
    if wrap32 (written st + len) >? mpMaxSize st then
      Return st (wsOtaReject "Stream exceeds partition size" ++ [UpdateAbort])
    else
      let '(st', acts) := writeChunk fl len (contentLength req) (mpMaxSize st) st in
      Continue st' acts
  else Continue st [].

(** The [if (final && began)] block of the multipart handler. *)
Definition mpFinish (req : Request) (fl : Flash) (final : bool) (st : State)
  : State * list Action :=
  if final && mpBegan st then
    ({| written := written st; lastProgMs := lastProgMs st;
        mpBegan := false; mpMaxSize := mpMaxSize st; mpPart := mpPart st;
        ocBegan := ocBegan st; ocMaxSize := ocMaxSize st; ocPart := ocPart st |},
     [UpdateEnd] ++ (if endOk fl then [] else [UpdatePrintError])
     ++ wsOtaProgress (written st)
          (if contentLength req =? 0 then mpMaxSize st else contentLength req))
  else (st, []).

(** The state in which the multipart handler reaches its write block, if it
    does. *)
Definition mpAtWrite (req : Request) (fl : Flash) (index : Z) (st : State)
  : option State :=
  if index =? 0 then
    match mpSetup req fl st with
    | Return _ _ => None
    | Continue st1 _ => Some st1
    end
  else Some st.

(** Upload handler of [mountUpdateMultipart]. *)
Definition multipartUpload (req : Request) (fl : Flash) (index len : Z) (final : bool)
    (st : State) : State * list Action :=
  match (if index =? 0 then mpSetup req fl st else Continue st []) with
  | Return st1 a1 => (st1, a1)
  | Continue st1 a1 =>
      match mpWrite req fl len st1 with
      | Return st2 a2 => (st2, a1 ++ a2)
      | Continue st2 a2 =>
          let '(st3, a3) := mpFinish req fl final st2 in
          (st3, a1 ++ a2 ++ a3)
      end
  end.

(** Request handler of [mountUpdateMultipart], run when the request ends. *)
Definition multipartDone (hasError : bool) : list Action :=
  let success := negb hasError in
  [RequestSend (if success then 200 else 500) (if success then "OK" else "FAIL")]
  ++ wsOtaEnd success (if success then "OK" else "FAIL")
  ++ (if success then [ScheduleReboot OTA_REQUEST_RESET] else []).

(** *** Raw-stream endpoint [/ota] *)

(** The [if (index == 0)] block of the octet-stream handler. *)
Definition ocSetup (req : Request) (fl : Flash) (total : Z) (st : State) : Flow :=
  let isFs := isFsTarget req in
  let mk began maxSize part :=
    {| written := 0; lastProgMs := lastProgMs st;
       mpBegan := mpBegan st; mpMaxSize := mpMaxSize st; mpPart := mpPart st;
       ocBegan := began; ocMaxSize := maxSize; ocPart := part |} in
  match getTargetPartition fl isFs (ocPart st) (ocMaxSize st) with
  | (false, part, maxSize) =>
      Return (mk (ocBegan st) maxSize part)
             (wsOtaReject "Partition not found"
              ++ [RequestSend 500 "Partition not found"])
  | (true, part, maxSize) =>
      if negb (total =? 0) && (total >? maxSize) then
        Return (mk (ocBegan st) maxSize part)
               (wsOtaReject "Image too big for partition"
                ++ [RequestSend 400 "Too big"])
      else
        let acts := setMD5 req
                    ++ wsOtaStart isFs total maxSize (partLabel part)
                    ++ [UpdateBegin maxSize (updateCmdFromTarget isFs)] in
        if beginOk fl then Continue (mk true maxSize part) acts
        else Return (mk (ocBegan st) maxSize part)
                    (acts ++ wsOtaReject "Update.begin failed"
                     ++ [UpdatePrintError; RequestSend 500 "FAIL begin"])
  end.

(** The [if (began && len > 0)] block of the octet-stream handler. *)
Definition ocWrite (fl : Flash) (len total : Z) (st : State) : Flow :=
  if ocBegan st && (len >? 0) then
    if wrap32 (written st + len) >? ocMaxSize st then
      Return st (wsOtaReject "Stream exceeds partition"
                 ++ [UpdateAbort; RequestSend 400 "Too big"])
    else
      let '(st', acts) := writeChunk fl len total (ocMaxSize st) st in
      Continue st' acts
  else Continue st [].

(** The [if (began && (index + len == total))] block. *)
Definition ocFinish (fl : Flash) (len index total : Z) (st : State)
  : State * list Action :=
  if ocBegan st && (wrap32 (index + len) =? total) then
    ({| written := written st; lastProgMs := lastProgMs st;
        mpBegan := mpBegan st; mpMaxSize := mpMaxSize st; mpPart := mpPart st;
        ocBegan := false; ocMaxSize := ocMaxSize st; ocPart := ocPart st |},
     [UpdateEnd] ++
     (if endOk fl then
        wsOtaProgress (written st) (if total =? 0 then ocMaxSize st else total)
        ++ [RequestSend 200 "OK"] ++ wsOtaEnd true "OK"
        ++ [ScheduleReboot OTA_REQUEST_RESET]
      else [UpdatePrintError; RequestSend 500 "FAIL end"] ++ wsOtaEnd false "FAIL"))
  else (st, []).

Definition ocAtWrite (req : Request) (fl : Flash) (index total : Z) (st : State)
  : option State :=
  if index =? 0 then
    match ocSetup req fl total st with
    | Return _ _ => None
    | Continue st1 _ => Some st1
    end
  else Some st.

(** Body handler of [mountUpdateOctet]. *)
Definition octetUpload (req : Request) (fl : Flash) (len index total : Z)
    (st : State) : State * list Action :=
  match (if index =? 0 then ocSetup req fl total st else Continue st []) with
  | Return st1 a1 => (st1, a1)
  | Continue st1 a1 =>
      match ocWrite fl len total st1 with
      | Return st2 a2 => (st2, a1 ++ a2)
      | Continue st2 a2 =>
          let '(st3, a3) := ocFinish fl len index total st2 in
          (st3, a1 ++ a2 ++ a3)
      end
  end.

(** *** Callbacks as events *)

Inductive Event : Type :=
| MultipartChunk (req : Request) (fl : Flash) (index len : Z) (final : bool)
| MultipartDone (hasError : bool)
| OctetChunk (req : Request) (fl : Flash) (len index total : Z).

Definition step (st : State) (ev : Event) : State * list Action :=
  match ev with
  | MultipartChunk req fl index len final => multipartUpload req fl index len final st
  | MultipartDone hasError => (st, multipartDone hasError)
  | OctetChunk req fl len index total => octetUpload req fl len index total st
  end.

Fixpoint run (st : State) (evs : list Event) : State * list Action :=
  match evs with
  | [] => (st, [])
  | ev :: r =>
      let '(st1, a1) := step st ev in
      let '(st2, a2) := run st1 r in
      (st2, a1 ++ a2)
  end.

(** The state in which a chunk reaches the write block of its handler. *)
Definition atWrite (st : State) (ev : Event) : option State :=
  match ev with
  | MultipartChunk req fl index _ _ => mpAtWrite req fl index st
  | MultipartDone _ => None
  | OctetChunk req fl _ index total => ocAtWrite req fl index total st
  end.

(** [began] and [maxSize] of the endpoint an event belongs to. *)
Definition began (st : State) (ev : Event) : bool :=
  match ev with
  | MultipartChunk _ _ _ _ _ => mpBegan st
  | MultipartDone _ => false
  | OctetChunk _ _ _ _ _ => ocBegan st
  end.

Definition maxSize (st : State) (ev : Event) : Z :=
  match ev with
  | MultipartChunk _ _ _ _ _ => mpMaxSize st
  | MultipartDone _ => 0
  | OctetChunk _ _ _ _ _ => ocMaxSize st
  end.

Definition chunkLen (ev : Event) : Z :=
  match ev with
  | MultipartChunk _ _ _ len _ => len
  | MultipartDone _ => 0
  | OctetChunk _ _ len _ _ => len
  end.

Definition chunkFlash (ev : Event) : option Flash :=
  match ev with
  | MultipartChunk _ fl _ _ _ => Some fl
  | MultipartDone _ => None
  | OctetChunk _ fl _ _ _ => Some fl
  end.

Definition isWrite (a : Action) : bool :=
  match a with UpdateWrite _ => true | _ => false end.

Definition isAbort (a : Action) : bool :=
  match a with UpdateAbort => true | _ => false end.

(** The broadcast that rejects a chunk for exceeding the partition. *)
Definition isExceedsReject (a : Action) : bool :=
  match a with
  | TextAll s =>
      existsb (fun r => String.eqb s
                 (serializeJson (JObject [("CMD", JString "ota");
                                          ("event", JString "reject");
                                          ("reason", JString r)])))
              ["Stream exceeds partition"; "Stream exceeds partition size"]
  | _ => false
  end.

(** Sizes a device can present: partitions of at most [flashSize] bytes, and
    chunks short enough that a partition size plus a chunk length is
    representable in [size_t]; [Update.write] reports no more than it was
    given. *)
Definition partBounded (flashSize : Z) (p : option esp_partition_t) : Prop :=
  match p with Some p => 0 <= size p <= flashSize | None => True end.

Definition bounded (flashSize : Z) (ev : Event) : Prop :=
  0 <= chunkLen ev /\ flashSize + chunkLen ev < SIZE_MOD /\
  match chunkFlash ev with
  | Some fl => 0 <= writeRet fl <= chunkLen ev
               /\ partBounded flashSize (fsPartition fl)
               /\ partBounded flashSize (nextUpdatePartition fl)
  | None => True
  end.

Definition chunkWriteRet (ev : Event) : Z :=
  match chunkFlash ev with Some fl => writeRet fl | None => 0 end.

(** Sizes stay within the device's flash. *)
Definition Inv (flashSize : Z) (st : State) : Prop :=
  0 <= written st <= flashSize /\
  0 <= mpMaxSize st <= flashSize /\
  0 <= ocMaxSize st <= flashSize.


(** A device with a 1,500,000-byte firmware partition and no filesystem
    partition, and requests that declare 2,000,000 bytes. *)
Definition appPartition : esp_partition_t := {| label := "app1"; size := 1500000 |}.

Definition device (w : Z) : Flash :=
  {| fsPartition := None; nextUpdatePartition := Some appPartition;
     beginOk := true; writeRet := w; endOk := true; millis := 1000 |}.

Definition plainRequest (declared : Z) : Request :=
  {| hdrUpdateTarget := None; hdrContentMD5 := None; contentLength := declared |}.

End Ota.

(** ** Frame accumulator pool ([src/websocket.cpp]) *)

Module Acc.

Definition WS_MAX_CLIENTS : nat := 4.
Definition WS_MAX_PAYLOAD : Z := 8 * 1024.

(** Frame opcodes of the web-socket protocol. *)
Definition WS_CONTINUATION : Z := 0.
Definition WS_TEXT : Z := 1.
Definition WS_BINARY : Z := 2.

Record WsAcc := {
  id : Z;
  inUse : bool;
  firstOpcode : Z;
  expectedLen : Z;
  buf : list byte
}.

Definition emptyAcc : WsAcc :=
  {| id := 0; inUse := false; firstOpcode := 0; expectedLen := 0; buf := [] |}.

(** [static WsAcc s_acc[WS_MAX_CLIENTS]] *)
Definition s_acc : list WsAcc := repeat emptyAcc WS_MAX_CLIENTS.

(** The fields of [AwsFrameInfo] that [onWsEvent] reads; [index] and
    [len] are 64 bits wide. *)
Record AwsFrameInfo := {
  index : Z;
  len : Z;
  opcode : Z;
  final : bool
}.

(** What [onWsEvent] calls, with the client the call is made for. *)
Inductive WsCall : Type :=
| CallConnectHello (client : Z)
| CallError (client : Z) (msg : string)
| CallHandleWsMessage (client : Z) (payload : list byte)
| CallHandleWsBinary (client : Z) (payload : list byte).

Definition callClient (k : WsCall) : Z :=
  match k with
  | CallConnectHello c | CallError c _
  | CallHandleWsMessage c _ | CallHandleWsBinary c _ => c
  end.

(** First loop of [WsGetAcc]: the slot bound to [c]. *)
Fixpoint findAcc (pool : list WsAcc) (c : Z) : option nat :=
  match pool with
  | [] => None
  | a :: r => if inUse a && (id a =? c) then Some 0%nat
              else option_map S (findAcc r c)
  end.

(** Second loop of [WsGetAcc]: the first free slot. *)
Fixpoint findFree (pool : list WsAcc) : option nat :=
  match pool with
  | [] => None
  | a :: r => if negb (inUse a) then Some 0%nat else option_map S (findFree r)
  end.

(** A slot freshly bound to [c]. *)
Definition bind (c : Z) : WsAcc :=
  {| id := c; inUse := true; firstOpcode := 0; expectedLen := 0; buf := [] |}.

(** Assignment through a pointer into [s_acc]. *)
Fixpoint update (i : nat) (f : WsAcc -> WsAcc) (pool : list WsAcc) : list WsAcc :=
  match pool, i with
  | [], _ => []
  | a :: r, O => f a :: r
  | a :: r, S j => a :: update j f r
  end.

Definition slot (pool : list WsAcc) (i : nat) : WsAcc := nth i pool emptyAcc.

(** [WsGetAcc(id)]: the slot index and the pool after a possible binding;
    [None] is the null pointer. *)
Definition WsGetAcc (pool : list WsAcc) (c : Z) : option (nat * list WsAcc) :=
  match findAcc pool c with
  | Some i => Some (i, pool)
  | None =>
      match findFree pool with
      | Some j => Some (j, update j (fun _ => bind c) pool)
      | None => None
      end
  end.

(** [WsResetAcc(a)] for a non-null [a]. *)
Definition WsResetAcc (a : WsAcc) : WsAcc :=
  {| id := id a; inUse := inUse a; firstOpcode := 0; expectedLen := 0; buf := [] |}.

(** [WsReleaseAcc(id)]: frees the first slot bound to [c]. *)
Fixpoint WsReleaseAcc (pool : list WsAcc) (c : Z) : list WsAcc :=
  match pool with
  | [] => []
  | a :: r =>
      if inUse a && (id a =? c)
      then {| id := id a; inUse := false; firstOpcode := 0;
              expectedLen := 0; buf := [] |} :: r
      else a :: WsReleaseAcc r c
  end.

(** The WS_EVT_DATA branch of [onWsEvent] once a slot has been obtained.
    [expectedLen] is a [size_t]: the assignment keeps the low 32 bits of
    the announced length, and the test is made on the field. *)
Definition onData (c : Z) (info : AwsFrameInfo) (data : list byte) (a : WsAcc)
  : WsAcc * list WsCall :=
  let first :=
    if index info =? 0 then
      let a1 := {| id := id a; inUse := inUse a; firstOpcode := opcode info;
                   expectedLen := wrap32 (len info); buf := [] |} in
      if expectedLen a1 >? WS_MAX_PAYLOAD then inl (WsResetAcc a1) else inr a1
    else inr a in
  match first with
  | inl a1 => (a1, [CallError c "payload too large"])
  | inr a1 =>
      let a2 := {| id := id a1; inUse := inUse a1; firstOpcode := firstOpcode a1;
                   expectedLen := expectedLen a1; buf := buf a1 ++ data |} in
      if negb (final info) then (a2, [])
      else
        let call :=
          if firstOpcode a2 =? WS_TEXT then
            (* a terminator is pushed and size - 1 bytes are handed over *)
            let b := buf a2 ++ [x00] in
            CallHandleWsMessage c (firstn (List.length b - 1) b)
          else if firstOpcode a2 =? WS_BINARY then CallHandleWsBinary c (buf a2)
          else CallError c "unsupported opcode" in
        (WsResetAcc a2, [call])
  end.

Inductive WsEvent : Type :=
| EvConnect (client : Z)
| EvDisconnect (client : Z)
| EvData (client : Z) (info : AwsFrameInfo) (data : list byte)
| EvOther (client : Z).

(** [onWsEvent] on the accumulator pool. *)
Definition onWsEvent (pool : list WsAcc) (ev : WsEvent) : list WsAcc * list WsCall :=
  match ev with
  | EvConnect c =>
      match WsGetAcc pool c with
      | Some (i, pool1) => (update i WsResetAcc pool1, [CallConnectHello c])
      | None => (pool, [CallConnectHello c])
      end
  | EvDisconnect c => (WsReleaseAcc pool c, [])
  | EvOther _ => (pool, [])
  | EvData c info data =>
      match WsGetAcc pool c with
      | None => (pool, [CallError c "too many ws clients"])
      | Some (i, pool1) =>
          let '(a, calls) := onData c info data (slot pool1 i) in
          (update i (fun _ => a) pool1, calls)
      end
  end.

Fixpoint run (pool : list WsAcc) (evs : list WsEvent) : list WsAcc * list WsCall :=
  match evs with
  | [] => (pool, [])
  | ev :: r =>
      let '(pool1, c1) := onWsEvent pool ev in
      let '(pool2, c2) := run pool1 r in
      (pool2, c1 ++ c2)
  end.

(** *** Vocabulary of the statements *)

Abbreviation Frame := (AwsFrameInfo * list byte)%type.

(** A frame stream tagged with the sending connection. *)
Definition dataEvents (fs : list (Z * Frame)) : list WsEvent :=
  map (fun cf => EvData (fst cf) (fst (snd cf)) (snd (snd cf))) fs.

Definition framesOf (c : Z) (fs : list (Z * Frame)) : list Frame :=
  map snd (filter (fun cf => fst cf =? c) fs).

Definition callsFor (c : Z) (calls : list WsCall) : list WsCall :=
  filter (fun k => callClient k =? c) calls.

(** One private accumulator fed the frames of a single connection. *)
Fixpoint runAcc (c : Z) (a : WsAcc) (fs : list Frame) : WsAcc * list WsCall :=
  match fs with
  | [] => (a, [])
  | (info, data) :: r =>
      let '(a1, c1) := onData c info data a in
      let '(a2, c2) := runAcc c a1 r in
      (a2, c1 ++ c2)
  end.

Definition payloads (fs : list Frame) : list byte := List.concat (map snd fs).

(** Continuation frames of a message: none starts at index 0 and only the
    last one is final. *)
Fixpoint continuation (fs : list Frame) : Prop :=
  match fs with
  | [] => False
  | [(info, _)] => index info <> 0 /\ final info = true
  | (info, _) :: r => index info <> 0 /\ final info = false /\ continuation r
  end.

(** A complete message of kind [op] as a frame sequence: the first frame
    starts at index 0, announces [op] and a length that [expectedLen]
    holds within the limit. *)
Definition message (op : Z) (fs : list Frame) : Prop :=
  match fs with
  | [] => False
  | (info, _) :: r =>
      index info = 0 /\ opcode info = op /\ wrap32 (len info) <= WS_MAX_PAYLOAD /\
      match r with
      | [] => final info = true
      | _ => final info = false /\ continuation r
      end
  end.

Definition textOrBinary (fs : list Frame) : Prop :=
  message WS_TEXT fs \/ message WS_BINARY fs.

(** The call a completed message is forwarded with. *)
Definition forwarded (c : Z) (fs : list Frame) : WsCall :=
  match fs with
  | (info, _) :: _ =>
      if opcode info =? WS_TEXT then CallHandleWsMessage c (payloads fs)
      else CallHandleWsBinary c (payloads fs)
  | [] => CallHandleWsBinary c []
  end.

(** No data event of connection [c] starts a new message. *)
Definition continuationOnly (c : Z) (evs : list WsEvent) : Prop :=
  Forall (fun ev => match ev with
                    | EvData c' info _ => c' = c -> index info <> 0
                    | _ => True
                    end) evs.

Definition isForward (c : Z) (k : WsCall) : bool :=
  match k with
  | CallHandleWsMessage c' _ | CallHandleWsBinary c' _ => c' =? c
  | _ => false
  end.

(** The accumulator that [c] sees: its slot, or a fresh one. *)
Definition view (pool : list WsAcc) (c : Z) : WsAcc :=
  match findAcc pool c with
  | Some i => slot pool i
  | None => bind c
  end.

Definition inUseIds (pool : list WsAcc) : list Z :=
  map id (filter inUse pool).

Definition shape (pool : list WsAcc) : list (bool * Z) :=
  map (fun a => (inUse a, id a)) pool.

(** Every slot bound to [c] is between messages. *)
Definition idle (c : Z) (pool : list WsAcc) : Prop :=
  forall a, In a pool -> inUse a = true -> id a = c -> firstOpcode a = 0.

(** The call made when a message of kind [op] completes with buffer [b]. *)
Definition completion (c op : Z) (b : list byte) : WsCall :=
  if op =? WS_TEXT then CallHandleWsMessage c b
  else if op =? WS_BINARY then CallHandleWsBinary c b
  else CallError c "unsupported opcode".

(** Frames of the examples. *)
Definition frame (idx op : Z) (fin : bool) (total : Z) (data : list byte)
  : AwsFrameInfo * list byte :=
  ({| index := idx; len := total; opcode := op; final := fin |}, data).

(** Connections 1 and 2 each send a three-fragment text message, frame by
    frame in turn. *)
Definition interleaved : list (Z * (AwsFrameInfo * list byte)) :=
  [ (1, frame 0 WS_TEXT false 6 [x61; x62]);
    (2, frame 0 WS_TEXT false 6 [x31; x32]);
    (1, frame 2 WS_CONTINUATION false 6 [x63; x64]);
    (2, frame 2 WS_CONTINUATION false 6 [x33; x34]);
    (1, frame 4 WS_CONTINUATION true 6 [x65; x66]);
    (2, frame 4 WS_CONTINUATION true 6 [x35; x36]) ].

End Acc.

(** ** Command dispatcher and handlers ([src/websocket.cpp]) *)

Module Dispatch.

Definition VERSIONE_APP : string := "1.0".
Definition CONNECTION_HOSTNAME : string := "RoBoRa".
Definition WS_REQUEST_RESET : Z := 500.
Definition DISPLAY_MAX_LINES : nat := 16.

(** *** Parameter tables of [src/config.cpp] *)

Inductive ParamType := PARAM_TYPE_INT | PARAM_TYPE_BOOL | PARAM_TYPE_FLOAT | PARAM_TYPE_STRING.

Record ParamInfo := { key : string; label : string; type : ParamType }.

Definition motorsParamsList : list ParamInfo :=
  [ {| key := "maxVel"; label := "Velocità Massima"; type := PARAM_TYPE_INT |};
    {| key := "deadzone"; label := "Deadzone"; type := PARAM_TYPE_INT |};
    {| key := "expoPct"; label := "Expo Percentuale"; type := PARAM_TYPE_INT |};
    {| key := "SteerGain"; label := "Guadagno Sterzo"; type := PARAM_TYPE_INT |};
    {| key := "arcadeK"; label := "Arcade K"; type := PARAM_TYPE_INT |};
    {| key := "arcadeEnabled"; label := "Arcade Abilitato"; type := PARAM_TYPE_BOOL |};
    {| key := "invertA"; label := "Inverti Motor A"; type := PARAM_TYPE_BOOL |};
    {| key := "invertB"; label := "Inverti Motor B"; type := PARAM_TYPE_BOOL |};
    {| key := "tankInvThr"; label := "Tank inverti Throttle"; type := PARAM_TYPE_BOOL |};
    {| key := "tankInvStr"; label := "Tank inverti Steer"; type := PARAM_TYPE_BOOL |} ].

Definition wifiParamsList : list ParamInfo :=
  [ {| key := "ap_sta"; label := "AccessPoint / Station"; type := PARAM_TYPE_BOOL |};
    {| key := "retray"; label := "Retry Count"; type := PARAM_TYPE_INT |};
    {| key := "STssid"; label := "Station SSID"; type := PARAM_TYPE_STRING |};
    {| key := "STpass"; label := "Station Password"; type := PARAM_TYPE_STRING |};
    {| key := "APssid"; label := "Access SSID"; type := PARAM_TYPE_STRING |};
    {| key := "APpass"; label := "Access Password"; type := PARAM_TYPE_STRING |};
    {| key := "AP__ip"; label := "IP address"; type := PARAM_TYPE_STRING |};
    {| key := "AP__gw"; label := "Gateway address"; type := PARAM_TYPE_STRING |};
    {| key := "AP_sub"; label := "Subnet address"; type := PARAM_TYPE_STRING |} ].

Definition telemetryParamsList : list ParamInfo :=
  [ {| key := "enable"; label := "Enable"; type := PARAM_TYPE_BOOL |};
    {| key := "refresh"; label := "Refersh Time"; type := PARAM_TYPE_INT |} ].

Definition hasKey (params : list ParamInfo) (k : string) : bool :=
  existsb (fun p => String.eqb (key p) k) params.

(** [configIsParamKey(k) != nullptr] *)
Definition configIsParamKey (k : string) : bool :=
  hasKey motorsParamsList k || hasKey wifiParamsList k || hasKey telemetryParamsList k.

Definition configParamTypeToString (t : ParamType) : string :=
  match t with
  | PARAM_TYPE_INT => "number"
  | PARAM_TYPE_BOOL => "checkbox"
  | PARAM_TYPE_FLOAT => "number"
  | PARAM_TYPE_STRING => "text"
  end.

Fixpoint joinQuoted (items : list string) : string :=
  match items with
  | [] => EmptyString
  | [x] => q x
  | x :: r => q x +++ "," +++ joinQuoted r
  end.

Definition configAppendSection (jsonString sectionName : string)
    (params : list ParamInfo) : string :=
  jsonString +++ q sectionName +++ ":{"
  +++ q "params" +++ ":[" +++ joinQuoted (map key params) +++ "],"
  +++ q "labels" +++ ":[" +++ joinQuoted (map label params) +++ "],"
  +++ q "types" +++ ":["
  +++ joinQuoted (map (fun p => configParamTypeToString (type p)) params) +++ "]"
  +++ "}".

Definition configGetListParameter : string :=
  let s := "{" +++ q "CMD" +++ ":" +++ q "config_req" +++ "," in
  let s := configAppendSection s "connessione" wifiParamsList +++ "," in
  let s := configAppendSection s "motore" motorsParamsList +++ "," in
  configAppendSection s "telemetria" telemetryParamsList +++ "}".

(** *** State and environment *)

(** [joyX], [joyY] and [motorsReinit] of [src/motors.cpp], and the static
    line buffer of [ws_cmd_sendString]. *)
Record State := {
  joyX : Z;
  joyY : Z;
  motorsReinit : bool;
  lineBuf : list string
}.

(** What the handlers read from their surroundings: stored configuration
    values ([configGet(k, empty)]) and the readings shown by [info_req]. *)
Record Env := {
  configGet : string -> string;
  efuseMac : Z; chipRevision : Z; chipCores : Z; cpuFreqMHz : Z;
  sdkVersion : string;
  localIP : string; macAddress : string; rssi : Z; uptimeMs : Z;
  flashChipSize : Z; freeSketchSpace : Z;
  freeHeap : Z; fsUsedBytes : Z; fsTotalBytes : Z
}.

(** A handler either runs to completion or stores past the end of the
    line buffer, after which the C++ program has no defined behaviour. *)
Inductive Outcome : Type :=
| Done (st : State) (acts : list Action)
| OutOfBounds (i : Z).

(** [motorsApply(throttle, steer)] *)
Definition motorsApply (throttle steer : Z) (st : State) : State * list Action :=
  let y := to_int16 throttle in
  let x := to_int16 steer in
  ({| joyX := x; joyY := y; motorsReinit := motorsReinit st; lineBuf := lineBuf st |},
   [DriveTank y x]).

(** [motorsReload()] *)
Definition motorsReload (st : State) : State :=
  {| joyX := joyX st; joyY := joyY st; motorsReinit := true; lineBuf := lineBuf st |}.

(** *** Safe parameter extraction *)

Definition is_int (v : JsonVariant) : bool :=
  match v with JInt z => (INT_MIN <=? z) && (z <=? INT_MAX) | _ => false end.

Definition ws_getBool (v : JsonVariant) (def : bool) : bool :=
  match v with
  | JBool b => b
  | JInt _ => if is_int v then negb (as_int v =? 0) else def
  | JString s => negb (strtol (c_str s) =? 0)
  | _ => def
  end.

Definition ws_getU8 (v : JsonVariant) (def : Z) : Z :=
  if isNull v then def
  else let x := as_int v in
       let x := if x <? 0 then 0 else x in
       let x := if x >? 255 then 255 else x in
       to_uint8 x.

Definition ws_getU16 (v : JsonVariant) (def : Z) : Z :=
  if isNull v then def
  else let x := as_int v in
       let x := if x <? 0 then 0 else x in
       let x := if x >? 65535 then 65535 else x in
       x mod 65536.

(** *** Handlers *)

Definition reply (doc : list (string * JsonVariant)) : JsonDocument :=
  fold_left (fun d kv => Json.set d (fst kv) (snd kv)) doc JNull.

Definition ws_cmd_error (client : Z) (Errortype : string) : list Action :=
  WsSendJson (Some client)
    (reply [("CMD", JString "error"); ("msg", JString Errortype)]).

Definition ws_cmd_hello (client : Z) (doc : JsonDocument) (env : Env) (st : State)
  : Outcome :=
  Done st (WsSendJson (Some client)
             (reply [("CMD", JString "hello_webui");
                     ("server", JString CONNECTION_HOSTNAME);
                     ("ver", JString VERSIONE_APP)])).

Definition rebootAck : string :=
  "{" +++ q "CMD" +++ ":" +++ q "ack" +++ "," +++ q "msg" +++ ":" +++ q "rebooting" +++ "}".

Definition ws_cmd_reboot (client : Z) (doc : JsonDocument) (env : Env) (st : State)
  : Outcome :=
  Done st [ClientText client rebootAck; ScheduleReboot WS_REQUEST_RESET].

Definition ws_cmd_config_req (client : Z) (doc : JsonDocument) (env : Env) (st : State)
  : Outcome :=
  Done st [ClientText client configGetListParameter].

(** In the three loops over the members of a request, [k] is
    [kv.key().c_str()]: the key up to its first NUL. *)
Fixpoint config_rd_loop (client : Z) (env : Env) (kvs : list (string * JsonVariant))
  : list Action :=
  match kvs with
  | [] => []
  | (key, _) :: r =>
      let k := c_str key in
      (if configIsParamKey k then
         WsSendJson (Some client)
           (reply [("CMD", JString "config_rd"); (k, JString (configGet env k))])
       else [])
      ++ config_rd_loop client env r
  end.

Definition ws_cmd_config_rd (client : Z) (doc : JsonDocument) (env : Env) (st : State)
  : Outcome :=
  Done st (config_rd_loop client env (Json.members doc)).

Fixpoint config_wr_loop (client : Z) (kvs : list (string * JsonVariant)) : list Action :=
  match kvs with
  | [] => []
  | (key, v) :: r =>
      let k := c_str key in
      (if configIsParamKey k then
         let sv := match as_cstr v with Some s => s | None => EmptyString end in
         ConfigPut k sv ::
         WsSendJson (Some client)
           (reply [("CMD", JString "config_wr"); (k, JString sv)])
       else [])
      ++ config_wr_loop client r
  end.

Definition ws_cmd_config_wr (client : Z) (doc : JsonDocument) (env : Env) (st : State)
  : Outcome :=
  Done (motorsReload st)
       (config_wr_loop client (Json.members doc) ++ [TelemetryReload]).

Definition ws_cmd_sendInfo (client : Z) (doc : JsonDocument) (env : Env) (st : State)
  : Outcome :=
  let S := String_of_int in
  Done st (WsSendJson (Some client)
    (reply
      [("CMD", JString "info");
       ("info1", JString ("Versione RoBoRa: " +++ VERSIONE_APP));
       ("info2", JString ("Chip ID:" +++ S (efuseMac env) +++ " Ver. Chip:"
                          +++ S (chipRevision env) +++ " Core:" +++ S (chipCores env)
                          +++ " " +++ S (cpuFreqMHz env) +++ "Mhz IDF:"
                          +++ sdkVersion env));
       ("info3", JString (localIP env +++ " " +++ macAddress env +++ " "
                          +++ S (rssi env) +++ " dBm  "
                          +++ S (uptimeMs env / 1000) +++ " s uptime"));
       ("info4", JString ("Flash Size:" +++ S (flashChipSize env / 1024)
                          +++ " KB Free Space:" +++ S (freeSketchSpace env / 1024)
                          +++ " KB"));
       ("info5", JString ("Memory: " +++ S (freeHeap env / 1024)
                          +++ " KB heap + SPIFFS: " +++ S (fsUsedBytes env / 1024)
                          +++ "/" +++ S (fsTotalBytes env / 1024) +++ " KB FS"));
       ("info6", JString "SPARE");
       ("info7", JString "SPARE");
       ("info8", JString "SPARE")])).

Definition ws_cmd_move (client : Z) (doc : JsonDocument) (env : Env) (st : State)
  : Outcome :=
  let x := atoi (or_cstr (Json.get doc "x") "0") in
  let y := atoi (or_cstr (Json.get doc "y") "0") in
  let x := constrain x (-127) 127 in
  let y := constrain y (-127) 127 in
  let '(st1, a1) := motorsApply y x st in
  Done st1 (a1 ++ WsSendJson (Some client)
                    (reply [("CMD", JString "move"); ("status", JString "OK")])).

(** [k + 2]: the key without its first two characters. *)
Definition afterFN (k : string) : string :=
  String.substring 2 (String.length k - 2) k.

Fixpoint function_loop (kvs : list (string * JsonVariant)) : list Action :=
  match kvs with
  | [] => []
  | (key, v) :: r =>
      let k := c_str key in
      (if has_prefix "FN" k then
         let idx := atoi (afterFN k) in
         let on := match as_cstr v with
                   | Some s => equalsIgnoreCase s "on"
                   | None => false
                   end in
         [FnSet (wrap32 idx) on]
       else [])
      ++ function_loop r
  end.

Definition ws_cmd_function (client : Z) (doc : JsonDocument) (env : Env) (st : State)
  : Outcome :=
  Done st (function_loop (Json.members doc)
           ++ WsSendJson (Some client)
                (reply [("CMD", JString "function"); ("status", JString "OK")])).

Definition ws_cmd_reset_memory (client : Z) (doc : JsonDocument) (env : Env) (st : State)
  : Outcome :=
  Done st (ConfigSaveAllDefaults ::
           WsSendJson (Some client)
             (reply [("CMD", JString "reset_memory"); ("status", JString "OK")])).

(** [buf[i] = s] on the array of DISPLAY_MAX_LINES strings. *)
Fixpoint store (i : nat) (s : string) (buf : list string) : list string :=
  match buf, i with
  | [], _ => []
  | _ :: r, O => s :: r
  | b :: r, S j => b :: store j s r
  end.

(** The loop over the [strings] array: [buf[Stringrecived++] = ...] for
    every element that is a string.  [inr i] is a store at index [i] past
    the end of the buffer. *)
Fixpoint sendString_loop (arr : list JsonVariant) (buf : list string) (n : Z)
  : (list string * Z) + Z :=
  match arr with
  | [] => inl (buf, n)
  | v :: r =>
      match as_cstr v with
      | Some s =>
          if n <? Z.of_nat DISPLAY_MAX_LINES
          then sendString_loop r (store (Z.to_nat n) s buf) (to_uint8 (n + 1))
          else inr n
      | None => sendString_loop r buf n
      end
  end.

Definition ws_cmd_sendString (client : Z) (doc : JsonDocument) (env : Env) (st : State)
  : Outcome :=
  let fontsize := ws_getU8 (Json.get doc "size") 1 in
  let invert := ws_getBool (Json.get doc "invert") false in
  let truncate := ws_getBool (Json.get doc "truncate") false in
  let scroll := ws_getU8 (Json.get doc "scroll") 0 in
  let delayMs := ws_getU16 (Json.get doc "delay") 1500 in
  let loop := ws_getBool (Json.get doc "loop") false in
  let stored :=
    match Json.get doc "strings" with
    | JArray arr => sendString_loop arr (lineBuf st) 0
    | _ => inl (lineBuf st, 0)
    end in
  match stored with
  | inr i => OutOfBounds i
  | inl (buf, Stringrecived) =>
      Done {| joyX := joyX st; joyY := joyY st; motorsReinit := motorsReinit st;
              lineBuf := buf |}
           (DisplayLoadAutoScroll scroll Stringrecived fontsize invert truncate
                                  delayMs loop
            :: WsSendJson (Some client)
                 (reply [("CMD", JString "displaymsg"); ("status", JString "OK")]))
  end.

(** *** Command table and dispatch *)

Definition WsCommandHandler : Type := Z -> JsonDocument -> Env -> State -> Outcome.

Definition ws_commands : list (string * WsCommandHandler) :=
  [ ("hello_robora", ws_cmd_hello);
    ("reboot", ws_cmd_reboot);
    ("config_req", ws_cmd_config_req);
    ("config_rd", ws_cmd_config_rd);
    ("config_wr", ws_cmd_config_wr);
    ("info_req", ws_cmd_sendInfo);
    ("move", ws_cmd_move);
    ("function", ws_cmd_function);
    ("reset_memory", ws_cmd_reset_memory);
    ("displaymsg", ws_cmd_sendString) ].

(** [ws_commands.find(cmd)] *)
Fixpoint find (cmd : string) (table : list (string * WsCommandHandler))
  : option WsCommandHandler :=
  match table with
  | [] => None
  | (name, h) :: r => if String.eqb name cmd then Some h else find cmd r
  end.

Inductive DeserializationResult : Type :=
| DeserializationOk (doc : JsonDocument)
| DeserializationError (c_str : string).

Section Parser.

(** The ArduinoJson parser. *)
Variable deserializeJson : list byte -> DeserializationResult.

Definition handleWsMessage (client : Z) (payload : list byte) (env : Env) (st : State)
  : Outcome :=
  match deserializeJson payload with
  | DeserializationError e =>
      Done st (WsSendJson (Some client)
                 (reply [("CMD", JString "error");
                         ("msg", JString ("invalid json payload" +++ e))]))
  | DeserializationOk doc =>
      let cmd := or_cstr (Json.get doc "CMD") EmptyString in
      match find cmd ws_commands with
      | Some h => h client doc env st
      | None => Done st (ws_cmd_error client "unknown command")
      end
  end.

End Parser.

(** *** Vocabulary of the statements *)

(** The text is a JSON object whose first member is [CMD] with value
    [name]. *)
Definition cmdIs (name text : string) : bool :=
  String.prefix ("{" +++ q "CMD" +++ ":" +++ q name) text.

(** The text is a JSON object whose first member is [CMD] with a string
    value. *)
Definition hasCmd (text : string) : bool :=
  String.prefix ("{" +++ q "CMD" +++ ":" +++ dq) text.

(** The name the reply to a command carries in CMD: the command's own
    name, except for [reboot] and [info_req]. *)
Definition replyName (name : string) : string :=
  if String.eqb name "reboot" then "ack"
  else if String.eqb name "info_req" then "info"
  else name.

(** The messages an action list sends, in order, each with its addressee
    ([None] for a broadcast). *)
Fixpoint sent (acts : list Action) : list (option Z * string) :=
  match acts with
  | [] => []
  | ClientText c s :: r => (Some c, s) :: sent r
  | TextAll s :: r => (None, s) :: sent r
  | _ :: r => sent r
  end.

(** What a list of messages looks like when each goes to [client] and
    carries the CMD [n]. *)
Definition allCarry (client : Z) (n : string) (ms : list (option Z * string)) : Prop :=
  Forall (fun m => fst m = Some client /\ cmdIs n (snd m) = true) ms.

(** The key of a member as the handlers read it. *)
Definition c_key (kv : string * JsonVariant) : string * JsonVariant :=
  (c_str (fst kv), snd kv).

(** The members of a request whose key, read as a C string, is a
    configuration parameter, each with that reading of its key. *)
Definition paramMembers (doc : JsonDocument) : list (string * JsonVariant) :=
  filter (fun kv => configIsParamKey (fst kv)) (map c_key (Json.members doc)).

(** A CMD that is no entry of the table as a JSON string and [move] as a C
    string. *)
Definition moveNulDoc : JsonDocument :=
  JObject [("CMD", JString ("move" +++ String Ascii.zero "zz"))].

(** Every message an action list sends goes to [client] alone and carries
    the CMD [name]. *)
Definition repliesWith (client : Z) (name : string) (acts : list Action) : Prop :=
  forall a, In a acts ->
    match a with
    | ClientText c text => c = client /\ cmdIs name text = true
    | TextAll _ => False
    | _ => True
    end.

Definition moveDoc : JsonDocument :=
  JObject [("CMD", JString "move"); ("x", JString "200"); ("y", JString "-300")].

Definition moveReply : string :=
  "{" +++ q "CMD" +++ ":" +++ q "move" +++ "," +++ q "status" +++ ":" +++ q "OK" +++ "}".

Definition unknownReply : string :=
  "{" +++ q "CMD" +++ ":" +++ q "error" +++ "," +++ q "msg" +++ ":"
  +++ q "unknown command" +++ "}".

Definition powerUp : State :=
  {| joyX := 0; joyY := 0; motorsReinit := false;
     lineBuf := repeat EmptyString DISPLAY_MAX_LINES |}.

Definition bench : Env :=
  {| configGet := fun _ => "0";
     efuseMac := 1; chipRevision := 3; chipCores := 1; cpuFreqMHz := 160;
     sdkVersion := "v4.4"; localIP := "192.168.4.1"; macAddress := "00:00:00:00:00:00";
     rssi := -40; uptimeMs := 5000; flashChipSize := 4194304;
     freeSketchSpace := 1048576; freeHeap := 204800;
     fsUsedBytes := 1024; fsTotalBytes := 1048576 |}.

(** A [displaymsg] document with [n] one-letter strings. *)
Definition displayDoc (n : nat) : JsonDocument :=
  JObject [("CMD", JString "displaymsg"); ("strings", JArray (repeat (JString "a") n))].

End Dispatch.

(** ** Outbound queue and periodic tick ([src/websocket.cpp]) *)

Module Tick.
Import Dispatch.

(** Modelled from the spec: the [FifoStringDyn] library, whose source is
    not part of the repository.  An ordered, growable sequence of pending
    text messages: push appends at the tail and may fail, leaving the
    contents as they were; pop removes from the head; the size is
    queryable.  [allocOk] tells whether the allocation of a push succeeds. *)
Module FifoStringDyn.

Definition t : Type := list string.

Definition push (allocOk : bool) (msg : string) (fifo : t) : bool * t :=
  if allocOk then (true, fifo ++ [msg]) else (false, fifo).

Definition pop (fifo : t) : option string * t :=
  match fifo with
  | [] => (None, [])
  | s :: r => (Some s, r)
  end.

Definition isEmpty (fifo : t) : bool :=
  match fifo with [] => true | _ => false end.

Definition size (fifo : t) : Z := Z.of_nat (List.length fifo).

End FifoStringDyn.

Section Server.

(** The web-socket library's client limit, a macro of the library. *)
Variable DEFAULT_MAX_WS_CLIENTS : nat.

(** [ws.hasClient(id)] on the ids of the connected clients. *)
Definition hasClient (clients : list Z) (idClient : Z) : bool :=
  existsb (Z.eqb idClient) clients.

(** [websocketAreClients()]: probes the ids below the library's limit. *)
Definition websocketAreClients (clients : list Z) : bool :=
  existsb (hasClient clients) (map Z.of_nat (seq 0 DEFAULT_MAX_WS_CLIENTS)).

(** [websocketAsyncMsg(msg)] on the queue [Fsd]. *)
Definition websocketAsyncMsg (clients : list Z) (allocOk : bool) (msg : string)
    (Fsd : FifoStringDyn.t) : bool * FifoStringDyn.t :=
  if websocketAreClients clients then FifoStringDyn.push allocOk msg Fsd
  else (false, Fsd).

(** [websocketSendAsyncMsg(AreClient)] *)
Definition websocketSendAsyncMsg (AreClient : bool) (Fsd : FifoStringDyn.t)
  : Z * FifoStringDyn.t * list Action :=
  if AreClient then
    if negb (FifoStringDyn.isEmpty Fsd) then
      match FifoStringDyn.pop Fsd with
      | (Some s, Fsd') => (FifoStringDyn.size Fsd', Fsd', [TextAll s])
      | (None, Fsd') => (FifoStringDyn.size Fsd', Fsd', [])
      end
    else (FifoStringDyn.size Fsd, Fsd, [])
  else (FifoStringDyn.size Fsd, Fsd, []).

(** [websocketTick()]; [clients] are the connections the server holds once
    [ws.cleanupClients()] has run. *)
Definition websocketTick (clients : list Z) (Fsd : FifoStringDyn.t) (st : State)
  : FifoStringDyn.t * State * list Action :=
  let AreClient := websocketAreClients clients in
  let '(_, Fsd1, a1) := websocketSendAsyncMsg AreClient Fsd in
  if negb AreClient then
    let '(st1, a2) := motorsApply 0 0 st in
    (Fsd1, st1, a1 ++ a2)
  else (Fsd1, st, a1).

End Server.

End Tick.

(** ** String padding helpers ([src/utility.cpp]) *)

Module Util.

(** Conversion to [int]. *)
Definition to_int32 (z : Z) : Z := (z + 2147483648) mod 4294967296 - 2147483648.

(** [s.length()] *)
Definition strlen (s : string) : Z := Z.of_nat (String.length s).

(** [n] times [result += padChar]. *)
Fixpoint pad (n : nat) (padChar : ascii) : string :=
  match n with
  | O => EmptyString
  | S k => String padChar (pad k padChar)
  end.

(** [padLeft(base, text, totalWidth, padChar)]; the lengths are unsigned,
    so the difference is formed modulo 2^32 and then read as an [int]. *)
Definition padLeft (base text : string) (totalWidth : Z) (padChar : ascii) : string :=
  let padCount := to_int32 (totalWidth - strlen base - strlen text) in
  if padCount <=? 0 then text
  else (base +++ pad (Z.to_nat padCount) padChar) +++ text.

(** [padRight(base, text, totalWidth, padChar)] *)
Definition padRight (base text : string) (totalWidth : Z) (padChar : ascii) : string :=
  let padCount := to_int32 (totalWidth - strlen base - strlen text) in
  if padCount <=? 0 then text
  else text +++ pad (Z.to_nat padCount) padChar.

(** [padCenter(text, totalWidth, padChar)]: [right] is computed but both
    loops run [left] times. *)
Definition padCenter (text : string) (totalWidth : Z) (padChar : ascii) : string :=
  let pad_ := to_int32 (totalWidth - strlen text) in
  if pad_ <=? 0 then text
  else
    let left := pad_ / 2 in
    let right := pad_ - left in
    (pad (Z.to_nat left) padChar +++ text) +++ pad (Z.to_nat left) padChar.

End Util.

(** ** Virtual function keys ([src/functionkeys.cpp]) *)

Module FnKeys.

Definition FN_MAX : nat := 8.

(** [fnExecutables] holds function pointers, here numbers naming the
    registered functions with [None] for NULL; [fnState] the on/off state
    of each key. *)
Record State := {
  fnExecutables : list (option nat);
  fnState : list bool
}.

Definition boot : State :=
  {| fnExecutables := repeat None FN_MAX; fnState := repeat false FN_MAX |}.

(** [a[i] = v] *)
Fixpoint assign {A} (i : nat) (v : A) (a : list A) : list A :=
  match a, i with
  | [], _ => []
  | _ :: r, O => v :: r
  | x :: r, S j => x :: assign j v r
  end.

(** [for (i = 0; i < FN_MAX; i++) fnState[i] = false] *)
Definition clearAll (s : list bool) : list bool :=
  fold_left (fun a i => assign i false a) (seq 0 FN_MAX) s.

Definition fnInit (st : State) : State :=
  {| fnExecutables := fnExecutables st; fnState := clearAll (fnState st) |}.

Definition fnRegister_fix (idx : Z) (func : option nat) (st : State) : State :=
  if idx <? Z.of_nat FN_MAX
  then {| fnExecutables := assign (Z.to_nat idx) func (fnExecutables st);
          fnState := fnState st |}
  else st.

(** The loop of [fnRegister] from index [i], with [fuel] indices left. *)
Fixpoint fnRegister_loop (fuel i : nat) (func : option nat) (table : list (option nat))
  : Z * list (option nat) :=
  match fuel with
  | O => (-1, table)
  | S k =>
      match nth i table None with
      | None => (Z.of_nat i, assign i func table)
      | Some _ => fnRegister_loop k (S i) func table
      end
  end.

Definition fnRegister (func : option nat) (st : State) : Z * State :=
  let '(r, table) := fnRegister_loop FN_MAX 0 func (fnExecutables st) in
  (r, {| fnExecutables := table; fnState := fnState st |}).

(** [fnSet(idx, on)] with FN_EXCLUSIVE defined. *)
Definition fnSet (idx : Z) (on : bool) (st : State) : State :=
  if idx >=? Z.of_nat FN_MAX then st
  else {| fnExecutables := fnExecutables st;
          fnState := assign (Z.to_nat idx) on (clearAll (fnState st)) |}.

(** [fnExecuteTick()]: the functions called, in order. *)
Definition fnExecuteTick (st : State) : list nat :=
  flat_map (fun i =>
              if nth i (fnState st) false
              then match nth i (fnExecutables st) None with
                   | Some f => [f]
                   | None => []
                   end
              else [])
           (seq 0 FN_MAX).

(** The [fnSet] calls among the actions of a handler, applied in order. *)
Fixpoint applyActions (acts : list Action) (st : State) : State :=
  match acts with
  | [] => st
  | FnSet idx on :: r => applyActions r (fnSet idx on st)
  | _ :: r => applyActions r st
  end.

(** A sequence of [fnSet] calls. *)
Fixpoint fnSets (calls : list (Z * bool)) (st : State) : State :=
  match calls with
  | [] => st
  | (idx, on) :: r => fnSets r (fnSet idx on st)
  end.

(** The state array in which only key [idx] may be on. *)
Definition only (idx : nat) (on : bool) : list bool :=
  map (fun i => Nat.eqb i idx && on) (seq 0 FN_MAX).

End FnKeys.

(** ** Periodic motor update ([src/motors.cpp]) *)

Module Motors.

(** [MotoCfg] of [include/config.h], as returned by [configGetMotoCfg()]. *)
Record MotoCfg := {
  maxVel : Z; deadzone : Z; expoPct : Z; SteerGain : Z; arcadeK : Z;
  arcadeEnabled : bool; invertA : bool; invertB : bool;
  tankInvThr : bool; tankInvStr : bool
}.

(** Calls into the [RoBoRa_8833] driver object [motors]. *)
Inductive DriverCall : Type :=
| Begin
| SetMaxVel (v : Z) | SetDeadzone (v : Z) | SetExpoPct (v : Z)
| SetSteerGainPct (v : Z) | SetArcadeLvl (v : Z)
| SetArcadeEn (b : bool) | SetInvertiA (b : bool) | SetInvertiB (b : bool)
| SetInvTankThr (b : bool) | SetInvTankStr (b : bool)
| CoastA | CoastB | PrintConfig
| Apply (a : Action).

(** The statics of [motors.cpp]: [joyX], [joyY] and [motorsReinit] are those
    of the handlers' state, with [lastMoveApplyMs] beside them. *)
Record State := {
  core : Dispatch.State;
  lastMoveApplyMs : Z
}.

Definition setJoy (x y : Z) (reinit : bool) (c : Dispatch.State) : Dispatch.State :=
  {| Dispatch.joyX := x; Dispatch.joyY := y; Dispatch.motorsReinit := reinit;
     Dispatch.lineBuf := Dispatch.lineBuf c |}.

(** [motorsInit()]; [beginOk] is what [motors.begin()] returns. *)
Definition motorsInit (cfg : MotoCfg) (beginOk : bool) (st : State)
  : State * list DriverCall :=
  let st1 := {| core := setJoy 0 0 false (core st);
                lastMoveApplyMs := lastMoveApplyMs st |} in
  if negb beginOk then (st1, [Begin])
  else (st1,
        [Begin;
         SetMaxVel (maxVel cfg); SetDeadzone (deadzone cfg); SetExpoPct (expoPct cfg);
         SetSteerGainPct (SteerGain cfg); SetArcadeLvl (arcadeK cfg);
         SetArcadeEn (arcadeEnabled cfg); SetInvertiA (invertA cfg);
         SetInvertiB (invertB cfg); SetInvTankThr (tankInvThr cfg);
         SetInvTankStr (tankInvStr cfg); CoastA; CoastB; PrintConfig]).

(** [motorsTick()] at time [now]. *)
Definition motorsTick (cfg : MotoCfg) (beginOk : bool) (now : Z) (st : State)
  : State * list DriverCall :=
  if Dispatch.motorsReinit (core st) then motorsInit cfg beginOk st
  else if wrap32 (now - lastMoveApplyMs st) >=? 100 then
    let '(c, acts) := Dispatch.motorsApply (Dispatch.joyY (core st))
                                           (Dispatch.joyX (core st)) (core st) in
    ({| core := c; lastMoveApplyMs := now |}, map Apply acts)
  else (st, []).

Definition motorsGetThrottle (st : State) : Z := Dispatch.joyY (core st).
Definition motorsGetSteer (st : State) : Z := Dispatch.joyX (core st).

(** The handlers' state after a handler has completed. *)
Definition after (o : Dispatch.Outcome) (dflt : Dispatch.State) : Dispatch.State :=
  match o with
  | Dispatch.Done c _ => c
  | Dispatch.OutOfBounds _ => dflt
  end.

Definition isDrive (k : DriverCall) : bool :=
  match k with Apply (DriveTank _ _) => true | _ => false end.

End Motors.

(** ** Display buffers ([src/display.cpp]) *)

Module Display.

Definition DISPLAY_WIDTH : Z := 128.
Definition DISPLAY_HEIGHT : Z := 64.
Definition DISPLAY_IMG_SIZE : Z := (DISPLAY_WIDTH * DISPLAY_HEIGHT) / 8.
Definition DISPLAY_BASE_CHAR_W : Z := 6.
Definition DISPLAY_BASE_CHAR_H : Z := 8.
Definition DISPLAY_MAX_LINES : nat := Dispatch.DISPLAY_MAX_LINES.
Definition DISPLAY_DEFAULT_TEXT_SIZE : Z := 1.

(** Conversion to [uint16_t]. *)
Definition to_uint16 (z : Z) : Z := z mod 65536.

Inductive Color : Type := BLACK | WHITE.

(** Calls into the [Adafruit_SH1106G] object [disPlay]. *)
Inductive Draw : Type :=
| ClearDisplay
| FillRect (x y w h : Z) (c : Color)
| SetTextColor (c : Color)
| SetTextSize (s : Z)
| SetCursor (x y : Z)
| Print (s : string)
| DrawBitmap (x y : Z) (bitmap : list byte) (w h : Z) (c : Color)
| Show.

(** [ImageParam]. *)
Record ImageParam := {
  dImgBuf : list byte;
  dExpectedSize : Z;
  dReceivedSize : Z
}.

(** [TextParam], the members the functions below read or write. *)
Record TextParam := {
  dLines : list string;
  dLinesCount : Z;
  dTextSize : Z;
  dAutoScrollOn : bool;
  dInv : bool;
  dTrunc : bool;
  dLoop : bool
}.

(** [DisplayParam], the members the functions below read or write. *)
Record DisplayParam := {
  dFindiIt : Z;
  dWidth : Z;
  dHeigth : Z;
  dImgSize : Z;
  dBaseCharW : Z;
  dBaseCharH : Z;
  dMaxLine : Z;
  iParam : ImageParam;
  tParam : TextParam
}.

Definition withI (i : ImageParam) (p : DisplayParam) : DisplayParam :=
  {| dFindiIt := dFindiIt p; dWidth := dWidth p; dHeigth := dHeigth p;
     dImgSize := dImgSize p; dBaseCharW := dBaseCharW p; dBaseCharH := dBaseCharH p;
     dMaxLine := dMaxLine p; iParam := i; tParam := tParam p |}.

Definition withT (t : TextParam) (p : DisplayParam) : DisplayParam :=
  {| dFindiIt := dFindiIt p; dWidth := dWidth p; dHeigth := dHeigth p;
     dImgSize := dImgSize p; dBaseCharW := dBaseCharW p; dBaseCharH := dBaseCharH p;
     dMaxLine := dMaxLine p; iParam := iParam p; tParam := t |}.

(** *** Arrays

    The arrays [dImgBuf] and [dLines] are lists; an access outside the
    list is an access outside the array, and the function that makes it
    yields [None]. *)

(** [memcpy(dst + at, src, n)] *)
Definition memcpy (dst : list byte) (at_ : Z) (src : list byte) (n : Z)
  : option (list byte) :=
  if (n <=? Z.of_nat (List.length src)) && (at_ + n <=? Z.of_nat (List.length dst)) then
    Some (firstn (Z.to_nat at_) dst ++ firstn (Z.to_nat n) src
          ++ skipn (Z.to_nat (at_ + n)) dst)
  else None.

(** [memset(dst, v, n)] *)
Definition memset (dst : list byte) (v : byte) (n : Z) : option (list byte) :=
  if n <=? Z.of_nat (List.length dst) then
    Some (repeat v (Z.to_nat n) ++ skipn (Z.to_nat n) dst)
  else None.

(** [lines[i] = s] *)
Definition storeLine (i : nat) (s : string) (lines : list string)
  : option (list string) :=
  if (i <? List.length lines)%nat then Some (Dispatch.store i s lines) else None.

(** *** Image *)

(** [displayDrawImageBuffer()] *)
Definition displayDrawImageBuffer (p : DisplayParam) : DisplayParam * list Draw :=
  let t := tParam p in
  (withT {| dLines := dLines t; dLinesCount := dLinesCount t; dTextSize := dTextSize t;
            dAutoScrollOn := false; dInv := dInv t; dTrunc := dTrunc t;
            dLoop := false |} p,
   [ClearDisplay;
    DrawBitmap 0 0 (dImgBuf (iParam p)) (dWidth p) (dHeigth p) WHITE;
    Show]).

(** [displayFinalizeImageUpload()] *)
Definition displayFinalizeImageUpload (p : DisplayParam) : DisplayParam * list Draw :=
  displayDrawImageBuffer p.

(** [displayImage(data, len)]; [data = None] is the null pointer. *)
Definition displayImage (data : option (list byte)) (len : Z) (p : DisplayParam)
  : option (DisplayParam * list Draw) :=
  match data with
  | None => Some (p, [])
  | Some d =>
      if negb (len =? dImgSize p) then Some (p, [])
      else
        match memcpy (dImgBuf (iParam p)) 0 d (dImgSize p) with
        | None => None
        | Some b =>
            Some (displayDrawImageBuffer
                    (withI {| dImgBuf := b;
                              dExpectedSize := dExpectedSize (iParam p);
                              dReceivedSize := dReceivedSize (iParam p) |} p))
        end
  end.

(** [displayStartImageUpload(totalSize)] *)
Definition displayStartImageUpload (totalSize : Z) (p : DisplayParam)
  : option DisplayParam :=
  match memset (dImgBuf (iParam p)) x00 (dImgSize p) with
  | None => None
  | Some b =>
      Some (withI {| dImgBuf := b;
                     dExpectedSize :=
                       if totalSize >? dImgSize p then dImgSize p else totalSize;
                     dReceivedSize := 0 |} p)
  end.

(** [displayAppendImageChunk(data, len, index, total)] *)
Definition displayAppendImageChunk (data : option (list byte)) (len index total : Z)
    (p : DisplayParam) : option DisplayParam :=
  match data with
  | None => Some p
  | Some d =>
      if (len =? 0) || (index >=? dImgSize p) then Some p
      else
        let canCopy :=
          if wrap32 (index + len) <=? dImgSize p then len
          else wrap32 (dImgSize p - index) in
        match memcpy (dImgBuf (iParam p)) index d canCopy with
        | None => None
        | Some b =>
            let endPos := wrap32 (index + canCopy) in
            Some (withI {| dImgBuf := b;
                           dExpectedSize := dExpectedSize (iParam p);
                           dReceivedSize :=
                             if endPos >? dReceivedSize (iParam p) then endPos
                             else dReceivedSize (iParam p) |} p)
        end
  end.

(** [displayLoadImageFromServer(filename, index, data, len, final)], with
    the value it returns. *)
Definition displayLoadImageFromServer (filename : string) (index : Z)
    (data : option (list byte)) (len : Z) (final : bool) (p : DisplayParam)
  : option (DisplayParam * bool * list Draw) :=
  if dFindiIt p =? 0 then Some (p, false, [])
  else
    match (if index =? 0 then displayStartImageUpload (dImgSize p) p else Some p) with
    | None => None
    | Some p1 =>
        match displayAppendImageChunk data len index (dImgSize p1) p1 with
        | None => None
        | Some p2 =>
            if final && (wrap32 (index + len) =? dImgSize p2) then
              let '(p3, d) := displayFinalizeImageUpload p2 in
              Some (p3, true, d)
            else Some (p2, false, [])
        end
    end.

(** [displayLoadImage(data, index, len)] *)
Definition displayLoadImage (data : option (list byte)) (index len : Z)
    (p : DisplayParam) : option (DisplayParam * bool * list Draw) :=
  displayLoadImageFromServer "FromFile" 0 data DISPLAY_IMG_SIZE true p.

(** *** Text lines *)

Definition setLines (l : list string) (count : Z) (t : TextParam) : TextParam :=
  {| dLines := l; dLinesCount := count; dTextSize := dTextSize t;
     dAutoScrollOn := dAutoScrollOn t; dInv := dInv t; dTrunc := dTrunc t;
     dLoop := dLoop t |}.

(** [displaySetTextSize(size)] *)
Definition displaySetTextSize (size : Z) (p : DisplayParam) : DisplayParam :=
  let t := tParam p in
  withT {| dLines := dLines t; dLinesCount := dLinesCount t;
           dTextSize := if to_uint8 size =? 0 then 1 else to_uint8 size;
           dAutoScrollOn := dAutoScrollOn t; dInv := dInv t; dTrunc := dTrunc t;
           dLoop := dLoop t |} p.

(** [displaySetLine(idx, text)] *)
Definition displaySetLine (idx : Z) (text : string) (p : DisplayParam)
  : option DisplayParam :=
  let idx := to_uint8 idx in
  let t := tParam p in
  if idx >=? dMaxLine p then Some p
  else
    match storeLine (Z.to_nat idx) text (dLines t) with
    | None => None
    | Some l =>
        Some (withT (setLines l (if idx + 1 >? dLinesCount t then to_uint8 (idx + 1)
                                 else dLinesCount t) t) p)
    end.

(** The loop [for (i = from; i < from + count; ++i) dLines[i] = arr[i]]. *)
Fixpoint copyLines (arr : list string) (from count : nat) (lines : list string)
  : option (list string) :=
  match count with
  | O => Some lines
  | S c =>
      match nth_error arr from with
      | None => None
      | Some s =>
          match storeLine from s lines with
          | None => None
          | Some l => copyLines arr (S from) c l
          end
      end
  end.

(** The loop [for (i = from; i < from + count; ++i) dLines[i] = ""]. *)
Fixpoint blankLines (from count : nat) (lines : list string) : option (list string) :=
  match count with
  | O => Some lines
  | S c =>
      match storeLine from EmptyString lines with
      | None => None
      | Some l => blankLines (S from) c l
      end
  end.

(** [displaySetLines(arr, n)]; [arr = None] is the null pointer. *)
Definition displaySetLines (arr : option (list string)) (n : Z) (p : DisplayParam)
  : option DisplayParam :=
  match arr with
  | None => Some p
  | Some a =>
      let m := if n >? dMaxLine p then dMaxLine p else n in
      match copyLines a 0 (Z.to_nat m) (dLines (tParam p)) with
      | None => None
      | Some l1 =>
          match blankLines (Z.to_nat m) (Z.to_nat (dMaxLine p - m)) l1 with
          | None => None
          | Some l2 => Some (withT (setLines l2 (to_uint8 m) (tParam p)) p)
          end
      end
  end.

(** [displayClearLines()] *)
Definition displayClearLines (p : DisplayParam) : option DisplayParam :=
  match blankLines 0 (Z.to_nat (dMaxLine p)) (dLines (tParam p)) with
  | None => None
  | Some l => Some (withT (setLines l 0 (tParam p)) p)
  end.

(** [displayGetMaxVisibleLines()] *)
Definition displayGetMaxVisibleLines (p : DisplayParam) : Z :=
  let lineH := to_uint16 (dBaseCharH p * dTextSize (tParam p)) in
  if lineH =? 0 then 1
  else
    let lines := to_uint8 (dHeigth p / lineH) in
    if lines =? 0 then 1 else lines.

(** [displayGetMaxColsPerLine()] *)
Definition displayGetMaxColsPerLine (p : DisplayParam) : Z :=
  let charW := to_uint16 (dBaseCharW p * dTextSize (tParam p)) in
  if charW =? 0 then 1
  else
    let cols := to_uint8 (dWidth p / charW) in
    if cols =? 0 then 1 else cols.

(** The loop of [displayRenderPage]: rows [i], [i + 1], ... while
    [i < vis], left at the first index that is not below [dLinesCount]. *)
Fixpoint renderRows (fuel : nat) (i vis cols stepY start : Z) (t : TextParam)
  : option (list Draw) :=
  match fuel with
  | O => Some []
  | S f =>
      if i <? vis then
        let idx := to_uint16 (start + i) in
        if idx >=? dLinesCount t then Some []
        else
          match nth_error (dLines t) (Z.to_nat idx) with
          | None => None
          | Some line =>
              let shown :=
                if dTrunc t && (Z.of_nat (String.length line) >? cols)
                then String.substring 0 (Z.to_nat cols) line
                else line in
              match renderRows f (to_uint8 (i + 1)) vis cols stepY start t with
              | None => None
              | Some rest =>
                  Some (SetCursor 0 (to_int16 (i * stepY)) :: Print shown :: rest)
              end
          end
      else Some []
  end.

(** [displayRenderPage(pageIndex)] *)
Definition displayRenderPage (pageIndex : Z) (p : DisplayParam) : option (list Draw) :=
  let t := tParam p in
  let vis := displayGetMaxVisibleLines p in
  let cols := displayGetMaxColsPerLine p in
  let stepY := dBaseCharH p * dTextSize t in
  let start := to_uint16 (to_uint8 pageIndex * vis) in
  match renderRows (Z.to_nat vis) 0 vis cols stepY start t with
  | None => None
  | Some rows =>
      Some ([ClearDisplay]
            ++ (if dInv t
                then [FillRect 0 0 (dWidth p) (dHeigth p) WHITE; SetTextColor BLACK]
                else [SetTextColor WHITE])
            ++ [SetTextSize (dTextSize t)]
            ++ rows ++ [Show])
  end.

(** [displayRenderTextLines(invert, truncate)] *)
Definition displayRenderTextLines (invert truncate : bool) (p : DisplayParam)
  : option (DisplayParam * list Draw) :=
  let t := tParam p in
  let p1 := withT {| dLines := dLines t; dLinesCount := dLinesCount t;
                     dTextSize := dTextSize t; dAutoScrollOn := dAutoScrollOn t;
                     dInv := invert; dTrunc := truncate; dLoop := dLoop t |} p in
  match displayRenderPage 0 p1 with
  | None => None
  | Some d => Some (p1, d)
  end.

(** The loop [for (i = from; i < from + count; i++) dLines[i] = dLines[i + 1]]. *)
Fixpoint shiftLines (from count : nat) (lines : list string) : option (list string) :=
  match count with
  | O => Some lines
  | S c =>
      match nth_error lines (S from) with
      | None => None
      | Some s =>
          match storeLine from s lines with
          | None => None
          | Some l => shiftLines (S from) c l
          end
      end
  end.

(** [displayPushLine(text)] *)
Definition displayPushLine (text : string) (p : DisplayParam)
  : option (DisplayParam * list Draw) :=
  let t := tParam p in
  match shiftLines 0 (DISPLAY_MAX_LINES - 1) (dLines t) with
  | None => None
  | Some l1 =>
      match storeLine (DISPLAY_MAX_LINES - 1) text l1 with
      | None => None
      | Some l2 =>
          let p1 := withT (setLines l2 (dLinesCount t) t) p in
          if negb (dAutoScrollOn t)
          then displayRenderTextLines (dInv t) (dTrunc t) p1
          else Some (p1, [])
      end
  end.

(** [displayStopAutoScroll()] *)
Definition displayStopAutoScroll (p : DisplayParam) : DisplayParam :=
  let t := tParam p in
  withT {| dLines := dLines t; dLinesCount := dLinesCount t; dTextSize := dTextSize t;
           dAutoScrollOn := false; dInv := dInv t; dTrunc := dTrunc t;
           dLoop := dLoop t |} p.

(** *** Vocabulary of the properties *)

(** Pushing the lines [ts] one after the other. *)
Fixpoint pushAll (ts : list string) (p : DisplayParam)
  : option (DisplayParam * list Draw) :=
  match ts with
  | [] => Some (p, [])
  | t :: r =>
      match displayPushLine t p with
      | None => None
      | Some (p1, d1) =>
          match pushAll r p1 with
          | None => None
          | Some (p2, d2) => Some (p2, d1 ++ d2)
          end
      end
  end.

(** The texts handed to [print]. *)
Fixpoint printed (ds : list Draw) : list string :=
  match ds with
  | [] => []
  | Print s :: r => s :: printed r
  | _ :: r => printed r
  end.

(** The values [displayBegin()] gives to the members above, on a display
    that answered ([dFindiIt = 1]). *)
Definition begun : DisplayParam :=
  {| dFindiIt := 1; dWidth := DISPLAY_WIDTH; dHeigth := DISPLAY_HEIGHT;
     dImgSize := DISPLAY_IMG_SIZE; dBaseCharW := DISPLAY_BASE_CHAR_W;
     dBaseCharH := DISPLAY_BASE_CHAR_H; dMaxLine := Z.of_nat DISPLAY_MAX_LINES;
     iParam := {| dImgBuf := repeat x00 (Z.to_nat DISPLAY_IMG_SIZE);
                  dExpectedSize := 0; dReceivedSize := 0 |};
     tParam := {| dLines := repeat EmptyString DISPLAY_MAX_LINES; dLinesCount := 0;
                  dTextSize := DISPLAY_DEFAULT_TEXT_SIZE; dAutoScrollOn := false;
                  dInv := false; dTrunc := true; dLoop := true |} |}.

End Display.

(** ** Further vocabulary for statements about the update endpoints, the
    accumulator pool, the dispatcher and the queue *)

Module Vocab.
Import Ota.

(** A progress broadcast. *)
Definition isProgress (a : Action) : bool :=
  match a with
  | TextAll s =>
      String.prefix ("{" +++ q "CMD" +++ ":" +++ q "ota" +++ "," +++
                     q "event" +++ ":" +++ q "progress") s
  | _ => false
  end.

(** A chunk that is not the first of its request. *)
Definition laterChunk (ev : Event) : bool :=
  match ev with
  | MultipartChunk _ _ index _ _ => negb (index =? 0)
  | MultipartDone _ => false
  | OctetChunk _ _ _ index _ => negb (index =? 0)
  end.

(** The partition [getTargetPartition] resolves for a request. *)
Definition resolved (fl : Flash) (req : Request) : option esp_partition_t :=
  if isFsTarget req then fsPartition fl else nextUpdatePartition fl.









(** The state in which the multipart set-up block leaves the statics,
    paired with whether the handler goes on. *)
Definition mpSetup_state (req : Request) (fl : Flash) (st : State) : State * bool :=
  match mpSetup req fl st with
  | Return s _ => (s, false)
  | Continue s _ => (s, true)
  end.

(** The elements of a JSON array that are strings, in order, each as
    the [String] constructor takes it. *)
Fixpoint strings (arr : list JsonVariant) : list string :=
  match arr with
  | [] => []
  | v :: r => match as_cstr v with
              | Some s => s :: strings r
              | None => strings r
              end
  end.

(** The text of a two-member reply object. *)
Definition pairReply (cmd k v : string) : string :=
  serializeJson (JObject [("CMD", JString cmd); (k, JString v)]).

(** The value [config_wr] stores for a member: its string up to the first
    NUL, or the empty string. *)
Definition writtenValue (v : JsonVariant) : string :=
  match as_cstr v with Some s => s | None => EmptyString end.

(** [n] consecutive calls of [websocketTick] while the same clients stay
    connected. *)
Fixpoint ticks (limit : nat) (clients : list Z) (n : nat)
    (Fsd : Tick.FifoStringDyn.t) (st : Dispatch.State)
  : Tick.FifoStringDyn.t * Dispatch.State * list Action :=
  match n with
  | O => (Fsd, st, [])
  | S k =>
      let '(F1, s1, a1) := Tick.websocketTick limit clients Fsd st in
      let '(F2, s2, a2) := ticks limit clients k F1 s1 in
      (F2, s2, a1 ++ a2)
  end.

(** Messages handed to [websocketAsyncMsg] one after the other, every
    allocation succeeding; the results are conjoined. *)
Fixpoint enqueueAll (limit : nat) (clients : list Z) (msgs : list string)
    (Fsd : Tick.FifoStringDyn.t) : bool * Tick.FifoStringDyn.t :=
  match msgs with
  | [] => (true, Fsd)
  | m :: r =>
      let '(ok, F1) := Tick.websocketAsyncMsg limit clients true m Fsd in
      let '(oks, F2) := enqueueAll limit clients r F1 in
      (ok && oks, F2)
  end.

End Vocab.

(** ** Properties of the update endpoints *)

Module OtaFacts.
Import Ota.

Lemma wrap32_small (z : Z) : 0 <= z < SIZE_MOD -> wrap32 z = z.
Proof. intros H. unfold wrap32. now apply Z.mod_small. Qed.

Lemma existsb_app_false {A} (f : A -> bool) (l1 l2 : list A) :
  existsb f l1 = false -> existsb f l2 = false -> existsb f (l1 ++ l2) = false.
Proof. intros H1 H2. rewrite existsb_app, H1, H2. reflexivity. Qed.

(** None of the broadcasts is a flash write or an abort. *)
Lemma broadcast_not_write fill : existsb isWrite (wsBroadcastOta fill) = false.
Proof. reflexivity. Qed.

Lemma broadcast_not_abort fill : existsb isAbort (wsBroadcastOta fill) = false.
Proof. reflexivity. Qed.

Lemma setMD5_not_write req : existsb isWrite (setMD5 req) = false.
Proof. unfold setMD5. destruct (hdrContentMD5 req); reflexivity. Qed.

Lemma reject_exceeds_mp :
  existsb isExceedsReject (wsOtaReject "Stream exceeds partition size") = true.
Proof. vm_compute. reflexivity. Qed.

Lemma reject_exceeds_oc :
  existsb isExceedsReject (wsOtaReject "Stream exceeds partition") = true.
Proof. vm_compute. reflexivity. Qed.

Lemma getTargetPartition_bounded B fl isFs out m ok part m' :
  partBounded B (fsPartition fl) -> partBounded B (nextUpdatePartition fl) ->
  0 <= m <= B ->
  getTargetPartition fl isFs out m = (ok, part, m') -> 0 <= m' <= B.
Proof.
  intros Hfs Hnx Hm. unfold getTargetPartition, getFsPartition.
  destruct isFs.
  - destruct (fsPartition fl); intros [= <- <- <-]; simpl in *; lia.
  - destruct (nextUpdatePartition fl); intros [= <- <- <-]; simpl in *; lia.
Qed.

Lemma writeChunk_written fl len total m st st' acts :
  writeChunk fl len total m st = (st', acts) ->
  written st' = wrap32 (written st + writeRet fl) /\
  mpBegan st' = mpBegan st /\ mpMaxSize st' = mpMaxSize st /\
  ocBegan st' = ocBegan st /\ ocMaxSize st' = ocMaxSize st /\
  existsb isWrite acts = true.
Proof.
  unfold writeChunk.
  destruct (wrap32 (millis fl - lastProgMs st) >=? 150);
    intros [= <- <-]; simpl; repeat split; reflexivity.
Qed.

Section Bounded.

Variable B : Z.
Variables (fl : Flash) (len : Z).
Hypothesis Hlen : 0 <= len.
Hypothesis Hfit : B + len < SIZE_MOD.
Hypothesis Hw : 0 <= writeRet fl <= len.
Hypothesis Hfs : partBounded B (fsPartition fl).
Hypothesis Hnx : partBounded B (nextUpdatePartition fl).

(** What the write block of the multipart handler does. *)
Lemma mpWrite_cases req s (HI : Inv B s) :
  match mpWrite req fl len s with
  | Return s' a =>
      mpBegan s = true /\ len > 0 /\ written s + len > mpMaxSize s /\ s' = s /\
      existsb isExceedsReject a = true /\ existsb isAbort a = true /\
      existsb isWrite a = false
  | Continue s' a =>
      Inv B s' /\ mpBegan s' = mpBegan s /\ mpMaxSize s' = mpMaxSize s /\
      ((mpBegan s = true /\ len > 0 /\ written s + len <= mpMaxSize s /\
        written s' = written s + writeRet fl /\ existsb isWrite a = true)
       \/ ((mpBegan s = false \/ len <= 0) /\ s' = s /\ a = []))
  end.
Proof.
  destruct HI as (Hwr & Hmp & Hoc).
  unfold mpWrite.
  destruct (mpBegan s) eqn:Eb; simpl.
  2:{ unfold Inv. repeat (split; [first [assumption | reflexivity | lia]|]). right. auto. }
  destruct (len >? 0) eqn:El.
  2:{ unfold Inv. repeat (split; [first [assumption | reflexivity | lia]|]). right.
      repeat split; auto. right. lia. }
  rewrite (wrap32_small (written s + len)) by lia.
  destruct (written s + len >? mpMaxSize s) eqn:Ec.
  - repeat split; auto; try lia;
      rewrite existsb_app; try reflexivity.
  - destruct (writeChunk fl len (contentLength req) (mpMaxSize s) s) as [s' a] eqn:Ew.
    apply writeChunk_written in Ew.
    destruct Ew as (W & B1 & M1 & B2 & M2 & Wr).
    rewrite wrap32_small in W by lia.
    unfold Inv. rewrite W, M1, M2, B1.
    repeat (split; [first [assumption | reflexivity | lia]|]).
    left. repeat split; auto; lia.
Qed.

(** What the write block of the octet-stream handler does. *)
Lemma ocWrite_cases total s (HI : Inv B s) :
  match ocWrite fl len total s with
  | Return s' a =>
      ocBegan s = true /\ len > 0 /\ written s + len > ocMaxSize s /\ s' = s /\
      existsb isExceedsReject a = true /\ existsb isAbort a = true /\
      existsb isWrite a = false
  | Continue s' a =>
      Inv B s' /\ ocBegan s' = ocBegan s /\ ocMaxSize s' = ocMaxSize s /\
      ((ocBegan s = true /\ len > 0 /\ written s + len <= ocMaxSize s /\
        written s' = written s + writeRet fl /\ existsb isWrite a = true)
       \/ ((ocBegan s = false \/ len <= 0) /\ s' = s /\ a = []))
  end.
Proof.
  destruct HI as (Hwr & Hmp & Hoc).
  unfold ocWrite.
  destruct (ocBegan s) eqn:Eb; simpl.
  2:{ unfold Inv. repeat (split; [first [assumption | reflexivity | lia]|]). right. auto. }
  destruct (len >? 0) eqn:El.
  2:{ unfold Inv. repeat (split; [first [assumption | reflexivity | lia]|]). right.
      repeat split; auto. right. lia. }
  rewrite (wrap32_small (written s + len)) by lia.
  destruct (written s + len >? ocMaxSize s) eqn:Ec.
  - repeat split; auto; try lia;
      rewrite existsb_app; try reflexivity.
  - destruct (writeChunk fl len total (ocMaxSize s) s) as [s' a] eqn:Ew.
    apply writeChunk_written in Ew.
    destruct Ew as (W & B1 & M1 & B2 & M2 & Wr).
    rewrite wrap32_small in W by lia.
    unfold Inv. rewrite W, M1, M2, B2.
    repeat (split; [first [assumption | reflexivity | lia]|]).
    left. repeat split; auto; lia.
Qed.

(** The set-up blocks keep sizes bounded and write nothing. *)
Lemma mpSetup_cases req s (HI : Inv B s) (HB : 0 <= B) :
  match mpSetup req fl s with
  | Return s' a => Inv B s' /\ existsb isWrite a = false
  | Continue s' a => Inv B s' /\ existsb isWrite a = false
  end.
Proof.
  destruct HI as (Hwr & Hmp & Hoc).
  unfold mpSetup.
  destruct (getTargetPartition fl (isFsTarget req) (mpPart s) (mpMaxSize s))
    as [[ok part] m] eqn:Eg.
  pose proof (getTargetPartition_bounded _ _ _ _ _ _ _ _ Hfs Hnx Hmp Eg) as Hm.
  destruct ok.
  - destruct (beginOk fl); unfold Inv; simpl; (split; [lia|]);
      rewrite !existsb_app, setMD5_not_write; reflexivity.
  - unfold Inv; simpl. split; [lia | reflexivity].
Qed.

Lemma ocSetup_cases req total s (HI : Inv B s) (HB : 0 <= B) :
  match ocSetup req fl total s with
  | Return s' a => Inv B s' /\ existsb isWrite a = false
  | Continue s' a => Inv B s' /\ existsb isWrite a = false
  end.
Proof.
  destruct HI as (Hwr & Hmp & Hoc).
  unfold ocSetup.
  destruct (getTargetPartition fl (isFsTarget req) (ocPart s) (ocMaxSize s))
    as [[ok part] m] eqn:Eg.
  pose proof (getTargetPartition_bounded _ _ _ _ _ _ _ _ Hfs Hnx Hoc Eg) as Hm.
  destruct ok.
  - destruct (negb (total =? 0) && (total >? m)).
    + unfold Inv; simpl. split; [lia | reflexivity].
    + destruct (beginOk fl); unfold Inv; simpl; (split; [lia|]);
        rewrite !existsb_app, setMD5_not_write; reflexivity.
  - unfold Inv; simpl. split; [lia | reflexivity].
Qed.

End Bounded.

Lemma mpFinish_cases req fl final s :
  let '(s', a) := mpFinish req fl final s in
  written s' = written s /\ mpMaxSize s' = mpMaxSize s /\
  ocMaxSize s' = ocMaxSize s /\
  existsb isWrite a = false /\ existsb isExceedsReject a = false /\
  existsb isAbort a = false.
Proof.
  unfold mpFinish. destruct (final && mpBegan s); simpl.
  - repeat split; try reflexivity;
      rewrite existsb_app; destruct (endOk fl); reflexivity.
  - repeat split; reflexivity.
Qed.

Lemma ocFinish_cases fl len index total s :
  let '(s', a) := ocFinish fl len index total s in
  written s' = written s /\ mpMaxSize s' = mpMaxSize s /\
  ocMaxSize s' = ocMaxSize s /\
  existsb isWrite a = false /\ existsb isExceedsReject a = false /\
  existsb isAbort a = false.
Proof.
  unfold ocFinish. destruct (ocBegan s && (wrap32 (index + len) =? total)); simpl.
  - destruct (endOk fl); repeat split; reflexivity.
  - repeat split; reflexivity.
Qed.

(** One chunk, from a state with bounded sizes. *)
Definition chunkOutcome (st0 : State) (ev : Event) : Prop :=
  let st := fst (step st0 ev) in
  let acts := snd (step st0 ev) in
  (existsb isWrite acts = true ->
   exists s, atWrite st0 ev = Some s /\ began s ev = true /\
             written s + chunkLen ev <= maxSize s ev /\
             maxSize st ev = maxSize s ev /\
             written st = written s + chunkWriteRet ev /\
             written st <= maxSize st ev) /\
  (forall s, atWrite st0 ev = Some s -> began s ev = true ->
             chunkLen ev > 0 -> written s + chunkLen ev > maxSize s ev ->
             existsb isExceedsReject acts = true /\
             existsb isAbort acts = true /\
             existsb isWrite acts = false /\
             written st = written s).

Lemma false_true_elim (P : Prop) : false = true -> P.
Proof. discriminate. Qed.

Lemma mp_chunk B req fl index len final st0 :
  0 <= B -> Inv B st0 -> bounded B (MultipartChunk req fl index len final) ->
  Inv B (fst (multipartUpload req fl index len final st0)) /\
  chunkOutcome st0 (MultipartChunk req fl index len final).
Proof.
  intros HB HI (Hlen & Hfit & Hw & Hfs & Hnx). simpl in Hlen, Hfit, Hw.
  unfold chunkOutcome, atWrite, mpAtWrite, step, multipartUpload, chunkWriteRet.
  simpl began. simpl maxSize. simpl chunkLen. simpl chunkFlash.
  assert (Hset : match (if index =? 0 then mpSetup req fl st0 else Continue st0 []) with
                 | Return s' a => Inv B s' /\ existsb isWrite a = false
                 | Continue s' a => Inv B s' /\ existsb isWrite a = false
                 end).
  { destruct (index =? 0).
    - apply mpSetup_cases; assumption.
    - split; [assumption | reflexivity]. }
  assert (Hat : forall s1 a1,
             (if index =? 0 then mpSetup req fl st0 else Continue st0 []) = Continue s1 a1 ->
             (if index =? 0
              then match mpSetup req fl st0 with
                   | Return _ _ => None
                   | Continue st1 _ => Some st1
                   end
              else Some st0) = Some s1).
  { intros s1 a1. destruct (index =? 0).
    - intros ->. reflexivity.
    - intros [= <- <-]. reflexivity. }
  destruct (if index =? 0 then mpSetup req fl st0 else Continue st0 [])
    as [s1 a1 | s1 a1] eqn:E1.
  - (* the set-up block returned *)
    destruct Hset as (HI1 & Hn1). simpl. split; [assumption|]. split.
    + rewrite Hn1. apply false_true_elim.
    + intros s Hs. exfalso. destruct (index =? 0); [|discriminate].
      rewrite E1 in Hs. discriminate.
  - destruct Hset as (HI1 & Hn1). rewrite (Hat _ _ eq_refl).
    pose proof (mpWrite_cases B fl len Hfit Hw req s1 HI1) as Hwc.
    destruct (mpWrite req fl len s1) as [s2 a2 | s2 a2].
    + (* rejected: stream exceeds the partition *)
      destruct Hwc as (Hb & Hl & Hex & -> & Hr & Ha & Hnw). simpl.
      split; [assumption|]. split.
      * rewrite existsb_app, Hn1, Hnw. apply false_true_elim.
      * intros s [= <-] _ _ _. rewrite !existsb_app, Hr, Ha, Hn1, Hnw.
        repeat split; auto using orb_true_r.
    + destruct Hwc as (HI2 & Hb2 & Hm2 & Hcase).
      pose proof (mpFinish_cases req fl final s2) as Hf.
      destruct (mpFinish req fl final s2) as [s3 a3].
      destruct Hf as (W3 & M3 & O3 & Hnw3 & Hnr3 & Hna3). simpl.
      split.
      { destruct HI2 as (? & ? & ?). unfold Inv. rewrite W3, M3, O3. auto. }
      destruct Hcase as [(Hb & Hl & Hle & W2 & Hwr) | (Hno & -> & ->)].
      * split.
        -- intros _. exists s1. rewrite M3, W3, Hm2, W2. repeat split; auto; lia.
        -- intros s [= <-] _ _ Hex. lia.
      * split.
        -- rewrite !existsb_app, Hn1, Hnw3. apply false_true_elim.
        -- intros s [= <-] Hb Hl Hex. exfalso.
           destruct Hno as [Hno | Hno]; [congruence | lia].
Qed.

Lemma oc_chunk B req fl len index total st0 :
  0 <= B -> Inv B st0 -> bounded B (OctetChunk req fl len index total) ->
  Inv B (fst (octetUpload req fl len index total st0)) /\
  chunkOutcome st0 (OctetChunk req fl len index total).
Proof.
  intros HB HI (Hlen & Hfit & Hw & Hfs & Hnx). simpl in Hlen, Hfit, Hw.
  unfold chunkOutcome, atWrite, ocAtWrite, step, octetUpload, chunkWriteRet.
  simpl began. simpl maxSize. simpl chunkLen. simpl chunkFlash.
  assert (Hset : match (if index =? 0 then ocSetup req fl total st0 else Continue st0 []) with
                 | Return s' a => Inv B s' /\ existsb isWrite a = false
                 | Continue s' a => Inv B s' /\ existsb isWrite a = false
                 end).
  { destruct (index =? 0).
    - apply ocSetup_cases; assumption.
    - split; [assumption | reflexivity]. }
  assert (Hat : forall s1 a1,
             (if index =? 0 then ocSetup req fl total st0 else Continue st0 []) = Continue s1 a1 ->
             (if index =? 0
              then match ocSetup req fl total st0 with
                   | Return _ _ => None
                   | Continue st1 _ => Some st1
                   end
              else Some st0) = Some s1).
  { intros s1 a1. destruct (index =? 0).
    - intros ->. reflexivity.
    - intros [= <- <-]. reflexivity. }
  destruct (if index =? 0 then ocSetup req fl total st0 else Continue st0 [])
    as [s1 a1 | s1 a1] eqn:E1.
  - destruct Hset as (HI1 & Hn1). simpl. split; [assumption|]. split.
    + rewrite Hn1. apply false_true_elim.
    + intros s Hs. exfalso. destruct (index =? 0); [|discriminate].
      rewrite E1 in Hs. discriminate.
  - destruct Hset as (HI1 & Hn1). rewrite (Hat _ _ eq_refl).
    pose proof (ocWrite_cases B fl len Hfit Hw total s1 HI1) as Hwc.
    destruct (ocWrite fl len total s1) as [s2 a2 | s2 a2].
    + destruct Hwc as (Hb & Hl & Hex & -> & Hr & Ha & Hnw). simpl.
      split; [assumption|]. split.
      * rewrite existsb_app, Hn1, Hnw. apply false_true_elim.
      * intros s [= <-] _ _ _. rewrite !existsb_app, Hr, Ha, Hn1, Hnw.
        repeat split; auto using orb_true_r.
    + destruct Hwc as (HI2 & Hb2 & Hm2 & Hcase).
      pose proof (ocFinish_cases fl len index total s2) as Hf.
      destruct (ocFinish fl len index total s2) as [s3 a3].
      destruct Hf as (W3 & M3 & O3 & Hnw3 & Hnr3 & Hna3). simpl.
      split.
      { destruct HI2 as (? & ? & ?). unfold Inv. rewrite W3, M3, O3. auto. }
      destruct Hcase as [(Hb & Hl & Hle & W2 & Hwr) | (Hno & -> & ->)].
      * split.
        -- intros _. exists s1. rewrite O3, W3, Hm2, W2. repeat split; auto; lia.
        -- intros s [= <-] _ _ Hex. lia.
      * split.
        -- rewrite !existsb_app, Hn1, Hnw3. apply false_true_elim.
        -- intros s [= <-] Hb Hl Hex. exfalso.
           destruct Hno as [Hno | Hno]; [congruence | lia].
Qed.

Lemma step_chunk B st0 ev :
  0 <= B -> Inv B st0 -> bounded B ev ->
  Inv B (fst (step st0 ev)) /\ chunkOutcome st0 ev.
Proof.
  intros HB HI Hb. destruct ev as [req fl index len final | hasError | req fl len index total].
  - apply (mp_chunk B); assumption.
  - split; [exact HI|]. unfold chunkOutcome. simpl. split.
    + unfold multipartDone. destruct hasError; simpl; apply false_true_elim.
    + intros s [=].
  - apply (oc_chunk B); assumption.
Qed.

Lemma run_Inv B evs : forall st0,
  0 <= B -> Inv B st0 -> Forall (bounded B) evs -> Inv B (fst (run st0 evs)).
Proof.
  induction evs as [|ev evs IH]; intros st0 HB HI HF; simpl.
  - exact HI.
  - inversion HF as [|? ? Hev Hevs]; subst.
    pose proof (step_chunk B st0 ev HB HI Hev) as [HI1 _].
    destruct (step st0 ev) as [st1 a1]. simpl in HI1.
    specialize (IH st1 HB HI1 Hevs).
    destruct (run st1 evs) as [st2 a2]. exact IH.
Qed.

Lemma init_Inv B : 0 <= B -> Inv B init.
Proof. intros HB. unfold Inv, init; simpl. lia. Qed.

















End OtaFacts.

(** ** Properties of the accumulator pool *)

Module AccFacts.
Import Acc.

Lemma update_length i f pool : List.length (update i f pool) = List.length pool.
Proof.
  revert i. induction pool as [|a r IH]; intros [|j]; simpl; auto.
Qed.

Lemma slot_update_eq i f pool :
  (i < List.length pool)%nat -> slot (update i f pool) i = f (slot pool i).
Proof.
  unfold slot. revert i. induction pool as [|a r IH]; intros [|j] H; simpl in *;
    try lia; auto. apply IH. lia.
Qed.

Lemma slot_update_ne i j f pool :
  i <> j -> slot (update i f pool) j = slot pool j.
Proof.
  unfold slot. revert i j. induction pool as [|a r IH]; intros [|i] [|j] H; simpl;
    auto; try congruence.
Qed.

Lemma In_update i f pool a :
  In a (update i f pool) -> In a pool \/ a = f (slot pool i).
Proof.
  unfold slot. revert i. induction pool as [|b r IH]; intros [|j]; simpl; auto.
  - intros [<- | H]; auto.
  - intros [<- | H]; auto. destruct (IH _ H); auto.
Qed.

Lemma In_slot pool i : (i < List.length pool)%nat -> In (slot pool i) pool.
Proof. intros H. unfold slot. now apply nth_In. Qed.

Lemma findAcc_Some pool c i :
  findAcc pool c = Some i ->
  (i < List.length pool)%nat /\ inUse (slot pool i) = true /\ id (slot pool i) = c.
Proof.
  unfold slot. revert i. induction pool as [|a r IH]; intros i; simpl; [discriminate|].
  destruct (inUse a && (id a =? c)) eqn:E.
  - intros [= <-]. apply andb_true_iff in E as [E1 E2].
    apply Z.eqb_eq in E2. simpl. repeat split; auto; lia.
  - destruct (findAcc r c) as [j|]; simpl; [|discriminate].
    intros [= <-]. destruct (IH j eq_refl) as (H1 & H2 & H3).
    simpl. repeat split; auto; lia.
Qed.

Lemma findAcc_None pool c : findAcc pool c = None -> ~ In c (inUseIds pool).
Proof.
  unfold inUseIds. induction pool as [|a r IH]; simpl; [tauto|].
  destruct (inUse a) eqn:Eu; simpl.
  - destruct (id a =? c) eqn:Ec; [discriminate|].
    destruct (findAcc r c); simpl; [discriminate|]. intros _ [H | H].
    + apply Z.eqb_neq in Ec. contradiction.
    + now apply IH.
  - destruct (findAcc r c); simpl; [discriminate|]. auto.
Qed.

Lemma findFree_Some pool j :
  findFree pool = Some j ->
  (j < List.length pool)%nat /\ inUse (slot pool j) = false.
Proof.
  unfold slot. revert j. induction pool as [|a r IH]; intros j; simpl; [discriminate|].
  destruct (inUse a) eqn:E; simpl.
  - destruct (findFree r) as [k|]; simpl; [|discriminate].
    intros [= <-]. destruct (IH k eq_refl). simpl. split; auto; lia.
  - intros [= <-]. simpl. split; auto; lia.
Qed.

Lemma findFree_None pool :
  findFree pool = None -> List.length (inUseIds pool) = List.length pool.
Proof.
  unfold inUseIds. induction pool as [|a r IH]; simpl; auto.
  destruct (inUse a); simpl.
  - destruct (findFree r); simpl; [discriminate|]. intros _. now rewrite IH.
  - discriminate.
Qed.

Lemma findAcc_shape p p' c : shape p = shape p' -> findAcc p c = findAcc p' c.
Proof.
  unfold shape. revert p'. induction p as [|a r IH]; intros [|a' r']; simpl;
    try discriminate; auto.
  intros [= H1 H2 H3]. rewrite H1, H2, (IH _ H3). reflexivity.
Qed.

Lemma inUseIds_shape p p' : shape p = shape p' -> inUseIds p = inUseIds p'.
Proof.
  unfold shape, inUseIds. revert p'. induction p as [|a r IH]; intros [|a' r']; simpl;
    try discriminate; auto.
  intros [= H1 H2 H3]. rewrite H1. destruct (inUse a'); simpl;
    rewrite ?H2, (IH _ H3); reflexivity.
Qed.

Lemma shape_update i f pool :
  inUse (f (slot pool i)) = inUse (slot pool i) ->
  id (f (slot pool i)) = id (slot pool i) ->
  shape (update i f pool) = shape pool.
Proof.
  unfold shape, slot. revert i. induction pool as [|a r IH]; intros [|j]; simpl; auto.
  - intros -> ->. reflexivity.
  - intros H1 H2. now rewrite IH.
Qed.

(** Binding a free slot to an unbound connection. *)
Lemma findAcc_bind pool c j :
  findAcc pool c = None -> findFree pool = Some j ->
  findAcc (update j (fun _ => bind c) pool) c = Some j.
Proof.
  revert j. induction pool as [|a r IH]; intros j; simpl; [discriminate|].
  destruct (inUse a) eqn:Eu; simpl.
  - destruct (id a =? c) eqn:Ec; [discriminate|].
    destruct (findAcc r c) eqn:Ef; simpl; [discriminate|]. intros _.
    destruct (findFree r) as [k|] eqn:Efr; simpl; [|discriminate].
    intros [= <-]. simpl. rewrite Eu, Ec. simpl. now rewrite (IH k eq_refl eq_refl).
  - intros _ [= <-]. simpl. now rewrite Z.eqb_refl.
Qed.

Lemma findAcc_bind_other pool c c' j :
  c' <> c -> findFree pool = Some j ->
  findAcc (update j (fun _ => bind c) pool) c' = findAcc pool c'.
Proof.
  intros Hne. revert j. induction pool as [|a r IH]; intros j; simpl; [discriminate|].
  destruct (inUse a) eqn:Eu; simpl.
  - destruct (findFree r) as [k|] eqn:Efr; simpl; [|discriminate].
    intros [= <-]. simpl. rewrite Eu. simpl. now rewrite (IH k eq_refl).
  - intros [= <-]. simpl.
    assert (E : (c =? c') = false) by (apply Z.eqb_neq; congruence).
    now rewrite E.
Qed.

Lemma inUseIds_bind pool c j :
  findFree pool = Some j ->
  incl (inUseIds (update j (fun _ => bind c) pool)) (c :: inUseIds pool) /\
  (~ In c (inUseIds pool) -> NoDup (inUseIds pool) ->
   NoDup (inUseIds (update j (fun _ => bind c) pool))).
Proof.
  unfold inUseIds. revert j. induction pool as [|a r IH]; intros j; simpl; [discriminate|].
  destruct (inUse a) eqn:Eu; simpl.
  - destruct (findFree r) as [k|] eqn:Efr; simpl; [|discriminate].
    intros [= <-]. simpl. rewrite Eu. simpl.
    destruct (IH k eq_refl) as [Hi Hn]. split.
    + intros x [<- | Hx]; [right; left; reflexivity|].
      destruct (Hi x Hx) as [<- | H]; [left | right; right]; auto.
    + intros Hc Hnd. inversion Hnd as [|? ? Hna Hnr]; subst.
      constructor.
      * intros Hin. destruct (Hi _ Hin) as [E | H]; [|contradiction].
        apply Hc. left. symmetry. exact E.
      * apply Hn; auto.
  - intros [= <-]. simpl. split.
    + apply incl_refl.
    + intros Hc Hnd. constructor; assumption.
Qed.

Lemma view_slot pool c i : findAcc pool c = Some i -> view pool c = slot pool i.
Proof. unfold view. now intros ->. Qed.

(** What [WsGetAcc] returns when it does not return null. *)
Lemma WsGetAcc_Some pool c i pool1 :
  WsGetAcc pool c = Some (i, pool1) ->
  (i < List.length pool1)%nat /\
  List.length pool1 = List.length pool /\
  findAcc pool1 c = Some i /\
  slot pool1 i = view pool c /\
  (forall c', c' <> c -> view pool1 c' = view pool c') /\
  incl (inUseIds pool1) (c :: inUseIds pool) /\
  (NoDup (inUseIds pool) -> NoDup (inUseIds pool1)) /\
  (forall a, In a pool1 -> In a pool \/ a = bind c).
Proof.
  unfold WsGetAcc. destruct (findAcc pool c) as [k|] eqn:Ef.
  - intros [= <- <-]. destruct (findAcc_Some _ _ _ Ef) as (H1 & H2 & H3).
    repeat split; auto.
    + symmetry. now apply view_slot.
    + apply incl_tl, incl_refl.
  - destruct (findFree pool) as [j|] eqn:Efr; [|discriminate].
    intros [= <- <-]. destruct (findFree_Some _ _ Efr) as (Hj & Hfree).
    destruct (inUseIds_bind pool c j Efr) as [Hincl Hnd].
    rewrite update_length. repeat split; auto.
    + now apply findAcc_bind.
    + rewrite slot_update_eq by assumption. unfold view. now rewrite Ef.
    + intros c' Hne. unfold view.
      rewrite (findAcc_bind_other pool c c' j Hne Efr).
      destruct (findAcc pool c') as [k|] eqn:Ek; [|reflexivity].
      apply slot_update_ne. intros ->.
      destruct (findAcc_Some _ _ _ Ek) as (_ & Hu & _). congruence.
    + intros Hn. apply Hnd; [now apply findAcc_None | exact Hn].
    + intros a Ha. destruct (In_update _ _ _ _ Ha); auto.
Qed.

(** With fewer bound connections than slots, [WsGetAcc] does not return
    null. *)
Lemma WsGetAcc_available pool c ids :
  NoDup (inUseIds pool) -> incl (inUseIds pool) ids -> In c ids ->
  NoDup ids -> (List.length ids <= List.length pool)%nat ->
  WsGetAcc pool c <> None.
Proof.
  intros Hnd Hincl Hc Hids Hlen. unfold WsGetAcc.
  destruct (findAcc pool c) eqn:Ef; [discriminate|].
  destruct (findFree pool) eqn:Efr; [discriminate|]. exfalso.
  apply findFree_None in Efr. apply findAcc_None in Ef.
  assert (Hnd' : NoDup (c :: inUseIds pool)) by (constructor; assumption).
  assert (Hincl' : incl (c :: inUseIds pool) ids).
  { intros x [<- | Hx]; auto. }
  pose proof (NoDup_incl_length Hnd' Hincl') as Hl. simpl in Hl. lia.
Qed.

Lemma onData_keeps c info data a :
  id (fst (onData c info data a)) = id a /\
  inUse (fst (onData c info data a)) = inUse a /\
  Forall (fun k => callClient k = c) (snd (onData c info data a)).
Proof.
  unfold onData. destruct (index info =? 0); cbn [expectedLen].
  - destruct (wrap32 (len info) >? WS_MAX_PAYLOAD); simpl.
    + repeat split; auto.
    + destruct (final info); simpl; repeat split; auto.
      repeat constructor.
      destruct (opcode info =? WS_TEXT); [reflexivity|].
      destruct (opcode info =? WS_BINARY); reflexivity.
  - destruct (final info); simpl; repeat split; auto.
    repeat constructor.
    destruct (firstOpcode a =? WS_TEXT); [reflexivity|].
    destruct (firstOpcode a =? WS_BINARY); reflexivity.
Qed.

Lemma callsFor_all c calls :
  Forall (fun k => callClient k = c) calls -> callsFor c calls = calls.
Proof.
  unfold callsFor. induction 1 as [|k r Hk _ IH]; simpl; auto.
  rewrite Hk, Z.eqb_refl, IH. reflexivity.
Qed.

Lemma callsFor_none c c' calls :
  c' <> c -> Forall (fun k => callClient k = c') calls -> callsFor c calls = [].
Proof.
  intros Hne. unfold callsFor. induction 1 as [|k r Hk _ IH]; simpl; auto.
  rewrite Hk. assert (E : (c' =? c) = false) by now apply Z.eqb_neq.
  now rewrite E.
Qed.

Lemma callsFor_app c l1 l2 : callsFor c (l1 ++ l2) = callsFor c l1 ++ callsFor c l2.
Proof. unfold callsFor. apply filter_app. Qed.

(** One data frame of connection [c']: its own accumulator advances by
    [onData], every other connection's is untouched. *)
Lemma data_step pool c' info data i pool1 :
  WsGetAcc pool c' = Some (i, pool1) ->
  let a' := fst (onData c' info data (view pool c')) in
  let pool2 := update i (fun _ => a') pool1 in
  onWsEvent pool (EvData c' info data) = (pool2, snd (onData c' info data (view pool c'))) /\
  view pool2 c' = a' /\
  (forall c, c <> c' -> view pool2 c = view pool c) /\
  inUseIds pool2 = inUseIds pool1 /\
  List.length pool2 = List.length pool.
Proof.
  intros Hg. destruct (WsGetAcc_Some _ _ _ _ Hg) as (Hi & Hlen & Hf & Hs & Hother & _).
  intros a' pool2. unfold onWsEvent. rewrite Hg, Hs.
  destruct (onData c' info data (view pool c')) as [a calls] eqn:Eo.
  simpl in a'. subst a'.
  pose proof (onData_keeps c' info data (view pool c')) as (Kid & Kuse & _).
  rewrite Eo in Kid, Kuse. simpl in Kid, Kuse.
  assert (Hshape : shape pool2 = shape pool1).
  { apply shape_update; rewrite Hs; assumption. }
  split; [reflexivity|]. split.
  - unfold view. rewrite (findAcc_shape _ _ c' Hshape), Hf.
    unfold pool2. now rewrite slot_update_eq.
  - split; [|split].
    + intros c Hne. rewrite <- (Hother c Hne). unfold view.
      rewrite (findAcc_shape _ _ c Hshape).
      destruct (findAcc pool1 c) as [k|] eqn:Ek; [|reflexivity].
      unfold pool2. apply slot_update_ne. intros ->.
      destruct (findAcc_Some _ _ _ Ek) as (_ & _ & Hk).
      destruct (findAcc_Some _ _ _ Hf) as (_ & _ & Hk'). congruence.
    + now apply inUseIds_shape.
    + unfold pool2. now rewrite update_length.
Qed.

(** Frames of several connections, no more of them than slots: what the
    pool calls for one connection is what a private accumulator calls on
    that connection's frames alone. *)
Lemma run_projection ids (Hids : NoDup ids) : forall fs pool,
  NoDup (inUseIds pool) -> incl (inUseIds pool) ids ->
  (List.length ids <= List.length pool)%nat ->
  Forall (fun cf => In (fst cf) ids) fs ->
  forall c, callsFor c (snd (run pool (dataEvents fs)))
            = snd (runAcc c (view pool c) (framesOf c fs)).
Proof.
  induction fs as [|[c' [info data]] r IH]; intros pool Hnd Hincl Hlen Hall c.
  - reflexivity.
  - inversion Hall as [|? ? Hc' Hr]; subst. simpl in Hc'.
    destruct (WsGetAcc pool c') as [[i pool1]|] eqn:Hg.
    2:{ exfalso. revert Hg. now apply (WsGetAcc_available pool c' ids). }
    destruct (data_step pool c' info data i pool1 Hg) as (Hstep & Hv & Hother & Hids2 & Hlen2).
    destruct (WsGetAcc_Some _ _ _ _ Hg) as (_ & _ & _ & _ & _ & Hincl1 & Hnd1 & _).
    set (pool2 := update i (fun _ => fst (onData c' info data (view pool c'))) pool1) in *.
    assert (IH' := IH pool2).
    rewrite Hids2 in IH'. specialize (IH' (Hnd1 Hnd)).
    assert (Hincl2 : incl (inUseIds pool1) ids).
    { intros x Hx. destruct (Hincl1 x Hx) as [<- | Hx']; auto. }
    specialize (IH' Hincl2). rewrite Hlen2 in IH'. specialize (IH' Hlen Hr c).
    change (dataEvents ((c', (info, data)) :: r))
      with (EvData c' info data :: dataEvents r).
    cbn [run]. rewrite Hstep.
    destruct (run pool2 (dataEvents r)) as [pool3 c2]. cbn [snd] in IH' |- *.
    rewrite callsFor_app, IH'.
    pose proof (onData_keeps c' info data (view pool c')) as (_ & _ & Hcl).
    unfold framesOf. cbn [filter fst]. destruct (c' =? c) eqn:E.
    + apply Z.eqb_eq in E. subst c'. cbn [map snd runAcc].
      rewrite Hv. rewrite callsFor_all by assumption.
      destruct (onData c info data (view pool c)) as [a1 c1]. cbn [fst snd].
      fold (framesOf c r).
      destruct (runAcc c a1 (framesOf c r)) as [a2 c2']. reflexivity.
    + apply Z.eqb_neq in E. rewrite (callsFor_none c c') by assumption.
      rewrite (Hother c) by congruence. reflexivity.
Qed.

Lemma firstn_terminator (b : list byte) :
  firstn (List.length (b ++ [x00]) - 1) (b ++ [x00]) = b.
Proof.
  rewrite length_app. simpl.
  replace (List.length b + 1 - 1)%nat with (List.length b + 0)%nat by lia.
  rewrite firstn_app_2. simpl. apply app_nil_r.
Qed.

Lemma runAcc_continuation c : forall fs a,
  continuation fs ->
  runAcc c a fs = (WsResetAcc a, [completion c (firstOpcode a) (buf a ++ payloads fs)]).
Proof.
  induction fs as [|[info data] r IH]; intros a Hc; [destruct Hc|].
  cbn [runAcc]. unfold onData.
  destruct r as [|f r'].
  - destruct Hc as [Hi Hf]. apply Z.eqb_neq in Hi. rewrite Hi, Hf. cbn.
    unfold completion, payloads. cbn. rewrite app_nil_r.
    rewrite firstn_terminator. reflexivity.
  - destruct Hc as (Hi & Hf & Hr). apply Z.eqb_neq in Hi. rewrite Hi, Hf.
    cbn [negb]. cbv iota.
    rewrite (IH _ Hr). cbn [firstOpcode buf app].
    unfold payloads. cbn [map List.concat snd]. rewrite <- app_assoc. reflexivity.
Qed.

Lemma forwarded_completion c op info data r :
  op = WS_TEXT \/ op = WS_BINARY -> opcode info = op ->
  forwarded c ((info, data) :: r) = completion c op (payloads ((info, data) :: r)).
Proof.
  intros Hop Ho. unfold forwarded, completion. rewrite Ho.
  destruct Hop as [-> | ->]; reflexivity.
Qed.

Lemma runAcc_message c op fs a :
  op = WS_TEXT \/ op = WS_BINARY -> message op fs ->
  runAcc c a fs = (WsResetAcc a, [forwarded c fs]).
Proof.
  intros Hop Hm. destruct fs as [|[info data] r]; [destruct Hm|].
  destruct Hm as (Hi & Ho & Hl & Hrest).
  rewrite (forwarded_completion c op info data r Hop Ho).
  cbn [runAcc]. unfold onData. rewrite Hi. cbn [Z.eqb expectedLen].
  assert (El : (wrap32 (len info) >? WS_MAX_PAYLOAD) = false).
  { destruct (wrap32 (len info) >? WS_MAX_PAYLOAD) eqn:E; [|reflexivity].
    apply Z.gtb_lt in E. lia. }
  rewrite El. cbn [id inUse firstOpcode expectedLen buf app].
  destruct r as [|f r'].
  - rewrite Hrest. cbn [negb]. cbv iota. cbn [firstOpcode buf].
    unfold completion, payloads. cbn [map List.concat snd]. rewrite app_nil_r, Ho.
    rewrite firstn_terminator. reflexivity.
  - destruct Hrest as [Hf Hr]. rewrite Hf. cbn [negb]. cbv iota.
    rewrite (runAcc_continuation c _ _ Hr). cbn [firstOpcode buf].
    rewrite Ho. unfold payloads. cbn [map List.concat snd]. reflexivity.
Qed.

Lemma runAcc_app c : forall l1 l2 a,
  runAcc c a (l1 ++ l2)
  = (fst (runAcc c (fst (runAcc c a l1)) l2),
     snd (runAcc c a l1) ++ snd (runAcc c (fst (runAcc c a l1)) l2)).
Proof.
  induction l1 as [|[info data] r IH]; intros l2 a; cbn [app runAcc].
  - cbn [fst snd app]. destruct (runAcc c a l2); reflexivity.
  - destruct (onData c info data a) as [a1 c1]. rewrite IH.
    destruct (runAcc c a1 r) as [a2 c2]. cbn [fst snd].
    destruct (runAcc c a2 l2) as [a3 c3]. cbn [fst snd].
    now rewrite app_assoc.
Qed.

Lemma runAcc_messages c : forall msgs a,
  Forall textOrBinary msgs ->
  snd (runAcc c a (List.concat msgs)) = map (forwarded c) msgs.
Proof.
  induction msgs as [|m r IH]; intros a H; [reflexivity|].
  inversion H as [|? ? Hm Hr]; subst. cbn [List.concat map].
  rewrite runAcc_app. cbn [snd].
  assert (E : runAcc c a m = (WsResetAcc a, [forwarded c m])).
  { destruct Hm as [Hm | Hm].
    - apply (runAcc_message c WS_TEXT); [left; reflexivity | exact Hm].
    - apply (runAcc_message c WS_BINARY); [right; reflexivity | exact Hm]. }
  rewrite E. cbn [fst snd]. rewrite IH by assumption. reflexivity.
Qed.

(** C4.  Frames of at most WS_MAX_CLIENTS distinct connections, interleaved
    in any order and fed to the empty pool: for each connection the pool
    makes exactly the calls a private accumulator would make on that
    connection's frames alone, so no connection's buffer is touched by
    another's frames; and when those frames form a sequence of complete
    text or binary messages, each message is forwarded once, in order, with
    the concatenation of its frame payloads in arrival order. *)
Theorem interleaved_messages_reassembled (fs : list (Z * Frame)) (c : Z) :
  (List.length (nodup Z.eq_dec (map fst fs)) <= WS_MAX_CLIENTS)%nat ->
  callsFor c (snd (run s_acc (dataEvents fs)))
  = snd (runAcc c (bind c) (framesOf c fs))
  /\ forall msgs : list (list Frame),
       framesOf c fs = List.concat msgs -> Forall textOrBinary msgs ->
       callsFor c (snd (run s_acc (dataEvents fs))) = map (forwarded c) msgs.
Proof.
  intros Hn.
  assert (Hp : callsFor c (snd (run s_acc (dataEvents fs)))
               = snd (runAcc c (bind c) (framesOf c fs))).
  { change (bind c) with (view s_acc c).
    apply (run_projection (nodup Z.eq_dec (map fst fs))).
    - apply NoDup_nodup.
    - constructor.
    - intros x [].
    - exact Hn.
    - apply Forall_forall. intros cf Hcf. apply nodup_In. now apply in_map. }
  split; [exact Hp|].
  intros msgs Hfs Hm. rewrite Hp, Hfs. now apply runAcc_messages.
Qed.

(** The two-connection scenario: connection 1 gets its own six bytes. *)
Lemma interleaved_messages_reassembled_witness :
  callsFor 1 (snd (run s_acc (dataEvents interleaved)))
  = [CallHandleWsMessage 1 [x61; x62; x63; x64; x65; x66]].
Proof.
  assert (Hn : (List.length (nodup Z.eq_dec (map fst interleaved)) <= WS_MAX_CLIENTS)%nat).
  { vm_compute. repeat constructor. }
  destruct (interleaved_messages_reassembled interleaved 1 Hn) as [_ H].
  apply (H [[frame 0 WS_TEXT false 6 [x61; x62];
             frame 2 WS_CONTINUATION false 6 [x63; x64];
             frame 4 WS_CONTINUATION true 6 [x65; x66]]]).
  - reflexivity.
  - constructor; [|constructor]. left.
    unfold message, frame, continuation, WS_MAX_PAYLOAD, WS_TEXT, WS_CONTINUATION.
    cbn [index len opcode final].
    repeat split; try reflexivity; try (vm_compute; discriminate).
Defined.

Lemma In_inUseIds pool a : In a pool -> inUse a = true -> In (id a) (inUseIds pool).
Proof.
  intros Ha Hu. unfold inUseIds. apply in_map. apply filter_In. auto.
Qed.

Lemma inUseIds_release_incl pool c :
  incl (inUseIds (WsReleaseAcc pool c)) (inUseIds pool).
Proof.
  unfold inUseIds. induction pool as [|a r IH]; simpl; [apply incl_refl|].
  destruct (inUse a) eqn:Eu; simpl.
  - destruct (id a =? c); simpl.
    + apply incl_tl, incl_refl.
    + rewrite Eu. simpl. intros x [<- | Hx]; [left; reflexivity | right; now apply IH].
  - rewrite Eu. exact IH.
Qed.

Lemma NoDup_release pool c :
  NoDup (inUseIds pool) -> NoDup (inUseIds (WsReleaseAcc pool c)).
Proof.
  induction pool as [|a r IH]; simpl; auto.
  unfold inUseIds in *. simpl.
  destruct (inUse a) eqn:Eu; simpl.
  - intros Hnd. inversion Hnd as [|? ? Hna Hnr]; subst.
    destruct (id a =? c); simpl; [exact Hnr|].
    rewrite Eu. simpl. constructor; [|now apply IH].
    intros Hin. apply Hna. exact (inUseIds_release_incl r c _ Hin).
  - rewrite Eu. exact IH.
Qed.

Lemma In_release pool c a :
  In a (WsReleaseAcc pool c) -> In a pool \/ inUse a = false.
Proof.
  induction pool as [|b r IH]; simpl; auto.
  destruct (inUse b && (id b =? c)).
  - intros [<- | H]; auto.
  - intros [<- | H]; auto. destruct (IH H); auto.
Qed.

Lemma NoDup_step pool ev :
  NoDup (inUseIds pool) -> NoDup (inUseIds (fst (onWsEvent pool ev))).
Proof.
  intros Hnd. destruct ev as [c | c | c info data | c]; simpl.
  - destruct (WsGetAcc pool c) as [[i pool1]|] eqn:Hg; simpl; [|exact Hnd].
    destruct (WsGetAcc_Some _ _ _ _ Hg) as (_ & _ & _ & _ & _ & _ & Hnd1 & _).
    rewrite (inUseIds_shape (update i WsResetAcc pool1) pool1); auto.
    apply shape_update; reflexivity.
  - now apply NoDup_release.
  - destruct (WsGetAcc pool c) as [[i pool1]|] eqn:Hg; simpl; [|exact Hnd].
    destruct (data_step pool c info data i pool1 Hg) as (Hstep & _ & _ & Hids & _).
    destruct (WsGetAcc_Some _ _ _ _ Hg) as (_ & _ & _ & Hs & _ & _ & Hnd1 & _).
    rewrite Hs.
    destruct (onData c info data (view pool c)) as [a calls]. simpl in *.
    rewrite Hids. auto.
  - exact Hnd.
Qed.

Lemma run_NoDup evs : forall pool,
  NoDup (inUseIds pool) -> NoDup (inUseIds (fst (run pool evs))).
Proof.
  induction evs as [|ev r IH]; intros pool Hnd; simpl; auto.
  pose proof (NoDup_step pool ev Hnd) as H1.
  destruct (onWsEvent pool ev) as [pool1 c1]. simpl in H1.
  specialize (IH pool1 H1). destruct (run pool1 r). exact IH.
Qed.

Lemma update_idle c a' : forall pool i,
  NoDup (inUseIds pool) -> (i < List.length pool)%nat ->
  inUse (slot pool i) = true -> id (slot pool i) = c ->
  firstOpcode a' = 0 ->
  idle c (update i (fun _ => a') pool).
Proof.
  unfold idle, slot. induction pool as [|b r IH]; intros i Hnd Hi Hu Hid H0 a Ha Hau Hac;
    simpl in Hi; [lia|].
  destruct i as [|j]; simpl in *.
  - destruct Ha as [<- | Ha]; [exact H0|]. exfalso.
    unfold inUseIds in Hnd. simpl in Hnd. rewrite Hu in Hnd. simpl in Hnd.
    apply NoDup_cons_iff in Hnd as [Hna _]. apply Hna.
    rewrite Hid, <- Hac. now apply In_inUseIds.
  - destruct Ha as [<- | Ha].
    + exfalso. unfold inUseIds in Hnd. simpl in Hnd. rewrite Hau in Hnd. simpl in Hnd.
      apply NoDup_cons_iff in Hnd as [Hna _]. apply Hna.
      rewrite Hac, <- Hid. apply (In_inUseIds r); [|exact Hu].
      apply nth_In. lia.
    + apply (IH j); auto; try lia.
      unfold inUseIds in Hnd |- *. simpl in Hnd.
      destruct (inUse b); [now apply NoDup_cons_iff in Hnd | exact Hnd].
Qed.

Lemma onData_continuation c c0 info data a :
  index info <> 0 -> firstOpcode a = 0 ->
  firstOpcode (fst (onData c info data a)) = 0 /\
  existsb (isForward c0) (snd (onData c info data a)) = false.
Proof.
  intros Hi H0. apply Z.eqb_neq in Hi. unfold onData. rewrite Hi.
  destruct (final info); simpl; rewrite ?H0; split; reflexivity.
Qed.

Lemma onData_other c c0 info data a :
  c <> c0 -> existsb (isForward c0) (snd (onData c info data a)) = false.
Proof.
  intros Hne. pose proof (onData_keeps c info data a) as (_ & _ & H).
  induction H as [|k r Hk _ IH]; simpl; auto.
  rewrite IH, orb_false_r.
  assert (E : (c =? c0) = false) by now apply Z.eqb_neq.
  destruct k; simpl in *; subst; auto.
Qed.

(** Events that start no message of [c] keep its slots between messages
    and forward nothing for it. *)
Lemma idle_step c pool ev :
  idle c pool ->
  match ev with EvData c' info _ => c' = c -> index info <> 0 | _ => True end ->
  idle c (fst (onWsEvent pool ev)) /\
  existsb (isForward c) (snd (onWsEvent pool ev)) = false.
Proof.
  intros Hidle Hcont. destruct ev as [c' | c' | c' info data | c']; simpl.
  - destruct (WsGetAcc pool c') as [[i pool1]|] eqn:Hg; simpl; [|auto].
    split; [|reflexivity].
    destruct (WsGetAcc_Some _ _ _ _ Hg) as (_ & _ & _ & _ & _ & _ & _ & Hin).
    intros a Ha Hu Hc. destruct (In_update _ _ _ _ Ha) as [Ha1 | ->]; [|reflexivity].
    destruct (Hin a Ha1) as [Ha0 | ->]; [now apply Hidle | reflexivity].
  - split; [|reflexivity]. intros a Ha Hu Hc.
    destruct (In_release _ _ _ Ha) as [Ha0 | Hf]; [now apply Hidle | congruence].
  - destruct (WsGetAcc pool c') as [[i pool1]|] eqn:Hg; simpl; [|auto].
    destruct (WsGetAcc_Some _ _ _ _ Hg) as (Hi & _ & Hf & Hs & _ & _ & _ & Hin).
    destruct (findAcc_Some _ _ _ Hf) as (_ & Hu1 & Hid1).
    pose proof (onData_keeps c' info data (slot pool1 i)) as (Kid & Kuse & _).
    assert (Hslot0 : c' = c -> firstOpcode (slot pool1 i) = 0).
    { intros ->. destruct (Hin _ (In_slot pool1 i Hi)) as [H0 | ->]; [|reflexivity].
      now apply Hidle. }
    destruct (Z.eq_dec c' c) as [-> | Hne].
    + destruct (onData_continuation c c info data (slot pool1 i)
                  (Hcont eq_refl) (Hslot0 eq_refl)) as [Hop Hnf].
      destruct (onData c info data (slot pool1 i)) as [a' calls]. simpl in *.
      split; [|exact Hnf].
      intros a Ha Hu Hc. destruct (In_update _ _ _ _ Ha) as [Ha1 | ->]; [|exact Hop].
      destruct (Hin a Ha1) as [Ha0 | ->]; [now apply Hidle | reflexivity].
    + pose proof (onData_other c' c info data (slot pool1 i) Hne) as Hnf.
      destruct (onData c' info data (slot pool1 i)) as [a' calls]. simpl in *.
      split; [|exact Hnf].
      intros a Ha Hu Hc. destruct (In_update _ _ _ _ Ha) as [Ha1 | ->].
      * destruct (Hin a Ha1) as [Ha0 | ->]; [now apply Hidle | reflexivity].
      * exfalso. apply Hne. congruence.
  - auto.
Qed.

Lemma run_idle c evs : forall pool,
  idle c pool -> continuationOnly c evs ->
  existsb (isForward c) (snd (run pool evs)) = false.
Proof.
  induction evs as [|ev r IH]; intros pool Hidle Hc; simpl; auto.
  inversion Hc as [|? ? Hev Hr]; subst.
  destruct (idle_step c pool ev Hidle Hev) as [H1 H2].
  destruct (onWsEvent pool ev) as [pool1 c1]. simpl in H1, H2.
  specialize (IH pool1 H1 Hr). destruct (run pool1 r) as [pool2 c2]. simpl in *.
  rewrite existsb_app, H2, IH. reflexivity.
Qed.

Lemma s_acc_NoDup : NoDup (inUseIds s_acc).
Proof. constructor. Qed.

(** The announced length is judged as the 32-bit [expectedLen] holds it,
    that is modulo 2^32; for every announced length below 2^32 this is the
    announced length itself.  After any history of
    events on the pool, a first frame (index 0) of connection [c] whose
    announced length so held exceeds WS_MAX_PAYLOAD forwards nothing, and
    nothing is forwarded for [c] by whatever events follow as long as [c]
    starts no new message, however many continuation frames it sends and
    whatever other connections do.  When the connection has or can get a
    slot, the one call made is the error reply [payload too large] and the
    slot is left reset. *)
Lemma oversized_message_never_forwarded
    (history : list WsEvent) (c : Z) (info : AwsFrameInfo) (data : list byte) :
  index info = 0 -> wrap32 (len info) > WS_MAX_PAYLOAD ->
  let pool := fst (run s_acc history) in
  let pool1 := fst (onWsEvent pool (EvData c info data)) in
  let calls := snd (onWsEvent pool (EvData c info data)) in
  (WsGetAcc pool c <> None ->
   calls = [CallError c "payload too large"] /\ view pool1 c = bind c /\
   findAcc pool1 c <> None) /\
  existsb (isForward c) calls = false /\
  forall evs, continuationOnly c evs ->
              existsb (isForward c) (snd (run pool1 evs)) = false.
Proof.
  intros Hi Hl pool pool1 calls.
  assert (Hnd : NoDup (inUseIds pool)) by (apply run_NoDup, s_acc_NoDup).
  assert (Hod : forall a, onData c info data a
                          = ({| id := id a; inUse := inUse a; firstOpcode := 0;
                                expectedLen := 0; buf := [] |},
                             [CallError c "payload too large"])).
  { intros a. unfold onData. rewrite Hi. cbn [Z.eqb expectedLen].
    assert (E : (wrap32 (len info) >? WS_MAX_PAYLOAD) = true) by (apply Z.gtb_lt; lia).
    rewrite E. reflexivity. }
  subst pool1 calls. unfold onWsEvent.
  destruct (WsGetAcc pool c) as [[i p1]|] eqn:Hg.
  - destruct (WsGetAcc_Some _ _ _ _ Hg) as (Hlt & _ & Hf & Hs & _ & _ & Hnd1 & _).
    destruct (findAcc_Some _ _ _ Hf) as (_ & Hu & Hid).
    rewrite Hod. cbn [fst snd].
    assert (Hshape : shape (update i (fun _ => {| id := id (slot p1 i);
                                                  inUse := inUse (slot p1 i);
                                                  firstOpcode := 0; expectedLen := 0;
                                                  buf := [] |}) p1) = shape p1).
    { apply shape_update; reflexivity. }
    split; [|split].
    + intros _. split; [reflexivity|]. split.
      * unfold view. rewrite (findAcc_shape _ _ c Hshape), Hf.
        rewrite slot_update_eq by assumption. unfold bind. now rewrite Hu, Hid.
      * rewrite (findAcc_shape _ _ c Hshape), Hf. discriminate.
    + reflexivity.
    + intros evs Hc. apply run_idle; [|exact Hc].
      apply update_idle; auto.
  - cbn [fst snd]. split; [|split].
    + intros H. now contradiction H.
    + reflexivity.
    + intros evs Hc. apply run_idle; [|exact Hc].
      intros a Ha Hu Hid. exfalso.
      unfold WsGetAcc in Hg. destruct (findAcc pool c) eqn:Ef; [discriminate|].
      apply (findAcc_None _ _ Ef). rewrite <- Hid. now apply In_inUseIds.
Qed.

(** A connected client announces 9000 bytes, then sends two continuation
    frames, the second final: an error reply, and nothing forwarded. *)
Lemma oversized_message_never_forwarded_witness :
  snd (onWsEvent (fst (run s_acc [EvConnect 7]))
         (EvData 7 (fst (frame 0 WS_TEXT false 9000 [x7b])) [x7b]))
  = [CallError 7 "payload too large"] /\
  existsb (isForward 7)
    (snd (run (fst (onWsEvent (fst (run s_acc [EvConnect 7]))
                      (EvData 7 (fst (frame 0 WS_TEXT false 9000 [x7b])) [x7b])))
            [EvData 7 (fst (frame 1 WS_CONTINUATION false 9000 [x22])) [x22];
             EvData 7 (fst (frame 2 WS_CONTINUATION true 9000 [x7d])) [x7d]]))
  = false.
Proof.
  assert (Hi : index (fst (frame 0 WS_TEXT false 9000 [x7b])) = 0) by reflexivity.
  assert (Hl : wrap32 (len (fst (frame 0 WS_TEXT false 9000 [x7b]))) > WS_MAX_PAYLOAD)
    by (vm_compute; reflexivity).
  destruct (oversized_message_never_forwarded [EvConnect 7] 7
              (fst (frame 0 WS_TEXT false 9000 [x7b])) [x7b] Hi Hl)
    as (Hslot & _ & Hnever).
  split.
  - apply Hslot. vm_compute. discriminate.
  - apply Hnever. repeat constructor; intros _; vm_compute; discriminate.
Defined.

(** C3.  The test for an oversized message is made on the 32-bit
    [expectedLen], after the 64-bit announced length has been stored in
    it: a first frame that is final and announces 2^32 + 100 bytes, more
    than WS_MAX_PAYLOAD, is held as an expected length of 100, passes the
    test, and its bytes are forwarded to the dispatcher; no
    [payload too large] is reported.  The same frame announcing 9000
    bytes is refused. *)
Theorem oversized_length_truncated_and_forwarded :
  let info := {| index := 0; len := 2 ^ 32 + 100; opcode := WS_TEXT; final := true |} in
  let info' := {| index := 0; len := 9000; opcode := WS_TEXT; final := true |} in
  len info > WS_MAX_PAYLOAD /\
  onWsEvent s_acc (EvData 7 info [x7b; x7d])
  = (update 0 (fun _ => bind 7) s_acc, [CallHandleWsMessage 7 [x7b; x7d]]) /\
  onWsEvent s_acc (EvData 7 info' [x7b; x7d])
  = (update 0 (fun _ => bind 7) s_acc, [CallError 7 "payload too large"]).
Proof. repeat split; vm_compute; reflexivity. Qed.

End AccFacts.

(** ** Properties of the dispatcher and its handlers *)

Module DispatchFacts.
Import Dispatch.

Lemma append_assoc (a b c : string) : (a +++ b) +++ c = a +++ b +++ c.
Proof. induction a as [|x a IH]; simpl; [reflexivity | now rewrite IH]. Qed.

Lemma prefix_append (a b : string) : String.prefix a (a +++ b) = true.
Proof.
  induction a as [|x a IH]; simpl; [destruct b; reflexivity|].
  destruct (ascii_dec x x); [exact IH | contradiction].
Qed.

Lemma to_int16_small (z : Z) : -32768 <= z < 32768 -> to_int16 z = z.
Proof. intros H. unfold to_int16. rewrite Z.mod_small; lia. Qed.

Lemma constrain_range (x lo hi : Z) : lo <= hi -> lo <= constrain x lo hi <= hi.
Proof.
  intros H. unfold constrain.
  destruct (x <? lo) eqn:E1; [lia|]. apply Z.ltb_ge in E1.
  destruct (x >? hi) eqn:E2; [lia|].
  assert (~ hi < x) by (intros G; apply Z.gtb_lt in G; congruence).
  lia.
Qed.

Lemma set_keeps_cmd (v x : JsonVariant) (k : string) tail :
  k <> "CMD" ->
  Json.set (JObject (("CMD", v) :: tail)) k x
  = JObject (("CMD", v) :: Json.assign k x tail).
Proof.
  intros Hk. unfold Json.set. cbn [Json.assign].
  destruct (String.eqb "CMD" k) eqn:E; [|reflexivity].
  apply String.eqb_eq in E. congruence.
Qed.

(** A document whose first member is [CMD] keeps it first under later
    assignments to other keys. *)
Lemma fold_set_keeps_cmd (v : JsonVariant) : forall rest tail,
  Forall (fun kv => fst kv <> "CMD") rest ->
  exists tail',
    fold_left (fun d kv => Json.set d (fst kv) (snd kv)) rest
              (JObject (("CMD", v) :: tail))
    = JObject (("CMD", v) :: tail').
Proof.
  induction rest as [|[k x] r IH]; intros tail H.
  - now exists tail.
  - inversion H as [|? ? Hk Hr]; subst. cbn [fst] in Hk.
    cbn [fold_left fst snd]. rewrite (set_keeps_cmd v x k tail Hk).
    apply IH. exact Hr.
Qed.

Lemma reply_cmd_first (v : JsonVariant) (rest : list (string * JsonVariant)) :
  Forall (fun kv => fst kv <> "CMD") rest ->
  exists tail, reply (("CMD", v) :: rest) = JObject (("CMD", v) :: tail).
Proof.
  intros H. unfold reply. cbn [fold_left fst snd].
  change (Json.set JNull "CMD" v) with (JObject [("CMD", v)]).
  now apply fold_set_keeps_cmd.
Qed.

(** Sending an object whose first member is [CMD]. *)
Lemma send_cmd_first (client : Z) (n : string) (tail : list (string * JsonVariant)) :
  escape n = n ->
  exists text,
    WsSendJson (Some client) (JObject (("CMD", JString n) :: tail)) = [ClientText client text]
    /\ cmdIs n text = true.
Proof.
  intros Hn.
  exists (serializeJson (JObject (("CMD", JString n) :: tail))). split.
  - unfold WsSendJson. reflexivity.
  - unfold cmdIs. cbn [serializeJson]. rewrite Hn.
    change (escape "CMD") with "CMD".
    set (rest := match tail with [] => EmptyString | _ => _ end).
    assert (E : "{" +++ (q "CMD" +++ ":" +++ q n +++ rest) +++ "}"
                = ("{" +++ q "CMD" +++ ":" +++ q n) +++ (rest +++ "}")).
    { rewrite !append_assoc. reflexivity. }
    rewrite E. apply prefix_append.
Qed.

(** Sending a reply object whose first member is [CMD]: exactly one
    message, to the client, carrying that CMD. *)
Lemma send_reply (client : Z) (n : string) (rest : list (string * JsonVariant)) :
  escape n = n -> Forall (fun kv => fst kv <> "CMD") rest ->
  exists text,
    WsSendJson (Some client) (reply (("CMD", JString n) :: rest))
    = [ClientText client text] /\ cmdIs n text = true.
Proof.
  intros Hn Hr. destruct (reply_cmd_first (JString n) rest Hr) as [tail ->].
  now apply send_cmd_first.
Qed.

Lemma sent_app (a b : list Action) : sent (a ++ b) = sent a ++ sent b.
Proof.
  induction a as [|x a IH]; [reflexivity|].
  destruct x; cbn [app sent]; rewrite ?IH; reflexivity.
Qed.

Lemma param_key_not_cmd (k : string) : configIsParamKey k = true -> k <> "CMD".
Proof. intros H ->. vm_compute in H. discriminate. Qed.

Lemma config_rd_sent client env : forall kvs,
  allCarry client "config_rd" (sent (config_rd_loop client env kvs)) /\
  List.length (sent (config_rd_loop client env kvs))
  = List.length (filter (fun kv => configIsParamKey (fst kv)) (map c_key kvs)).
Proof.
  induction kvs as [|[k v] r [IH1 IH2]]; [split; [constructor | reflexivity]|].
  cbn [config_rd_loop map filter c_key fst snd]. rewrite sent_app.
  destruct (configIsParamKey (c_str k)) eqn:E.
  - destruct (send_reply client "config_rd"
                [(c_str k, JString (configGet env (c_str k)))] eq_refl)
      as (text & -> & Hc).
    { constructor; [|constructor]. cbn [fst]. now apply param_key_not_cmd. }
    cbn [sent app List.length]. split; [|now rewrite IH2].
    constructor; [split; [reflexivity | exact Hc] | exact IH1].
  - cbn [sent app]. split; assumption.
Qed.

Lemma config_wr_sent client : forall kvs,
  allCarry client "config_wr" (sent (config_wr_loop client kvs)) /\
  List.length (sent (config_wr_loop client kvs))
  = List.length (filter (fun kv => configIsParamKey (fst kv)) (map c_key kvs)).
Proof.
  induction kvs as [|[k v] r [IH1 IH2]]; [split; [constructor | reflexivity]|].
  cbn [config_wr_loop map filter c_key fst snd]. rewrite sent_app.
  destruct (configIsParamKey (c_str k)) eqn:E.
  - cbn [sent].
    destruct (send_reply client "config_wr"
                [(c_str k, JString match as_cstr v with
                                   | Some s => s
                                   | None => EmptyString
                                   end)] eq_refl)
      as (text & -> & Hc).
    { constructor; [|constructor]. cbn [fst]. now apply param_key_not_cmd. }
    cbn [sent app List.length]. split; [|now rewrite IH2].
    constructor; [split; [reflexivity | exact Hc] | exact IH1].
  - cbn [sent app]. split; assumption.
Qed.

Lemma function_loop_silent : forall kvs, sent (function_loop kvs) = [].
Proof.
  induction kvs as [|[k v] r IH]; [reflexivity|].
  cbn [function_loop]. rewrite sent_app, IH.
  destruct (has_prefix "FN" (c_str k)); reflexivity.
Qed.

(** Replaces the sending of a reply object whose CMD is [n] by the one
    message it sends. *)
Ltac answer n :=
  match goal with
  | |- context [WsSendJson (Some ?c) (reply (("CMD", JString n) :: ?rest))] =>
      let text := fresh "text" in
      let Hc := fresh "Hc" in
      destruct (send_reply c n rest eq_refl
                  ltac:(repeat (constructor; [simpl; discriminate|]); constructor))
        as (text & -> & Hc)
  end.

Ltac literal_keys :=
  repeat (constructor; [simpl; discriminate|]); constructor.

(** C2.  The table maps [move] to [ws_cmd_move]; on the document with
    x = "200" and y = "-300" the handler leaves joyX = 127 and joyY = -127,
    drives the motors with throttle -127 and steer 127, and sends the
    client the text of a JSON object with CMD move and status OK; and on
    every document both values handed to the motors lie in [-127, 127] and
    the same reply is sent. *)
Theorem move_clamps_and_acknowledges (client : Z) (env : Env) (st : State) :
  find "move" ws_commands = Some ws_cmd_move /\
  ws_cmd_move client moveDoc env st
  = Done {| joyX := 127; joyY := -127; motorsReinit := motorsReinit st;
            lineBuf := lineBuf st |}
         [DriveTank (-127) 127; ClientText client moveReply] /\
  forall doc, exists x y,
    -127 <= x <= 127 /\ -127 <= y <= 127 /\
    ws_cmd_move client doc env st
    = Done {| joyX := x; joyY := y; motorsReinit := motorsReinit st;
              lineBuf := lineBuf st |}
           [DriveTank y x; ClientText client moveReply].
Proof.
  split; [reflexivity|]. split; [reflexivity|].
  intros doc.
  exists (constrain (atoi (or_cstr (Json.get doc "x") "0")) (-127) 127),
         (constrain (atoi (or_cstr (Json.get doc "y") "0")) (-127) 127).
  pose proof (constrain_range (atoi (or_cstr (Json.get doc "x") "0")) (-127) 127) as Hx.
  pose proof (constrain_range (atoi (or_cstr (Json.get doc "y") "0")) (-127) 127) as Hy.
  split; [lia|]. split; [lia|].
  unfold ws_cmd_move, motorsApply.
  rewrite !to_int16_small by lia. reflexivity.
Qed.

Lemma find_None cmd : forall table,
  ~ In cmd (map fst table) -> find cmd table = None.
Proof.
  induction table as [|[n h] r IH]; simpl; intros H; [reflexivity|].
  destruct (String.eqb n cmd) eqn:E.
  - apply String.eqb_eq in E. exfalso. auto.
  - apply IH. auto.
Qed.

(** C9, as the code has it.  The command is looked up by the C string of
    CMD: its characters before the first NUL (the empty string when CMD is
    absent or not a string).  When the parser accepts the payload and that
    C string names no entry of the command table, [handleWsMessage] leaves
    the state as it was and makes exactly one call: it sends the
    originating client the text of the JSON object with CMD error and msg
    unknown command. *)
Theorem unknown_command_single_error_reply
    (deserializeJson : list byte -> DeserializationResult)
    (client : Z) (payload : list byte) (doc : JsonDocument) (env : Env) (st : State) :
  deserializeJson payload = DeserializationOk doc ->
  ~ In (or_cstr (Json.get doc "CMD") EmptyString) (map fst ws_commands) ->
  handleWsMessage deserializeJson client payload env st
  = Done st [ClientText client unknownReply].
Proof.
  intros Hp Hn. unfold handleWsMessage. rewrite Hp.
  cbv zeta. rewrite (find_None _ _ Hn). reflexivity.
Qed.

(** The scenario of the specification: CMD bogus. *)
Lemma unknown_command_single_error_reply_witness :
  handleWsMessage (fun _ => DeserializationOk (JObject [("CMD", JString "bogus")]))
                  3 [x7b; x7d] bench powerUp
  = Done powerUp [ClientText 3 unknownReply].
Proof.
  apply (unknown_command_single_error_reply
           (fun _ => DeserializationOk (JObject [("CMD", JString "bogus")]))
           3 [x7b; x7d] (JObject [("CMD", JString "bogus")]) bench powerUp).
  - reflexivity.
  - vm_compute. intros H.
    repeat (destruct H as [H | H]; [discriminate H|]). exact H.
Defined.

(** C9 does not hold as stated: the CMD value move, NUL, zz is not in the
    command table, and yet the request is handled as [move]: the motors
    are driven and the reply is the one of [move], not an error. *)
Lemma nul_cut_command_runs_handler :
  ~ In (match Json.get moveNulDoc "CMD" with JString s => s | _ => EmptyString end)
       (map fst ws_commands) /\
  handleWsMessage (fun _ => DeserializationOk moveNulDoc) 3 [x7b; x7d] bench powerUp
  = Done powerUp [DriveTank 0 0; ClientText 3 moveReply].
Proof.
  split; [|reflexivity].
  vm_compute. intros H.
  repeat (destruct H as [H | H]; [discriminate H|]). exact H.
Qed.

(** C7, as the code has it.  Every command of the table is answered, and
    every message its handler sends goes to the requesting client only:
    [config_rd] and [config_wr] send one reply for each member of the
    request that names a configuration parameter, every other handler
    sends exactly one reply.  The replies of config_req, config_rd,
    config_wr, move, function, reset_memory and displaymsg carry the
    command's own name as CMD, that of reboot carries ack, that of
    info_req carries info, and that of hello_robora is an object with a
    CMD that is not the command's name.  Only [displaymsg] can fail to
    complete. *)
Theorem replies_carry_reply_name
    (name : string) (h : WsCommandHandler)
    (client : Z) (doc : JsonDocument) (env : Env) (st : State) :
  In (name, h) ws_commands ->
  match h client doc env st with
  | Done _ acts =>
      Forall (fun m => fst m = Some client) (sent acts) /\
      (if String.eqb name "hello_robora"
       then Forall (fun m => hasCmd (snd m) = true /\ cmdIs name (snd m) = false)
                   (sent acts)
       else Forall (fun m => cmdIs (replyName name) (snd m) = true) (sent acts)) /\
      List.length (sent acts)
      = (if String.eqb name "config_rd" || String.eqb name "config_wr"
         then List.length (paramMembers doc) else 1%nat)
  | OutOfBounds _ => name = "displaymsg"
  end.
Proof.
  assert (Split : forall n ms, allCarry client n ms ->
             Forall (fun m => fst m = Some client) ms /\
             Forall (fun m => cmdIs n (snd m) = true) ms).
  { intros n ms H. induction H as [|m ms [H1 H2] _ [IH1 IH2]];
      split; constructor; assumption. }
  intros Hin. cbn [ws_commands In] in Hin.
  repeat (destruct Hin as [Hin | Hin]; [injection Hin as <- <-|]); [..|destruct Hin].
  - (* hello_robora *)
    cbn [ws_cmd_hello]. repeat split; repeat constructor; reflexivity.
  - (* reboot *)
    cbn [ws_cmd_reboot]. repeat split; repeat constructor; reflexivity.
  - (* config_req *)
    cbn [ws_cmd_config_req]. repeat split; repeat constructor.
  - (* config_rd *)
    cbn [ws_cmd_config_rd].
    destruct (config_rd_sent client env (Json.members doc)) as [H1 H2].
    destruct (Split _ _ H1) as [Ha Hb].
    split; [exact Ha|]. split; [exact Hb | exact H2].
  - (* config_wr *)
    cbn [ws_cmd_config_wr]. rewrite sent_app. cbn [sent]. rewrite app_nil_r.
    destruct (config_wr_sent client (Json.members doc)) as [H1 H2].
    destruct (Split _ _ H1) as [Ha Hb].
    split; [exact Ha|]. split; [exact Hb | exact H2].
  - (* info_req *)
    unfold ws_cmd_sendInfo. answer "info".
    repeat split; repeat constructor; assumption.
  - (* move *)
    unfold ws_cmd_move, motorsApply. answer "move".
    repeat split; repeat constructor; assumption.
  - (* function *)
    unfold ws_cmd_function. answer "function".
    rewrite sent_app, function_loop_silent.
    repeat split; repeat constructor; assumption.
  - (* reset_memory *)
    unfold ws_cmd_reset_memory. answer "reset_memory".
    repeat split; repeat constructor; assumption.
  - (* displaymsg *)
    unfold ws_cmd_sendString.
    destruct (match Json.get doc "strings" with
              | JArray arr => sendString_loop arr (lineBuf st) 0
              | _ => inl (lineBuf st, 0)
              end) as [[b n] | i]; [|reflexivity].
    answer "displaymsg".
    repeat split; repeat constructor; assumption.
Qed.

(** The [move] request of the specification gets one reply, with CMD
    move. *)
Lemma replies_carry_reply_name_witness :
  Forall (fun m => fst m = Some 3)
         (sent [DriveTank (-127) 127; ClientText 3 moveReply]) /\
  Forall (fun m => cmdIs "move" (snd m) = true)
         (sent [DriveTank (-127) 127; ClientText 3 moveReply]) /\
  List.length (sent [DriveTank (-127) 127; ClientText 3 moveReply]) = 1%nat.
Proof.
  exact (replies_carry_reply_name "move" ws_cmd_move 3 moveDoc bench powerUp
           (or_intror (or_intror (or_intror (or_intror (or_intror (or_intror
              (or_introl eq_refl)))))))).
Defined.

(** C7 does not hold as stated: a [hello_robora] request is answered with
    CMD hello_webui, so not every handler of the table echoes the name of
    its command. *)
Lemma hello_reply_is_not_an_echo :
  ~ (forall name h, In (name, h) ws_commands ->
       forall client doc env st st' acts,
         h client doc env st = Done st' acts -> repliesWith client name acts).
Proof.
  intros H.
  specialize (H "hello_robora" ws_cmd_hello (or_introl eq_refl)
                3 (JObject [("CMD", JString "hello_robora")]) bench powerUp
                powerUp _ eq_refl).
  specialize (H _ (or_introl eq_refl)).
  destruct H as [_ H]. vm_compute in H. discriminate H.
Qed.

(** C8.  The loop over [strings] has no bound: sixteen strings fill the
    buffer and are forwarded as sixteen lines, while with seventeen the
    seventeenth is stored at index 16, past the end of the
    DISPLAY_MAX_LINES-element buffer. *)
Theorem displaymsg_overruns_line_buffer (client : Z) (env : Env) (st : State) :
  ws_cmd_sendString client (displayDoc 17) env st = OutOfBounds 16 /\
  exists st' reply,
    ws_cmd_sendString client (displayDoc 16) env st
    = Done st' (DisplayLoadAutoScroll 0 16 1 false false 1500 false :: reply).
Proof.
  split; [reflexivity|]. eexists. eexists. reflexivity.
Qed.

(** A run of the loop that completes has stored at most DISPLAY_MAX_LINES
    strings; one that does not has attempted the store at index 16. *)
Lemma sendString_loop_bound : forall arr buf n,
  0 <= n <= 16 ->
  match sendString_loop arr buf n with
  | inl (_, m) => n <= m <= 16
  | inr i => i = 16
  end.
Proof.
  induction arr as [|v r IH]; intros buf n Hn; cbn [sendString_loop].
  - lia.
  - destruct (as_cstr v) as [s|]; [|apply IH; exact Hn].
    change (Z.of_nat DISPLAY_MAX_LINES) with 16.
    destruct (n <? 16) eqn:E.
    + apply Z.ltb_lt in E.
      assert (Hs : to_uint8 (n + 1) = n + 1).
      { unfold to_uint8. apply Z.mod_small. lia. }
      rewrite Hs.
      assert (Hn1 : 0 <= n + 1 <= 16) by lia.
      specialize (IH (store (Z.to_nat n) s buf) (n + 1) Hn1).
      destruct (sendString_loop r (store (Z.to_nat n) s buf) (n + 1)) as [[b m]|i].
      * lia.
      * exact IH.
    + apply Z.ltb_ge in E. lia.
Qed.

End DispatchFacts.

(** ** Properties of the outbound queue and the periodic tick *)

Module TickFacts.
Import Dispatch Tick.

Lemma no_client_found (limit : nat) : websocketAreClients limit [] = false.
Proof.
  unfold websocketAreClients.
  induction (map Z.of_nat (seq 0 limit)) as [|i r IH]; simpl; auto.
Qed.

(** C5, as the code has it: [websocketAsyncMsg] pushes only when
    [websocketAreClients] finds a client, and then returns what the push
    returns, which is false only when its allocation fails; when it finds
    none, in particular when no client is connected, it returns false and
    leaves the queue as it was. *)
Theorem enqueue_gated_on_clients
    (limit : nat) (clients : list Z) (allocOk : bool) (msg : string)
    (Fsd : FifoStringDyn.t) :
  websocketAsyncMsg limit clients allocOk msg Fsd
  = (if websocketAreClients limit clients
     then (allocOk, if allocOk then Fsd ++ [msg] else Fsd)
     else (false, Fsd))
  /\ websocketAsyncMsg limit [] allocOk msg Fsd = (false, Fsd).
Proof.
  unfold websocketAsyncMsg. rewrite no_client_found. split; [|reflexivity].
  destruct (websocketAreClients limit clients); [|reflexivity].
  unfold FifoStringDyn.push. destruct allocOk; reflexivity.
Qed.

(** C5 does not hold as stated: with no client connected and an allocation
    that would succeed, the message is refused and the queue stays
    empty. *)
Lemma enqueue_refused_without_clients :
  fst (websocketAsyncMsg 8 [] true "telemetry" []) = false /\
  snd (websocketAsyncMsg 8 [] true "telemetry" []) = [] /\
  FifoStringDyn.push true "telemetry" [] = (true, ["telemetry"]).
Proof. repeat split; reflexivity. Qed.

Lemma tick_without_clients (limit : nat) (clients : list Z)
    (Fsd : FifoStringDyn.t) (st : State) :
  websocketAreClients limit clients = false ->
  websocketTick limit clients Fsd st
  = (Fsd, {| joyX := 0; joyY := 0; motorsReinit := motorsReinit st;
             lineBuf := lineBuf st |}, [DriveTank 0 0]).
Proof.
  intros H. unfold websocketTick, websocketSendAsyncMsg. rewrite H. reflexivity.
Qed.

(** C10.  A tick that runs with no client connected sends nothing, leaves
    the queue as it was, and ends having commanded the motors to throttle 0
    and steer 0, with joyX = joyY = 0, whatever the motors were doing and
    whatever the queue holds. *)
Theorem tick_stops_motors_without_clients
    (limit : nat) (Fsd : FifoStringDyn.t) (st : State) :
  websocketTick limit [] Fsd st
  = (Fsd, {| joyX := 0; joyY := 0; motorsReinit := motorsReinit st;
             lineBuf := lineBuf st |}, [DriveTank 0 0]).
Proof. apply tick_without_clients, no_client_found. Qed.

End TickFacts.

(** ** Further properties of the update endpoints *)

Module OtaMore.
Import Ota Vocab.

(** Before any first chunk has opened a session, later chunks of either
    endpoint are ignored: no call is made and no static changes. *)
Theorem chunks_without_session_are_ignored (evs : list Event) :
  Forall (fun ev => laterChunk ev = true) evs -> run init evs = (init, []).
Proof.
  induction 1 as [|ev r Hev _ IH]; [reflexivity|].
  cbn [run].
  assert (E : step init ev = (init, [])).
  { destruct ev as [req fl index len final | e | req fl len index total];
      cbn [laterChunk] in Hev; try discriminate.
    - unfold step, multipartUpload. apply negb_true_iff in Hev. rewrite Hev.
      unfold mpWrite, mpFinish. cbn [mpBegan init andb].
      rewrite andb_false_r. reflexivity.
    - unfold step, octetUpload. apply negb_true_iff in Hev. rewrite Hev.
      unfold ocWrite, ocFinish. cbn [ocBegan init andb]. reflexivity. }
  rewrite E, IH. reflexivity.
Qed.

Lemma chunks_without_session_are_ignored_witness :
  run init [OctetChunk (plainRequest 0) (device 512) 512 4096 0;
            MultipartChunk (plainRequest 0) (device 512) 1024 512 true]
  = (init, []).
Proof.
  apply chunks_without_session_are_ignored.
  repeat constructor.
Defined.

Lemma progress_is_progress done total :
  existsb isProgress (wsOtaProgress done total) = true.
Proof. reflexivity. Qed.

Lemma writeChunk_progress fl len total m st :
  existsb isProgress (snd (writeChunk fl len total m st))
  = (wrap32 (millis fl - lastProgMs st) >=? 150) /\
  lastProgMs (fst (writeChunk fl len total m st))
  = (if wrap32 (millis fl - lastProgMs st) >=? 150 then millis fl else lastProgMs st).
Proof.
  unfold writeChunk.
  destruct (wrap32 (millis fl - lastProgMs st) >=? 150); cbn [fst snd lastProgMs setWritten];
    (split; [|reflexivity]); destruct (writeRet fl =? len); reflexivity.
Qed.

(** Progress broadcasts of written chunks are rate-limited by the shared
    [lastProgMs]: a written chunk broadcasts progress exactly when at least
    150 ms (modulo 2^32) have passed since the last such broadcast, and a
    chunk written less than 150 ms after one that did broadcast does
    not. *)
Theorem progress_rate_limited
    (fl1 fl2 : Flash) (len1 len2 total1 total2 m1 m2 : Z) (st : State) :
  0 <= millis fl2 - millis fl1 < 150 ->
  let r1 := writeChunk fl1 len1 total1 m1 st in
  let r2 := writeChunk fl2 len2 total2 m2 (fst r1) in
  existsb isProgress (snd r1) = (wrap32 (millis fl1 - lastProgMs st) >=? 150) /\
  (existsb isProgress (snd r1) = true ->
   lastProgMs (fst r1) = millis fl1 /\ existsb isProgress (snd r2) = false).
Proof.
  intros Hd r1 r2. subst r1 r2.
  destruct (writeChunk_progress fl1 len1 total1 m1 st) as [P1 L1].
  destruct (writeChunk_progress fl2 len2 total2 m2
              (fst (writeChunk fl1 len1 total1 m1 st))) as [P2 _].
  split; [exact P1|]. intros Ht. rewrite P1 in Ht. rewrite Ht in L1.
  split; [exact L1|]. rewrite P2, L1.
  rewrite (OtaFacts.wrap32_small (millis fl2 - millis fl1))
    by (unfold SIZE_MOD; lia).
  destruct (millis fl2 - millis fl1 >=? 150) eqn:G; [|reflexivity].
  apply Z.geb_le in G. lia.
Qed.

Lemma progress_rate_limited_witness :
  existsb isProgress
    (snd (writeChunk (device 100) 100 0 1500000
            (fst (writeChunk (device 100) 100 0 1500000 init))))
  = false.
Proof.
  assert (H : 0 <= millis (device 100) - millis (device 100) < 150)
    by (vm_compute; split; [discriminate | reflexivity]).
  destruct (progress_rate_limited (device 100) (device 100) 100 100 0 0
              1500000 1500000 init H) as [_ H2].
  apply H2. vm_compute. reflexivity.
Defined.

(** The chunk that completes a raw-stream upload (index + len = total) on
    a begun session ends the flash write and closes the session: when
    [Update.end] succeeds the request is answered 200 and a restart is
    scheduled after OTA_REQUEST_RESET ms, when it fails the request is
    answered 500 and no restart is scheduled. *)
Theorem octet_completion_outcome
    (req : Request) (fl : Flash) (len index total : Z) (st : State) :
  index <> 0 -> ocBegan st = true ->
  wrap32 (index + len) = total ->
  wrap32 (written st + len) <= ocMaxSize st ->
  let st' := fst (octetUpload req fl len index total st) in
  let acts := snd (octetUpload req fl len index total st) in
  ocBegan st' = false /\ In UpdateEnd acts /\
  (endOk fl = true ->
   In (RequestSend 200 "OK") acts /\ In (ScheduleReboot OTA_REQUEST_RESET) acts) /\
  (endOk fl = false ->
   In (RequestSend 500 "FAIL end") acts /\
   forall ms, ~ In (ScheduleReboot ms) acts).
Proof.
  intros Hi Hb Hfin Hfit st' acts. subst st' acts.
  unfold octetUpload. apply Z.eqb_neq in Hi. rewrite Hi.
  assert (Hcmp : (wrap32 (written st + len) >? ocMaxSize st) = false).
  { destruct (wrap32 (written st + len) >? ocMaxSize st) eqn:G; [|reflexivity].
    apply Z.gtb_lt in G. lia. }
  assert (Hw : exists s2 a2,
             ocWrite fl len total st = Continue s2 a2 /\ ocBegan s2 = true /\
             (forall ms, ~ In (ScheduleReboot ms) a2)).
  { unfold ocWrite. rewrite Hb, Hcmp. cbn [andb].
    destruct (len >? 0).
    - destruct (writeChunk fl len total (ocMaxSize st) st) as [s2 a2] eqn:Ew.
      exists s2, a2. split; [reflexivity|].
      destruct (OtaFacts.writeChunk_written _ _ _ _ _ _ _ Ew) as (_ & _ & _ & Hb2 & _).
      split; [congruence|].
      unfold writeChunk in Ew.
      destruct (wrap32 (millis fl - lastProgMs st) >=? 150);
        destruct (writeRet fl =? len); injection Ew as <- <-;
        intros ms Hin; cbn in Hin;
        repeat (destruct Hin as [Hin | Hin]; [discriminate Hin|]); exact Hin.
    - exists st, []. repeat split; auto. }
  destruct Hw as (s2 & a2 & -> & Hb2 & Hno).
  unfold ocFinish. rewrite Hb2, Hfin, Z.eqb_refl. cbn [andb fst snd ocBegan app].
  split; [reflexivity|]. split.
  { apply in_or_app. right. left. reflexivity. }
  split.
  - intros ->. split; apply in_or_app; right; cbn; auto 10.
  - intros ->. split.
    + apply in_or_app; right; cbn; auto.
    + intros ms Hin. apply in_app_or in Hin as [Hin | Hin]; [now apply (Hno ms)|].
      cbn in Hin.
      repeat (destruct Hin as [Hin | Hin]; [discriminate Hin|]). exact Hin.
Qed.

Lemma octet_completion_outcome_witness :
  In (ScheduleReboot OTA_REQUEST_RESET)
     (snd (octetUpload (plainRequest 0) (device 24) 24 1000 1024
             (fst (step init (OctetChunk (plainRequest 0) (device 1000) 1000 0 1024))))).
Proof.
  refine (proj2 (proj1 (proj2 (proj2
            (octet_completion_outcome (plainRequest 0) (device 24) 24 1000 1024
               (fst (step init (OctetChunk (plainRequest 0) (device 1000) 1000 0 1024)))
               _ _ _ _))) _)).
  - discriminate.
  - vm_compute. reflexivity.
  - vm_compute. reflexivity.
  - vm_compute. discriminate.
  - reflexivity.
Defined.

Lemma getTargetPartition_resolved fl req out m ok part m' :
  getTargetPartition fl (isFsTarget req) out m = (ok, part, m') ->
  ok = true -> exists p, resolved fl req = Some p /\ part = Some p /\ m' = size p.
Proof.
  unfold getTargetPartition, getFsPartition, resolved.
  destruct (isFsTarget req).
  - destruct (fsPartition fl) as [p|]; intros [= <- <- <-] E; [|discriminate].
    now exists p.
  - destruct (nextUpdatePartition fl) as [p|]; intros [= <- <- <-] E; [|discriminate].
    now exists p.
Qed.

(** A first chunk (index 0) that gets as far as the write block has opened
    a fresh session, whatever was in progress before: the byte counter is
    zero, the endpoint's began flag is set, its capacity is the size of the
    partition resolved for the request, and [Update.begin] succeeded; on
    the raw-stream endpoint a declared total, if any, fits the partition. *)
Theorem first_chunk_restarts_session
    (req : Request) (fl : Flash) (total : Z) (st s : State) :
  (mpAtWrite req fl 0 st = Some s ->
   written s = 0 /\ mpBegan s = true /\ beginOk fl = true /\
   exists p, resolved fl req = Some p /\ mpMaxSize s = size p) /\
  (ocAtWrite req fl 0 total st = Some s ->
   written s = 0 /\ ocBegan s = true /\ beginOk fl = true /\
   exists p, resolved fl req = Some p /\ ocMaxSize s = size p /\
             (total = 0 \/ total <= size p)).
Proof.
  split.
  - unfold mpAtWrite, mpSetup. cbn [Z.eqb].
    destruct (getTargetPartition fl (isFsTarget req) (mpPart st) (mpMaxSize st))
      as [[ok part] m] eqn:Eg.
    destruct ok; [|discriminate].
    destruct (getTargetPartition_resolved _ _ _ _ _ _ _ Eg eq_refl) as (p & Hr & _ & ->).
    destruct (beginOk fl); [|discriminate].
    intros [= <-]. cbn. repeat split; auto. now exists p.
  - unfold ocAtWrite, ocSetup. cbn [Z.eqb].
    destruct (getTargetPartition fl (isFsTarget req) (ocPart st) (ocMaxSize st))
      as [[ok part] m] eqn:Eg.
    destruct ok; [|discriminate].
    destruct (getTargetPartition_resolved _ _ _ _ _ _ _ Eg eq_refl) as (p & Hr & _ & ->).
    destruct (negb (total =? 0) && (total >? size p)) eqn:Et; [discriminate|].
    destruct (beginOk fl); [|discriminate].
    intros [= <-]. cbn. repeat split; auto. exists p. repeat split; auto.
    apply andb_false_iff in Et as [Et | Et].
    + left. apply negb_false_iff in Et. now apply Z.eqb_eq.
    + right. destruct (Z.gtb_spec total (size p)); [discriminate | lia].
Qed.

(** A session left with 1000 bytes written is replaced by a new one whose
    counter starts from zero. *)
Lemma first_chunk_restarts_session_witness :
  written (fst (mpSetup_state (plainRequest 0) (device 0)
                  (fst (step init (MultipartChunk (plainRequest 0) (device 1000)
                                     0 1000 false))))) = 0.
Proof.
  refine (proj1 (proj1 (first_chunk_restarts_session (plainRequest 0) (device 0) 0
                          (fst (step init (MultipartChunk (plainRequest 0) (device 1000)
                                             0 1000 false))) _) _)).
  vm_compute. reflexivity.
Defined.

(** Within a session, the byte counter never decreases: a later chunk
    (index not 0) of either endpoint leaves it as it was or adds what
    [Update.write] reported, at most the chunk's length. *)
Theorem written_grows_within_session
    (flashSize : Z) (evs : list Event) (ev : Event) :
  0 <= flashSize -> Forall (bounded flashSize) evs -> bounded flashSize ev ->
  laterChunk ev = true ->
  let st := fst (run init evs) in
  written st <= written (fst (step st ev)) <= written st + chunkLen ev.
Proof.
  intros HB Hevs Hev Hl st.
  assert (HI : Inv flashSize st).
  { apply OtaFacts.run_Inv; auto. now apply OtaFacts.init_Inv. }
  clearbody st.
  destruct ev as [req fl index len final | e | req fl len index total];
    cbn [laterChunk] in Hl; try discriminate;
    apply negb_true_iff in Hl;
    destruct Hev as (Hlen & Hfit & Hw & _); cbn [chunkLen chunkFlash] in *.
  - unfold step, multipartUpload. rewrite Hl.
    pose proof (OtaFacts.mpWrite_cases flashSize fl len Hfit Hw req st HI) as Hc.
    destruct (mpWrite req fl len st) as [s2 a2 | s2 a2].
    + destruct Hc as (_ & _ & _ & -> & _). cbn [fst]. lia.
    + destruct Hc as (_ & _ & _ & Hcase).
      pose proof (OtaFacts.mpFinish_cases req fl final s2) as Hf.
      destruct (mpFinish req fl final s2) as [s3 a3]. cbn [fst].
      destruct Hf as (W3 & _). rewrite W3.
      destruct Hcase as [(_ & _ & _ & W2 & _) | (_ & -> & _)]; lia.
  - unfold step, octetUpload. rewrite Hl.
    pose proof (OtaFacts.ocWrite_cases flashSize fl len Hfit Hw total st HI) as Hc.
    destruct (ocWrite fl len total st) as [s2 a2 | s2 a2].
    + destruct Hc as (_ & _ & _ & -> & _). cbn [fst]. lia.
    + destruct Hc as (_ & _ & _ & Hcase).
      pose proof (OtaFacts.ocFinish_cases fl len index total s2) as Hf.
      destruct (ocFinish fl len index total s2) as [s3 a3]. cbn [fst].
      destruct Hf as (W3 & _). rewrite W3.
      destruct Hcase as [(_ & _ & _ & W2 & _) | (_ & -> & _)]; lia.
Qed.

Lemma written_grows_within_session_witness :
  let st := fst (run init [OctetChunk (plainRequest 0) (device 1000) 1000 0 0]) in
  written st
  <= written (fst (step st (OctetChunk (plainRequest 0) (device 500) 500 1000 0)))
  <= written st + 500.
Proof.
  assert (Hb : forall w i, 0 <= w -> 16777216 + w < 4294967296 ->
               bounded 16777216 (OctetChunk (plainRequest 0) (device w) w i 0)).
  { intros w i Hw Hf.
    unfold bounded, chunkLen, chunkFlash, device, partBounded, appPartition.
    cbn [writeRet fsPartition nextUpdatePartition size].
    change SIZE_MOD with 4294967296. lia. }
  apply (written_grows_within_session 16777216
           [OctetChunk (plainRequest 0) (device 1000) 1000 0 0]
           (OctetChunk (plainRequest 0) (device 500) 500 1000 0)).
  - lia.
  - constructor; [apply Hb; lia | constructor].
  - apply Hb; lia.
  - reflexivity.
Defined.

End OtaMore.

(** ** Further properties of the accumulator pool *)

Module AccMore.
Import Acc AccFacts.

Lemma findFree_full pool : forallb inUse pool = true -> findFree pool = None.
Proof.
  induction pool as [|a r IH]; simpl; [reflexivity|].
  intros H. apply andb_true_iff in H as [Ha Hr]. rewrite Ha. simpl.
  now rewrite (IH Hr).
Qed.

Lemma findAcc_unbound pool c : ~ In c (inUseIds pool) -> findAcc pool c = None.
Proof.
  intros Hn. destruct (findAcc pool c) as [i|] eqn:E; [|reflexivity].
  exfalso. apply Hn. destruct (findAcc_Some _ _ _ E) as (Hi & Hu & Hid).
  rewrite <- Hid. apply In_inUseIds; [now apply In_slot | exact Hu].
Qed.

(** When every slot is in use and none is bound to connection [c], a data
    frame of [c] is answered with the error [too many ws clients], a
    connect of [c] gets only the greeting, and in both cases the pool is
    left exactly as it was: no other connection loses its slot or buffer. *)
Theorem full_pool_reports_too_many_clients
    (pool : list WsAcc) (c : Z) (info : AwsFrameInfo) (data : list byte) :
  forallb inUse pool = true -> ~ In c (inUseIds pool) ->
  onWsEvent pool (EvData c info data) = (pool, [CallError c "too many ws clients"]) /\
  onWsEvent pool (EvConnect c) = (pool, [CallConnectHello c]).
Proof.
  intros Hfull Hc. unfold onWsEvent, WsGetAcc.
  rewrite (findAcc_unbound _ _ Hc), (findFree_full _ Hfull). split; reflexivity.
Qed.

Lemma full_pool_reports_too_many_clients_witness :
  let pool := fst (run s_acc [EvConnect 1; EvConnect 2; EvConnect 3; EvConnect 4]) in
  onWsEvent pool (EvData 5 (fst (frame 0 WS_TEXT true 2 [x7b; x7d])) [x7b; x7d])
  = (pool, [CallError 5 "too many ws clients"]).
Proof.
  intros pool.
  refine (proj1 (full_pool_reports_too_many_clients pool 5 _ _ _ _)).
  - reflexivity.
  - vm_compute. intros H.
    repeat (destruct H as [H | H]; [discriminate H|]). exact H.
Defined.

Lemma release_unbinds pool c :
  NoDup (inUseIds pool) -> findAcc (WsReleaseAcc pool c) c = None.
Proof.
  induction pool as [|a r IH]; [reflexivity|].
  intros Hnd. cbn [WsReleaseAcc].
  destruct (inUse a && (id a =? c)) eqn:E.
  - cbn [findAcc inUse andb].
    apply andb_true_iff in E as [Eu Ec]. apply Z.eqb_eq in Ec.
    unfold inUseIds in Hnd. cbn [filter] in Hnd. rewrite Eu in Hnd. cbn [map] in Hnd.
    apply NoDup_cons_iff in Hnd as [Hna _]. rewrite Ec in Hna.
    now rewrite (findAcc_unbound r c Hna).
  - cbn [findAcc]. rewrite E. rewrite IH; [reflexivity|].
    unfold inUseIds in Hnd |- *. cbn [filter] in Hnd.
    destruct (inUse a); [now apply NoDup_cons_iff in Hnd | exact Hnd].
Qed.

Lemma release_keeps_others pool c c' :
  c' <> c -> view (WsReleaseAcc pool c) c' = view pool c'.
Proof.
  intros Hne. unfold view.
  assert (H : findAcc (WsReleaseAcc pool c) c' = findAcc pool c' /\
              forall i, findAcc pool c' = Some i ->
                        slot (WsReleaseAcc pool c) i = slot pool i).
  { induction pool as [|a r IH]; [split; [reflexivity | discriminate]|].
    cbn [WsReleaseAcc]. destruct (inUse a && (id a =? c)) eqn:E.
    - apply andb_true_iff in E as [Eu Ec]. apply Z.eqb_eq in Ec.
      assert (Ec' : (id a =? c') = false) by (apply Z.eqb_neq; congruence).
      cbn [findAcc inUse id andb]. rewrite Eu, Ec'. cbn [andb]. split; [reflexivity|].
      intros i Hi. destruct (findAcc r c') as [j|]; [|discriminate].
      injection Hi as <-. reflexivity.
    - destruct IH as [IH1 IH2]. cbn [findAcc].
      destruct (inUse a && (id a =? c')).
      + split; [reflexivity|]. intros i [= <-]. reflexivity.
      + rewrite IH1. split; [reflexivity|].
        intros i Hi. destruct (findAcc r c') as [j|] eqn:Ej; [|discriminate].
        injection Hi as <-. unfold slot. cbn [nth]. apply (IH2 j eq_refl). }
  destruct H as [H1 H2]. rewrite H1.
  destruct (findAcc pool c') as [i|]; [now apply H2 | reflexivity].
Qed.

Lemma release_frees pool c :
  findAcc pool c <> None -> findFree (WsReleaseAcc pool c) <> None.
Proof.
  induction pool as [|a r IH]; [intros H; now contradiction H|].
  cbn [findAcc WsReleaseAcc]. destruct (inUse a && (id a =? c)).
  - intros _. cbn. discriminate.
  - intros H. cbn [findFree]. destruct (negb (inUse a)); [discriminate|].
    destruct (findAcc r c) as [j|]; [|now contradiction H].
    assert (Hr : findFree (WsReleaseAcc r c) <> None) by (apply IH; discriminate).
    destruct (findFree (WsReleaseAcc r c)); [discriminate | now contradiction Hr].
Qed.

(** After any history of events, a disconnect of [c] makes no call, leaves
    no slot bound to [c] (so whatever [c] had sent of an unfinished message
    is gone), leaves every other connection's accumulator as it was, and,
    if [c] held a slot, leaves a free slot for a new connection. *)
Theorem disconnect_releases_slot (history : list WsEvent) (c : Z) :
  let pool := fst (run s_acc history) in
  let pool' := fst (onWsEvent pool (EvDisconnect c)) in
  snd (onWsEvent pool (EvDisconnect c)) = [] /\
  findAcc pool' c = None /\ view pool' c = bind c /\
  (forall c', c' <> c -> view pool' c' = view pool c') /\
  (findAcc pool c <> None -> findFree pool' <> None).
Proof.
  intros pool pool'. subst pool'. cbn [onWsEvent fst snd].
  assert (Hnd : NoDup (inUseIds pool)) by (apply run_NoDup, s_acc_NoDup).
  pose proof (release_unbinds pool c Hnd) as Hu.
  split; [reflexivity|]. split; [exact Hu|]. split.
  - unfold view. now rewrite Hu.
  - split.
    + intros c' Hne. now apply release_keeps_others.
    + apply release_frees.
Qed.

Lemma step_length pool ev :
  List.length (fst (onWsEvent pool ev)) = List.length pool.
Proof.
  destruct ev as [c | c | c info data | c]; cbn [onWsEvent].
  - destruct (WsGetAcc pool c) as [[i p1]|] eqn:Hg; [|reflexivity].
    destruct (WsGetAcc_Some _ _ _ _ Hg) as (_ & Hl & _).
    cbn [fst]. now rewrite update_length.
  - cbn [fst]. induction pool as [|a r IH]; [reflexivity|].
    cbn [WsReleaseAcc]. destruct (inUse a && (id a =? c)); cbn [List.length];
      [reflexivity | now rewrite IH].
  - destruct (WsGetAcc pool c) as [[i p1]|] eqn:Hg; [|reflexivity].
    destruct (WsGetAcc_Some _ _ _ _ Hg) as (_ & Hl & _).
    destruct (onData c info data (slot p1 i)). cbn [fst]. now rewrite update_length.
  - reflexivity.
Qed.

Lemma run_length evs : forall pool,
  List.length (fst (run pool evs)) = List.length pool.
Proof.
  induction evs as [|ev r IH]; intros pool; [reflexivity|].
  cbn [run]. pose proof (step_length pool ev) as H1.
  destruct (onWsEvent pool ev) as [p1 c1]. cbn [fst] in H1.
  specialize (IH p1). destruct (run p1 r) as [p2 c2]. cbn [fst] in *. congruence.
Qed.

(** Whatever events arrive, the pool keeps its WS_MAX_CLIENTS slots, no
    two slots in use are bound to the same connection id, and so at most
    WS_MAX_CLIENTS connections hold an accumulator at any time. *)
Theorem pool_slots_stay_distinct (history : list WsEvent) :
  let pool := fst (run s_acc history) in
  List.length pool = WS_MAX_CLIENTS /\
  NoDup (inUseIds pool) /\
  (List.length (inUseIds pool) <= WS_MAX_CLIENTS)%nat.
Proof.
  intros pool. subst pool.
  pose proof (run_length history s_acc) as Hl.
  split; [exact Hl|]. split; [apply run_NoDup, s_acc_NoDup|].
  unfold inUseIds. rewrite length_map.
  change WS_MAX_CLIENTS with (List.length s_acc). rewrite <- Hl.
  apply filter_length_le.
Qed.

Lemma runAcc_silent c : forall junk a,
  Forall (fun f => final (fst f) = false /\
                   (index (fst f) = 0 -> wrap32 (len (fst f)) <= WS_MAX_PAYLOAD)) junk ->
  snd (runAcc c a junk) = [].
Proof.
  induction junk as [|[info data] r IH]; intros a H; [reflexivity|].
  inversion H as [|? ? [Hf Hlen] Hr]; subst. cbn [fst] in Hf, Hlen.
  cbn [runAcc].
  assert (E : snd (onData c info data a) = []).
  { unfold onData. destruct (index info =? 0) eqn:Ei.
    - apply Z.eqb_eq in Ei. specialize (Hlen Ei). cbn [expectedLen].
      assert (El : (wrap32 (len info) >? WS_MAX_PAYLOAD) = false).
      { destruct (wrap32 (len info) >? WS_MAX_PAYLOAD) eqn:G; [|reflexivity].
        apply Z.gtb_lt in G. lia. }
      rewrite El, Hf. reflexivity.
    - rewrite Hf. reflexivity. }
  destruct (onData c info data a) as [a1 c1]. cbn [snd] in E. subst c1.
  specialize (IH a1 Hr). destruct (runAcc c a1 r) as [a2 c2]. cbn [snd] in *.
  now subst c2.
Qed.

(** A connection that starts a new message before finishing the previous
    one loses the unfinished fragments: with at most WS_MAX_CLIENTS
    connections interleaved, if the frames of [c] are non-final frames (none
    announcing too large a message) followed by one complete text or binary
    message, exactly that message is forwarded for [c], with its own
    payload only. *)
Theorem new_message_discards_unfinished_fragments
    (fs : list (Z * Frame)) (c : Z) (junk m : list Frame) :
  (List.length (nodup Z.eq_dec (map fst fs)) <= WS_MAX_CLIENTS)%nat ->
  framesOf c fs = junk ++ m ->
  Forall (fun f => final (fst f) = false /\
                   (index (fst f) = 0 -> wrap32 (len (fst f)) <= WS_MAX_PAYLOAD)) junk ->
  textOrBinary m ->
  callsFor c (snd (run s_acc (dataEvents fs))) = [forwarded c m].
Proof.
  intros Hn Hfs Hjunk Hm.
  assert (Hp : callsFor c (snd (run s_acc (dataEvents fs)))
               = snd (runAcc c (view s_acc c) (framesOf c fs))).
  { apply (run_projection (nodup Z.eq_dec (map fst fs))).
    - apply NoDup_nodup.
    - constructor.
    - intros x [].
    - exact Hn.
    - apply Forall_forall. intros cf Hcf. apply nodup_In. now apply in_map. }
  rewrite Hp, Hfs, runAcc_app. cbn [snd].
  rewrite (runAcc_silent c junk _ Hjunk). cbn [app].
  destruct Hm as [Hm | Hm].
  - rewrite (runAcc_message c WS_TEXT m _ (or_introl eq_refl) Hm). reflexivity.
  - rewrite (runAcc_message c WS_BINARY m _ (or_intror eq_refl) Hm). reflexivity.
Qed.

(** Connection 1 abandons a text message after one fragment and sends a
    complete one-frame message. *)
Lemma new_message_discards_unfinished_fragments_witness :
  callsFor 1 (snd (run s_acc (dataEvents
     [ (1, frame 0 WS_TEXT false 4 [x61; x62]);
       (1, frame 0 WS_TEXT true 2 [x7b; x7d]) ])))
  = [CallHandleWsMessage 1 [x7b; x7d]].
Proof.
  apply (new_message_discards_unfinished_fragments
           [ (1, frame 0 WS_TEXT false 4 [x61; x62]);
             (1, frame 0 WS_TEXT true 2 [x7b; x7d]) ] 1
           [frame 0 WS_TEXT false 4 [x61; x62]]
           [frame 0 WS_TEXT true 2 [x7b; x7d]]).
  - vm_compute. repeat constructor.
  - reflexivity.
  - constructor; [|constructor]. split; [reflexivity|].
    intros _. vm_compute. discriminate.
  - left. unfold message, frame. cbn [index len opcode final].
    repeat split; try reflexivity. vm_compute. discriminate.
Defined.

End AccMore.

(** ** Further properties of the dispatcher and its handlers *)

Module DispatchMore.
Import Dispatch DispatchFacts Vocab.

(** A payload the parser rejects is answered with exactly one message to
    the sender, an object whose CMD is error; no handler runs and the state
    is unchanged. *)
Theorem invalid_payload_single_error_reply
    (deserializeJson : list byte -> DeserializationResult)
    (client : Z) (payload : list byte) (e : string) (env : Env) (st : State) :
  deserializeJson payload = DeserializationError e ->
  exists text,
    handleWsMessage deserializeJson client payload env st
    = Done st [ClientText client text] /\ cmdIs "error" text = true.
Proof.
  intros Hp. unfold handleWsMessage. rewrite Hp.
  destruct (reply_cmd_first (JString "error")
              [("msg", JString ("invalid json payload" +++ e))]) as [tail Ht].
  { constructor; [cbn; discriminate | constructor]. }
  rewrite Ht.
  destruct (send_cmd_first client "error" tail eq_refl) as (text & -> & Hc).
  now exists text.
Qed.

Lemma invalid_payload_single_error_reply_witness :
  exists text,
    handleWsMessage (fun _ => DeserializationError "EmptyInput") 3 [] bench powerUp
    = Done powerUp [ClientText 3 text] /\ cmdIs "error" text = true.
Proof.
  apply (invalid_payload_single_error_reply
           (fun _ => DeserializationError "EmptyInput") 3 [] "EmptyInput").
  reflexivity.
Defined.

Lemma find_first name h : forall table,
  NoDup (map fst table) -> In (name, h) table -> find name table = Some h.
Proof.
  induction table as [|[n g] r IH]; intros Hnd Hin; [destruct Hin|].
  cbn [map fst] in Hnd. apply NoDup_cons_iff in Hnd as [Hn Hr].
  cbn [find]. destruct Hin as [E | Hin].
  - injection E as -> ->. now rewrite String.eqb_refl.
  - destruct (String.eqb n name) eqn:E.
    + apply String.eqb_eq in E. subst n. exfalso. apply Hn.
      change name with (fst (name, h)). now apply in_map.
    + now apply IH.
Qed.

Lemma ws_commands_NoDup : NoDup (map fst ws_commands).
Proof.
  cbn. repeat (constructor;
    [intros H; repeat (destruct H as [H | H]; [discriminate H|]); exact H|]).
  constructor.
Qed.

Lemma table_name_c_str name h : In (name, h) ws_commands -> c_str name = name.
Proof.
  intros Hin. cbn [ws_commands In] in Hin.
  repeat (destruct Hin as [Hin | Hin]; [injection Hin as <- _; reflexivity|]).
  destruct Hin.
Qed.

(** A parsed document whose CMD is the name of a table entry is handled by
    that entry's handler and by nothing else: the result of
    [handleWsMessage] is the handler's result. *)
Theorem known_command_reaches_its_handler
    (deserializeJson : list byte -> DeserializationResult)
    (name : string) (h : WsCommandHandler)
    (client : Z) (payload : list byte) (doc : JsonDocument) (env : Env) (st : State) :
  In (name, h) ws_commands ->
  deserializeJson payload = DeserializationOk doc ->
  Json.get doc "CMD" = JString name ->
  handleWsMessage deserializeJson client payload env st = h client doc env st.
Proof.
  intros Hin Hp Hc. unfold handleWsMessage. rewrite Hp, Hc.
  cbn [or_cstr]. rewrite (table_name_c_str name h Hin).
  now rewrite (find_first name h ws_commands ws_commands_NoDup Hin).
Qed.

Lemma known_command_reaches_its_handler_witness :
  handleWsMessage (fun _ => DeserializationOk moveDoc) 3 [] bench powerUp
  = ws_cmd_move 3 moveDoc bench powerUp.
Proof.
  apply (known_command_reaches_its_handler
           (fun _ => DeserializationOk moveDoc) "move" ws_cmd_move).
  - cbn. auto 10.
  - reflexivity.
  - reflexivity.
Defined.

(** [ws_getU8] and [ws_getU16] clamp: an integer is brought into 0..255,
    respectively 0..65535, a null or missing value gives the default, and
    whatever the value the result of [ws_getU8] fits a byte and that of
    [ws_getU16] sixteen bits when the default does. *)
Theorem getU8_getU16_clamp (v : JsonVariant) (z def : Z) :
  (INT_MIN <= z <= INT_MAX ->
   ws_getU8 (JInt z) def = Z.max 0 (Z.min 255 z) /\
   ws_getU16 (JInt z) def = Z.max 0 (Z.min 65535 z)) /\
  ws_getU8 JNull def = def /\ ws_getU16 JNull def = def /\
  (0 <= def <= 255 -> 0 <= ws_getU8 v def <= 255) /\
  (0 <= def <= 65535 -> 0 <= ws_getU16 v def <= 65535).
Proof.
  assert (C8 : forall x, to_uint8 (if (if x <? 0 then 0 else x) >? 255 then 255
                                   else (if x <? 0 then 0 else x))
                         = Z.max 0 (Z.min 255 x)).
  { intros x. unfold to_uint8. destruct (Z.ltb_spec x 0).
    - cbn. lia.
    - destruct (Z.gtb_spec x 255); rewrite Z.mod_small; lia. }
  assert (C16 : forall x, (if (if x <? 0 then 0 else x) >? 65535 then 65535
                           else (if x <? 0 then 0 else x)) mod 65536
                          = Z.max 0 (Z.min 65535 x)).
  { intros x. destruct (Z.ltb_spec x 0).
    - cbn. lia.
    - destruct (Z.gtb_spec x 65535); rewrite Z.mod_small; lia. }
  split; [|split; [reflexivity | split; [reflexivity|]]].
  - intros Hz. unfold ws_getU8, ws_getU16. cbn [isNull as_int].
    assert (E : (INT_MIN <=? z) && (z <=? INT_MAX) = true).
    { apply andb_true_iff. split; apply Z.leb_le; lia. }
    rewrite E. cbv zeta. now rewrite C8, C16.
  - split; intros Hd.
    + unfold ws_getU8. destruct (isNull v); [exact Hd|]. cbv zeta. rewrite C8. lia.
    + unfold ws_getU16. destruct (isNull v); [exact Hd|]. cbv zeta. rewrite C16. lia.
Qed.

Lemma getU8_getU16_clamp_witness :
  ws_getU8 (JInt 300) 1 = 255 /\ ws_getU16 (JInt (-5)) 1500 = 0.
Proof.
  assert (H1 : INT_MIN <= 300 <= INT_MAX) by (unfold INT_MIN, INT_MAX; lia).
  assert (H2 : INT_MIN <= -5 <= INT_MAX) by (unfold INT_MIN, INT_MAX; lia).
  split.
  - exact (proj1 (proj1 (getU8_getU16_clamp JNull 300 1) H1)).
  - exact (proj2 (proj1 (getU8_getU16_clamp JNull (-5) 1500) H2)).
Defined.

Lemma send_pair client cmd k v :
  k <> "CMD" ->
  WsSendJson (Some client) (reply [("CMD", JString cmd); (k, JString v)])
  = [ClientText client (pairReply cmd k v)].
Proof.
  intros Hk. unfold reply. cbn [fold_left fst snd].
  change (Json.set JNull "CMD" (JString cmd)) with (JObject [("CMD", JString cmd)]).
  rewrite (set_keeps_cmd (JString cmd) (JString v) k [] Hk).
  reflexivity.
Qed.

(** [config_rd] answers once for every member of the request whose key,
    read as a C string (up to its first NUL), is a configuration
    parameter, in the order of the request, each answer being the object
    with CMD config_rd and that key with its stored value; other members,
    and a request that is not an object, get no answer at all.  Nothing is
    written and the state is unchanged. *)
Theorem config_rd_answers_each_parameter
    (client : Z) (doc : JsonDocument) (env : Env) (st : State) :
  ws_cmd_config_rd client doc env st
  = Done st (map (fun kv => ClientText client
                              (pairReply "config_rd" (fst kv) (configGet env (fst kv))))
                 (paramMembers doc)).
Proof.
  unfold ws_cmd_config_rd, paramMembers. f_equal.
  induction (Json.members doc) as [|[k v] r IH]; [reflexivity|].
  cbn [config_rd_loop map filter c_key fst snd].
  destruct (configIsParamKey (c_str k)) eqn:E.
  - rewrite (send_pair client "config_rd" (c_str k) _ (param_key_not_cmd _ E)).
    cbn [map app fst]. now rewrite IH.
  - cbn [app]. exact IH.
Qed.

(** [config_wr] stores and answers once for every member whose key, read
    as a C string (up to its first NUL), is a configuration parameter, in
    order: the value stored and echoed is the member's string up to its
    first NUL, or the empty string when it is not a string.  Whether or
    not any key was recognised it then flags the motors for
    re-initialisation and asks the telemetry to reload. *)
Theorem config_wr_stores_each_parameter
    (client : Z) (doc : JsonDocument) (env : Env) (st : State) :
  ws_cmd_config_wr client doc env st
  = Done {| joyX := joyX st; joyY := joyY st; motorsReinit := true;
            lineBuf := lineBuf st |}
         (flat_map (fun kv =>
                      [ConfigPut (fst kv) (writtenValue (snd kv));
                       ClientText client
                         (pairReply "config_wr" (fst kv) (writtenValue (snd kv)))])
                   (paramMembers doc)
          ++ [TelemetryReload]).
Proof.
  unfold ws_cmd_config_wr, paramMembers, motorsReload. f_equal. f_equal.
  induction (Json.members doc) as [|[k v] r IH]; [reflexivity|].
  cbn [config_wr_loop map filter c_key fst snd].
  destruct (configIsParamKey (c_str k)) eqn:E.
  - rewrite (send_pair client "config_wr" (c_str k) _ (param_key_not_cmd _ E)).
    cbn [flat_map app fst snd]. unfold writtenValue at 1 2. now rewrite IH.
  - cbn [app]. exact IH.
Qed.

Lemma store_first : forall buf i s,
  (i < List.length buf)%nat -> firstn (S i) (store i s buf) = firstn i buf ++ [s].
Proof.
  induction buf as [|b r IH]; intros [|j] s H; cbn [List.length] in H; try lia.
  - reflexivity.
  - cbn [store firstn app]. f_equal. apply IH. lia.
Qed.

Lemma store_skip : forall buf i j s,
  (i < j)%nat -> skipn j (store i s buf) = skipn j buf.
Proof.
  induction buf as [|b r IH]; intros [|i] [|j] s H; try lia; try reflexivity.
  cbn [store skipn]. apply IH. lia.
Qed.

Lemma store_length : forall buf i s, List.length (store i s buf) = List.length buf.
Proof.
  induction buf as [|b r IH]; intros [|i] s; cbn [store List.length]; auto.
Qed.

Lemma sendString_loop_spec : forall arr buf k,
  List.length buf = DISPLAY_MAX_LINES -> (k <= DISPLAY_MAX_LINES)%nat ->
  sendString_loop arr buf (Z.of_nat k)
  = if (k + List.length (strings arr) <=? DISPLAY_MAX_LINES)%nat
    then inl (firstn k buf ++ strings arr ++ skipn (k + List.length (strings arr)) buf,
              Z.of_nat (k + List.length (strings arr)))
    else inr 16.
Proof.
  induction arr as [|v r IH]; intros buf k Hlen Hk; cbn [sendString_loop strings].
  - cbn [List.length app]. rewrite Nat.add_0_r.
    assert (E : (k <=? DISPLAY_MAX_LINES)%nat = true) by now apply Nat.leb_le.
    rewrite E, firstn_skipn. reflexivity.
  - destruct (as_cstr v) as [s|]; [|now apply IH].
    cbn [List.length]. unfold DISPLAY_MAX_LINES in *.
    destruct (Z.ltb_spec (Z.of_nat k) (Z.of_nat 16)) as [Hlt | Hge].
    + assert (Hk' : (k < 16)%nat) by lia.
      assert (Hs : to_uint8 (Z.of_nat k + 1) = Z.of_nat (S k)).
      { unfold to_uint8. rewrite Z.mod_small; lia. }
      rewrite Hs, Nat2Z.id.
      rewrite (IH (store k s buf) (S k)) by (rewrite ?store_length; lia).
      replace (S k + List.length (strings r))%nat
        with (k + S (List.length (strings r)))%nat by lia.
      destruct (k + S (List.length (strings r)) <=? 16)%nat; [|reflexivity].
      rewrite store_first by lia.
      rewrite store_skip by lia.
      rewrite <- app_assoc. reflexivity.
    + assert (E : (k + S (List.length (strings r)) <=? 16)%nat = false)
        by (apply Nat.leb_gt; lia).
      rewrite E. f_equal. lia.
Qed.

(** [displaymsg] with an array [strings]: when the array holds at most
    DISPLAY_MAX_LINES strings they are copied, each up to its first NUL,
    to the front of the line buffer in order (elements that are not
    strings are skipped, the rest
    of the buffer keeps its old content) and their number is what the
    display is told to load; with more than DISPLAY_MAX_LINES strings the
    handler stores at index 16, outside the buffer. *)
Theorem displaymsg_fills_line_buffer
    (client : Z) (doc : JsonDocument) (env : Env) (st : State)
    (arr : list JsonVariant) :
  Json.get doc "strings" = JArray arr ->
  List.length (lineBuf st) = DISPLAY_MAX_LINES ->
  if (List.length (strings arr) <=? DISPLAY_MAX_LINES)%nat
  then exists text,
    ws_cmd_sendString client doc env st
    = Done {| joyX := joyX st; joyY := joyY st; motorsReinit := motorsReinit st;
              lineBuf := strings arr ++ skipn (List.length (strings arr)) (lineBuf st) |}
           [DisplayLoadAutoScroll (ws_getU8 (Json.get doc "scroll") 0)
              (Z.of_nat (List.length (strings arr)))
              (ws_getU8 (Json.get doc "size") 1)
              (ws_getBool (Json.get doc "invert") false)
              (ws_getBool (Json.get doc "truncate") false)
              (ws_getU16 (Json.get doc "delay") 1500)
              (ws_getBool (Json.get doc "loop") false);
            ClientText client text]
    /\ cmdIs "displaymsg" text = true
  else ws_cmd_sendString client doc env st = OutOfBounds 16.
Proof.
  intros Harr Hlen. unfold ws_cmd_sendString. rewrite Harr.
  change 0 with (Z.of_nat 0).
  rewrite (sendString_loop_spec arr (lineBuf st) 0 Hlen) by lia.
  cbn [Nat.add firstn app].
  destruct (List.length (strings arr) <=? DISPLAY_MAX_LINES)%nat; [|reflexivity].
  destruct (reply_cmd_first (JString "displaymsg") [("status", JString "OK")])
    as [tail Ht].
  { constructor; [cbn; discriminate | constructor]. }
  rewrite Ht.
  destruct (send_cmd_first client "displaymsg" tail eq_refl) as (text & -> & Hc).
  exists text. split; [reflexivity | exact Hc].
Qed.

(** Two strings and a number: the two strings are loaded. *)
Lemma displaymsg_fills_line_buffer_witness :
  exists text,
    ws_cmd_sendString 3
      (JObject [("CMD", JString "displaymsg");
                ("strings", JArray [JString "hello"; JInt 7; JString "robot"])])
      bench powerUp
    = Done {| joyX := 0; joyY := 0; motorsReinit := false;
              lineBuf := ["hello"; "robot"] ++ repeat EmptyString 14 |}
           [DisplayLoadAutoScroll 0 2 1 false false 1500 false; ClientText 3 text]
    /\ cmdIs "displaymsg" text = true.
Proof.
  exact (displaymsg_fills_line_buffer 3
           (JObject [("CMD", JString "displaymsg");
                     ("strings", JArray [JString "hello"; JInt 7; JString "robot"])])
           bench powerUp [JString "hello"; JInt 7; JString "robot"]
           eq_refl eq_refl).
Defined.

End DispatchMore.

(** ** Further properties of the outbound queue and the tick *)

Module TickMore.
Import Dispatch Tick Vocab.

Lemma clients_seen_only_below_limit_aux (limit : nat) (clients : list Z) :
  websocketAreClients limit clients = true ->
  exists idClient, In idClient clients /\ 0 <= idClient < Z.of_nat limit.
Proof.
  unfold websocketAreClients, hasClient. rewrite existsb_exists.
  intros (i & Hi & Hc). apply in_map_iff in Hi as (n & <- & Hn).
  apply in_seq in Hn. apply existsb_exists in Hc as (x & Hx & E).
  apply Z.eqb_eq in E. subst x. exists (Z.of_nat n). split; [exact Hx | lia].
Qed.

(** [websocketAreClients] reports a client exactly when some connected
    client has an id from 0 up to, not including, the library's client
    limit: it probes those ids only. *)
Theorem clients_seen_only_below_limit (limit : nat) (clients : list Z) :
  websocketAreClients limit clients = true
  <-> exists idClient, In idClient clients /\ 0 <= idClient < Z.of_nat limit.
Proof.
  split; [apply clients_seen_only_below_limit_aux|].
  unfold websocketAreClients, hasClient. rewrite existsb_exists.
  intros (i & Hi & Hr). exists i. split.
  - apply in_map_iff. exists (Z.to_nat i). split; [lia|].
    apply in_seq. lia.
  - apply existsb_exists. exists i. split; [exact Hi | apply Z.eqb_refl].
Qed.

Lemma clients_seen_only_below_limit_witness :
  websocketAreClients 8 [12; 3] = true.
Proof.
  apply (proj2 (clients_seen_only_below_limit 8 [12; 3])).
  exists 3. split; [right; left; reflexivity | lia].
Defined.

(** Connected clients whose ids all lie at or above the limit are not
    seen: a message offered to the queue is refused although its
    allocation would succeed, and the tick sends nothing and stops the
    motors. *)
Theorem client_beyond_limit_is_not_seen
    (limit : nat) (clients : list Z) (msg : string)
    (Fsd : FifoStringDyn.t) (st : State) :
  Forall (fun idClient => Z.of_nat limit <= idClient) clients ->
  websocketAsyncMsg limit clients true msg Fsd = (false, Fsd) /\
  websocketTick limit clients Fsd st
  = (Fsd, {| joyX := 0; joyY := 0; motorsReinit := motorsReinit st;
             lineBuf := lineBuf st |}, [DriveTank 0 0]).
Proof.
  intros Hall.
  assert (E : websocketAreClients limit clients = false).
  { destruct (websocketAreClients limit clients) eqn:G; [|reflexivity].
    apply clients_seen_only_below_limit_aux in G as (i & Hi & Hr).
    rewrite Forall_forall in Hall. specialize (Hall i Hi). lia. }
  split.
  - unfold websocketAsyncMsg. now rewrite E.
  - now apply TickFacts.tick_without_clients.
Qed.

Lemma client_beyond_limit_is_not_seen_witness :
  websocketAsyncMsg 8 [9] true "telemetry" [] = (false, []).
Proof.
  refine (proj1 (client_beyond_limit_is_not_seen 8 [9] "telemetry" [] powerUp _)).
  repeat constructor. vm_compute. discriminate.
Defined.

Lemma tick_with_clients limit clients Fsd st :
  websocketAreClients limit clients = true ->
  websocketTick limit clients Fsd st
  = (skipn 1 Fsd, st, map TextAll (firstn 1 Fsd)).
Proof.
  intros H. unfold websocketTick, websocketSendAsyncMsg. rewrite H.
  destruct Fsd as [|m r]; reflexivity.
Qed.

(** The queue is first in, first out, one message per tick: while a client
    is seen, messages accepted by [websocketAsyncMsg] are appended in the
    order offered, and [n] ticks broadcast the first [n] queued messages in
    that order, leave the rest queued and never touch the motors. *)
Theorem queue_drains_in_order
    (limit : nat) (clients : list Z) (msgs : list string) (n : nat)
    (Fsd : FifoStringDyn.t) (st : State) :
  websocketAreClients limit clients = true ->
  enqueueAll limit clients msgs Fsd = (true, Fsd ++ msgs) /\
  ticks limit clients n Fsd st = (skipn n Fsd, st, map TextAll (firstn n Fsd)).
Proof.
  intros H. split.
  - revert Fsd. induction msgs as [|m r IH]; intros Fsd; cbn [enqueueAll].
    + now rewrite app_nil_r.
    + unfold websocketAsyncMsg. rewrite H. cbn [FifoStringDyn.push].
      rewrite IH, <- app_assoc. reflexivity.
  - revert Fsd. induction n as [|k IH]; intros Fsd; cbn [ticks]; [reflexivity|].
    rewrite (tick_with_clients _ _ _ _ H), IH.
    destruct Fsd as [|m r]; cbn [skipn firstn map app].
    + now rewrite skipn_nil, firstn_nil.
    + reflexivity.
Qed.

Lemma queue_drains_in_order_witness :
  ticks 8 [1] 2 ["a"; "b"; "c"] powerUp = (["c"], powerUp, [TextAll "a"; TextAll "b"]).
Proof.
  refine (proj2 (queue_drains_in_order 8 [1] [] 2 ["a"; "b"; "c"] powerUp _)).
  reflexivity.
Defined.

End TickMore.

(** ** Properties of the padding helpers *)

Module UtilFacts.
Import Util.

Lemma length_append (a b : string) :
  String.length (a +++ b) = (String.length a + String.length b)%nat.
Proof. induction a as [|x a IH]; simpl; [reflexivity | now rewrite IH]. Qed.

Lemma length_pad (n : nat) (c : ascii) : String.length (pad n c) = n.
Proof. induction n as [|k IH]; simpl; [reflexivity | now rewrite IH]. Qed.

Lemma to_int32_small (z : Z) : INT_MIN <= z <= INT_MAX -> to_int32 z = z.
Proof.
  unfold INT_MIN, INT_MAX, to_int32. intros H. rewrite Z.mod_small; lia.
Qed.

(** [padLeft]: when base and text together are shorter than the width,
    the result is the base, then padding, then the text, and is exactly
    [totalWidth] characters long; when they are not, the result is the
    text alone, without the base. *)
Theorem padLeft_fills_width (base text : string) (totalWidth : Z) (padChar : ascii) :
  (strlen base + strlen text < totalWidth <= INT_MAX ->
   padLeft base text totalWidth padChar
   = (base +++ pad (Z.to_nat (totalWidth - strlen base - strlen text)) padChar) +++ text
   /\ strlen (padLeft base text totalWidth padChar) = totalWidth) /\
  (INT_MIN <= totalWidth - strlen base - strlen text <= 0 ->
   padLeft base text totalWidth padChar = text).
Proof.
  unfold padLeft, strlen. split; intros H.
  - rewrite to_int32_small by (unfold INT_MIN, INT_MAX in *; lia).
    destruct (Z.leb_spec (totalWidth - Z.of_nat (String.length base)
                          - Z.of_nat (String.length text)) 0); [lia|].
    split; [reflexivity|].
    rewrite !length_append, length_pad. lia.
  - rewrite to_int32_small by (unfold INT_MIN, INT_MAX in *; lia).
    destruct (Z.leb_spec (totalWidth - Z.of_nat (String.length base)
                          - Z.of_nat (String.length text)) 0); [reflexivity | lia].
Qed.

(** The display lines of the main loop: a short value is right-aligned in
    21 columns, a value of 16 characters or more loses its label. *)
Lemma padLeft_fills_width_witness :
  padLeft "SSID:" "ROBORA2025" 21 " " = "SSID:      ROBORA2025" /\
  padLeft "PASS:" "a-sixteen-chars!" 21 " " = "a-sixteen-chars!".
Proof.
  split.
  - refine (proj1 (proj1 (padLeft_fills_width "SSID:" "ROBORA2025" 21 " ") _)).
    vm_compute. split; [reflexivity | discriminate].
  - refine (proj2 (padLeft_fills_width "PASS:" "a-sixteen-chars!" 21 " ") _).
    vm_compute. split; discriminate.
Defined.

(** [padRight]: the base only counts towards the width; the result never
    contains it.  When base and text together are shorter than the width
    the result is the text followed by padding,
    [totalWidth - base.length()] characters in all; otherwise it is the
    text alone. *)
Theorem padRight_drops_base (base text : string) (totalWidth : Z) (padChar : ascii) :
  (strlen base + strlen text < totalWidth <= INT_MAX ->
   padRight base text totalWidth padChar
   = text +++ pad (Z.to_nat (totalWidth - strlen base - strlen text)) padChar
   /\ strlen (padRight base text totalWidth padChar) = totalWidth - strlen base) /\
  (INT_MIN <= totalWidth - strlen base - strlen text <= 0 ->
   padRight base text totalWidth padChar = text).
Proof.
  unfold padRight, strlen. split; intros H.
  - rewrite to_int32_small by (unfold INT_MIN, INT_MAX in *; lia).
    destruct (Z.leb_spec (totalWidth - Z.of_nat (String.length base)
                          - Z.of_nat (String.length text)) 0); [lia|].
    split; [reflexivity|].
    rewrite !length_append, length_pad. lia.
  - rewrite to_int32_small by (unfold INT_MIN, INT_MAX in *; lia).
    destruct (Z.leb_spec (totalWidth - Z.of_nat (String.length base)
                          - Z.of_nat (String.length text)) 0); [reflexivity | lia].
Qed.

Lemma padRight_drops_base_witness :
  padRight "SSID:" "PIPPO" 12 "." = "PIPPO..".
Proof.
  refine (proj1 (proj1 (padRight_drops_base "SSID:" "PIPPO" 12 ".") _)).
  vm_compute. split; [reflexivity | discriminate].
Defined.

(** [padCenter]: a text shorter than the width gets the same padding,
    half the difference rounded down, on both sides; the result has
    exactly [totalWidth] characters when the difference is even and one
    fewer when it is odd. *)
Theorem padCenter_pads_both_sides_alike (text : string) (totalWidth : Z) (padChar : ascii) :
  strlen text < totalWidth <= INT_MAX ->
  let side := Z.to_nat ((totalWidth - strlen text) / 2) in
  padCenter text totalWidth padChar = (pad side padChar +++ text) +++ pad side padChar /\
  strlen (padCenter text totalWidth padChar)
  = totalWidth - (totalWidth - strlen text) mod 2.
Proof.
  intros H side. subst side. unfold padCenter, strlen in *.
  rewrite to_int32_small by (unfold INT_MIN, INT_MAX in *; lia).
  destruct (Z.leb_spec (totalWidth - Z.of_nat (String.length text)) 0); [lia|].
  split; [reflexivity|].
  rewrite !length_append, !length_pad.
  pose proof (Z.div_mod (totalWidth - Z.of_nat (String.length text)) 2) as Hd.
  pose proof (Z.mod_pos_bound (totalWidth - Z.of_nat (String.length text)) 2) as Hm.
  assert (0 <= (totalWidth - Z.of_nat (String.length text)) / 2)
    by (apply Z.div_pos; lia).
  lia.
Qed.

Lemma padCenter_pads_both_sides_alike_witness :
  padCenter "OK" 6 " " = "  OK  " /\ padCenter "OK" 7 " " = "  OK  ".
Proof.
  split.
  - refine (proj1 (padCenter_pads_both_sides_alike "OK" 6 " " _)).
    vm_compute. split; [reflexivity | discriminate].
  - refine (proj1 (padCenter_pads_both_sides_alike "OK" 7 " " _)).
    vm_compute. split; [reflexivity | discriminate].
Defined.

End UtilFacts.

(** ** Properties of the function keys *)

Module FnKeysFacts.
Import FnKeys.

Lemma clearAll_all_off (s : list bool) :
  List.length s = FN_MAX -> clearAll s = repeat false FN_MAX.
Proof.
  intros H.
  destruct s as [|b0 [|b1 [|b2 [|b3 [|b4 [|b5 [|b6 [|b7 [|b8 s]]]]]]]]];
    try discriminate H.
  reflexivity.
Qed.

Lemma assign_only (n : nat) (on : bool) :
  (n < FN_MAX)%nat -> assign n on (repeat false FN_MAX) = only n on.
Proof.
  unfold FN_MAX. intros H.
  do 8 (destruct n as [|n]; [destruct on; reflexivity|]). lia.
Qed.

Lemma fnSet_state_exact (idx : Z) (on : bool) (st : State) :
  List.length (fnState st) = FN_MAX ->
  (0 <= idx < Z.of_nat FN_MAX ->
   fnState (fnSet idx on st) = only (Z.to_nat idx) on /\
   fnExecutables (fnSet idx on st) = fnExecutables st) /\
  (Z.of_nat FN_MAX <= idx -> fnSet idx on st = st).
Proof.
  intros Hlen. unfold fnSet. split; intros H.
  - destruct (Z.geb_spec idx (Z.of_nat FN_MAX)); [lia|].
    cbn [fnState fnExecutables]. split; [|reflexivity].
    rewrite (clearAll_all_off _ Hlen). apply assign_only. lia.
  - destruct (Z.geb_spec idx (Z.of_nat FN_MAX)); [reflexivity | lia].
Qed.

(** [fnSet] is exclusive: for a key index below FN_MAX the addressed key
    takes the requested state and every other key is switched off, so
    switching any key off switches all keys off; an index of FN_MAX or more
    changes nothing.  Registered functions are never affected. *)
Theorem fnSet_is_exclusive (idx : Z) (on : bool) (st : State) :
  List.length (fnState st) = FN_MAX ->
  (0 <= idx < Z.of_nat FN_MAX ->
   fnState (fnSet idx on st) = only (Z.to_nat idx) on /\
   fnExecutables (fnSet idx on st) = fnExecutables st) /\
  (Z.of_nat FN_MAX <= idx -> fnSet idx on st = st).
Proof. apply fnSet_state_exact. Qed.

Lemma fnSet_is_exclusive_witness :
  fnState (fnSet 5 false
             {| fnExecutables := repeat None FN_MAX;
                fnState := [true; false; true; false; false; true; false; false] |})
  = repeat false FN_MAX.
Proof.
  refine (proj1 (proj1 (fnSet_is_exclusive 5 false
                          {| fnExecutables := repeat None FN_MAX;
                             fnState := [true; false; true; false; false; true;
                                         false; false] |} _) _)).
  - reflexivity.
  - vm_compute. split; [discriminate | reflexivity].
Defined.

Lemma fnSet_state (idx : Z) (on : bool) (st : State) :
  List.length (fnState st) = FN_MAX ->
  exists n b, (n < FN_MAX)%nat /\ fnState (fnSet idx on st) = only n b
              \/ fnSet idx on st = st.
Proof.
  intros Hlen. unfold fnSet.
  destruct (Z.geb_spec idx (Z.of_nat FN_MAX)) as [Hge | Hlt].
  - exists O, false. now right.
  - exists (Z.to_nat idx), on. left. cbn [fnState].
    assert (Hn : (Z.to_nat idx < FN_MAX)%nat) by (unfold FN_MAX in *; lia).
    split; [exact Hn|].
    rewrite (clearAll_all_off _ Hlen). now apply assign_only.
Qed.

Lemma only_length n b : List.length (only n b) = FN_MAX.
Proof. unfold only. now rewrite length_map, length_seq. Qed.

Lemma fnSets_state : forall calls st n b,
  (n < FN_MAX)%nat -> fnState st = only n b ->
  exists n' b', (n' < FN_MAX)%nat /\ fnState (fnSets calls st) = only n' b' /\
                fnExecutables (fnSets calls st) = fnExecutables st.
Proof.
  induction calls as [|[idx on] r IH]; intros st n b Hn Hs; cbn [fnSets].
  - now exists n, b.
  - assert (Hlen : List.length (fnState st) = FN_MAX)
      by (rewrite Hs; apply only_length).
    assert (He : fnExecutables (fnSet idx on st) = fnExecutables st).
    { unfold fnSet. destruct (idx >=? Z.of_nat FN_MAX); reflexivity. }
    destruct (fnSet_state idx on st Hlen) as (n1 & b1 & [[Hn1 H1] | H1]).
    + destruct (IH _ n1 b1 Hn1 H1) as (n' & b' & Hn' & H' & He').
      exists n', b'. repeat split; auto. congruence.
    + rewrite H1. now apply (IH st n b).
Qed.

Lemma tick_only n b (table : list (option nat)) :
  (n < FN_MAX)%nat ->
  (List.length (fnExecuteTick {| fnExecutables := table; fnState := only n b |}) <= 1)%nat.
Proof.
  unfold FN_MAX. intros H. unfold fnExecuteTick. cbn [fnState fnExecutables].
  do 8 (destruct n as [|n];
        [destruct b; cbn;
         repeat match goal with
                | |- context [match nth ?i table None with _ => _ end] =>
                    destruct (nth i table None)
                end; cbn; lia|]).
  lia.
Qed.

(** After [fnInit], whatever calls of [fnSet] follow, at most one key is
    on, and so one [fnExecuteTick] calls at most one registered
    function. *)
Theorem at_most_one_function_runs (calls : list (Z * bool)) (st : State) :
  List.length (fnState st) = FN_MAX ->
  (List.length (fnExecuteTick (fnSets calls (fnInit st))) <= 1)%nat.
Proof.
  intros Hlen.
  assert (H0 : fnState (fnInit st) = only 0 false).
  { cbn [fnInit fnState]. now rewrite (clearAll_all_off _ Hlen). }
  destruct (fnSets_state calls (fnInit st) 0 false) as (n & b & Hn & Hs & _);
    [unfold FN_MAX; lia | exact H0 |].
  destruct (fnSets calls (fnInit st)) as [table s]. cbn [fnState] in Hs. subst s.
  now apply tick_only.
Qed.

Lemma at_most_one_function_runs_witness :
  (List.length
     (fnExecuteTick
        (fnSets [(1%Z, true); (2%Z, true); (9%Z, true)]
           (fnInit {| fnExecutables := [Some 10; Some 11; Some 12; None; None; None;
                                        None; None]%nat;
                      fnState := repeat true FN_MAX |}))) <= 1)%nat.
Proof.
  apply (at_most_one_function_runs [(1, true); (2, true); (9, true)]).
  reflexivity.
Defined.

Lemma assign_nth {A} (d : A) : forall (a : list A) i j v,
  (i < List.length a)%nat ->
  nth j (assign i v a) d = if Nat.eqb j i then v else nth j a d.
Proof.
  induction a as [|x r IH]; intros [|i] [|j] v H; cbn [List.length] in H;
    try lia; try reflexivity.
  cbn [assign nth]. rewrite IH by lia. reflexivity.
Qed.

Lemma fnRegister_loop_spec func : forall fuel i table,
  (i + fuel = List.length table)%nat ->
  let r := fst (fnRegister_loop fuel i func table) in
  let table' := snd (fnRegister_loop fuel i func table) in
  (r = -1 /\ table' = table /\
   forall j, (i <= j < List.length table)%nat -> nth j table None <> None)
  \/ (exists k, r = Z.of_nat k /\ (i <= k < List.length table)%nat /\
                nth k table None = None /\ table' = assign k func table /\
                forall j, (i <= j < k)%nat -> nth j table None <> None).
Proof.
  induction fuel as [|f IH]; intros i table Hl; cbn [fnRegister_loop].
  - left. cbn. repeat split; auto. intros j Hj. lia.
  - destruct (nth i table None) as [g|] eqn:E.
    + destruct (IH (S i) table ltac:(lia)) as [(Hr & Ht & Hall) | (k & Hr & Hk & Hn & Ht & Hall)].
      * left. repeat split; auto. intros j Hj.
        destruct (Nat.eq_dec j i) as [-> | Hne]; [congruence | apply Hall; lia].
      * right. exists k. repeat split; auto; try lia. intros j Hj.
        destruct (Nat.eq_dec j i) as [-> | Hne]; [congruence | apply Hall; lia].
    + right. exists i. cbn [fst snd]. repeat split; auto; lia.
Qed.

(** [fnRegister] puts the function into the first slot that holds no
    function and returns that slot's index, leaving every other slot and
    all key states untouched; when all FN_MAX slots hold a function it
    returns -1 and changes nothing. *)
Theorem fnRegister_takes_first_free_slot (f : nat) (st : State) :
  List.length (fnExecutables st) = FN_MAX ->
  let r := fst (fnRegister (Some f) st) in
  let st' := snd (fnRegister (Some f) st) in
  fnState st' = fnState st /\
  ((r = -1 /\ st' = st /\
    forall j, (j < FN_MAX)%nat -> nth j (fnExecutables st) None <> None)
   \/ (exists k, r = Z.of_nat k /\ (k < FN_MAX)%nat /\
                 nth k (fnExecutables st) None = None /\
                 nth k (fnExecutables st') None = Some f /\
                 (forall j, j <> k ->
                            nth j (fnExecutables st') None = nth j (fnExecutables st) None) /\
                 forall j, (j < k)%nat -> nth j (fnExecutables st) None <> None)).
Proof.
  intros Hlen r st'. subst r st'. unfold fnRegister.
  pose proof (fnRegister_loop_spec (Some f) FN_MAX 0 (fnExecutables st)
                ltac:(rewrite Hlen; reflexivity)) as H.
  destruct (fnRegister_loop FN_MAX 0 (Some f) (fnExecutables st)) as [r table].
  cbn [fst snd] in *. split; [reflexivity|].
  destruct H as [(Hr & Ht & Hall) | (k & Hr & Hk & Hn & Ht & Hall)].
  - left. subst. repeat split; auto.
    + destruct st; reflexivity.
    + intros j Hj. apply Hall. lia.
  - right. exists k. subst table. cbn [fnExecutables].
    repeat split; auto; try lia.
    + rewrite (assign_nth None) by lia. now rewrite Nat.eqb_refl.
    + intros j Hj. rewrite (assign_nth None) by lia.
      destruct (Nat.eqb_spec j k); [contradiction | reflexivity].
    + intros j Hj. apply Hall. lia.
Qed.

Lemma fnRegister_takes_first_free_slot_witness :
  fnState (snd (fnRegister (Some 7%nat) boot)) = fnState boot.
Proof.
  refine (proj1 (fnRegister_takes_first_free_slot 7 boot _)).
  reflexivity.
Defined.

(** A [function] request holding one FN key sets that key.  Key and value
    are read as C strings, up to their first NUL: when the key starts with
    FN and the digits after FN name a key below FN_MAX, after the
    handler's calls that key is on exactly if the value is the string on
    (in any letter case), and every other key is off. *)
Theorem function_request_sets_key
    (client : Z) (env : Dispatch.Env) (hs : Dispatch.State)
    (k v : string) (n : Z) (st : State) :
  List.length (fnState st) = FN_MAX ->
  has_prefix "FN" (c_str k) = true -> atoi (Dispatch.afterFN (c_str k)) = n ->
  0 <= n < Z.of_nat FN_MAX ->
  exists acts,
    Dispatch.ws_cmd_function client
      (JObject [("CMD", JString "function"); (k, JString v)]) env hs
    = Dispatch.Done hs acts /\
    fnState (applyActions acts st)
    = only (Z.to_nat n) (equalsIgnoreCase (c_str v) "on").
Proof.
  intros Hlen Hp Ha Hn. unfold Dispatch.ws_cmd_function.
  cbn [Json.members Dispatch.function_loop].
  change (has_prefix "FN" (c_str "CMD")) with false. cbv iota zeta. rewrite Hp, Ha.
  cbn [as_cstr app]. eexists. split; [reflexivity|].
  assert (Hw : wrap32 n = n).
  { unfold wrap32. apply Z.mod_small. unfold SIZE_MOD, FN_MAX in *. lia. }
  rewrite Hw. cbn [applyActions].
  assert (Hrest : forall s, applyActions
            (WsSendJson (Some client)
               (Dispatch.reply [("CMD", JString "function"); ("status", JString "OK")])) s
            = s) by (intros s; reflexivity).
  rewrite Hrest.
  exact (proj1 (proj1 (fnSet_state_exact n (equalsIgnoreCase (c_str v) "on") st Hlen) Hn)).
Qed.

(** The value on, NUL, x is read as on. *)
Lemma function_request_sets_key_witness :
  exists acts,
    Dispatch.ws_cmd_function 1
      (JObject [("CMD", JString "function");
                ("FN3", JString ("on" +++ String Ascii.zero "x"))])
      Dispatch.bench Dispatch.powerUp
    = Dispatch.Done Dispatch.powerUp acts /\
    fnState (applyActions acts boot) = only 3 true.
Proof.
  apply (function_request_sets_key 1 Dispatch.bench Dispatch.powerUp
           "FN3" ("on" +++ String Ascii.zero "x") 3 boot).
  - reflexivity.
  - reflexivity.
  - reflexivity.
  - vm_compute. split; [discriminate | reflexivity].
Defined.

End FnKeysFacts.

(** ** Properties of the periodic motor update *)

Module MotorsFacts.
Import Motors.

(** Whatever the document, [ws_cmd_move] completes with both joystick
    values within [-127, 127]. *)
Lemma move_range (client : Z) (doc : JsonDocument) (env : Dispatch.Env) (st : Dispatch.State) :
  exists x y,
    -127 <= x <= 127 /\ -127 <= y <= 127 /\
    Dispatch.ws_cmd_move client doc env st
    = Dispatch.Done {| Dispatch.joyX := x; Dispatch.joyY := y;
                       Dispatch.motorsReinit := Dispatch.motorsReinit st;
              Dispatch.lineBuf := Dispatch.lineBuf st |}
           [DriveTank y x; ClientText client Dispatch.moveReply].
Proof.
  exists (constrain (atoi (or_cstr (Json.get doc "x") "0")) (-127) 127),
         (constrain (atoi (or_cstr (Json.get doc "y") "0")) (-127) 127).
  pose proof (DispatchFacts.constrain_range (atoi (or_cstr (Json.get doc "x") "0")) (-127) 127) as Hx.
  pose proof (DispatchFacts.constrain_range (atoi (or_cstr (Json.get doc "y") "0")) (-127) 127) as Hy.
  split; [lia|]. split; [lia|].
  unfold Dispatch.ws_cmd_move, Dispatch.motorsApply.
  rewrite !DispatchFacts.to_int16_small by lia. reflexivity.
Qed.


(** The motor tick keeps the last command alive: once [move] has been
    handled, a tick that comes at least 100 ms (modulo 2^32) after the last
    application drives the motors again with exactly the throttle and steer
    the handler applied, records the time, and leaves the joystick values
    as they are; an earlier tick does nothing. *)
Theorem motors_tick_repeats_last_move
    (client : Z) (doc : JsonDocument) (env : Dispatch.Env) (c0 : Dispatch.State)
    (cfg : MotoCfg) (beginOk : bool) (now last : Z) :
  Dispatch.motorsReinit c0 = false ->
  let c := after (Dispatch.ws_cmd_move client doc env c0) c0 in
  let st := {| core := c; lastMoveApplyMs := last |} in
  (wrap32 (now - last) >= 100 ->
   motorsTick cfg beginOk now st
   = ({| core := c; lastMoveApplyMs := now |},
      [Apply (DriveTank (Dispatch.joyY c) (Dispatch.joyX c))])) /\
  (wrap32 (now - last) < 100 -> motorsTick cfg beginOk now st = (st, [])) /\
  -127 <= motorsGetThrottle st <= 127 /\ -127 <= motorsGetSteer st <= 127.
Proof.
  intros Hr c st.
  destruct (move_range client doc env c0) as (x & y & Hx & Hy & E).
  assert (Hc : c = {| Dispatch.joyX := x; Dispatch.joyY := y;
                      Dispatch.motorsReinit := Dispatch.motorsReinit c0;
                      Dispatch.lineBuf := Dispatch.lineBuf c0 |}).
  { subst c. now rewrite E. }
  clearbody c. subst c. subst st. rewrite Hr.
  unfold motorsTick, motorsGetThrottle, motorsGetSteer.
  cbn [core lastMoveApplyMs Dispatch.motorsReinit Dispatch.joyX Dispatch.joyY].
  split; [|split; [|split; assumption]].
  - intros Hge. destruct (Z.geb_spec (wrap32 (now - last)) 100); [|lia].
    unfold Dispatch.motorsApply.
    rewrite !DispatchFacts.to_int16_small by lia. reflexivity.
  - intros Hlt. destruct (Z.geb_spec (wrap32 (now - last)) 100); [lia | reflexivity].
Qed.

Lemma motors_tick_repeats_last_move_witness :
  motorsTick {| maxVel := 100; deadzone := 5; expoPct := 0; SteerGain := 70;
                arcadeK := 85; arcadeEnabled := false; invertA := false;
                invertB := false; tankInvThr := false; tankInvStr := true |}
             true 250
             {| core := after (Dispatch.ws_cmd_move 1 Dispatch.moveDoc Dispatch.bench
                                 Dispatch.powerUp) Dispatch.powerUp;
                lastMoveApplyMs := 100 |}
  = ({| core := after (Dispatch.ws_cmd_move 1 Dispatch.moveDoc Dispatch.bench
                         Dispatch.powerUp) Dispatch.powerUp;
        lastMoveApplyMs := 250 |},
     [Apply (DriveTank (-127) 127)]).
Proof.
  refine (proj1 (motors_tick_repeats_last_move 1 Dispatch.moveDoc Dispatch.bench
                   Dispatch.powerUp _ true 250 100 _) _).
  - reflexivity.
  - vm_compute. discriminate.
Defined.

(** A [config_wr] request, whatever it holds, makes the next motor tick
    re-initialise the driver instead of driving: the joystick values are
    zeroed, the re-initialisation flag is cleared, no drive command is
    issued, and the stored configuration is applied when [motors.begin()]
    succeeds. *)
Theorem config_write_reinitialises_motors
    (client : Z) (doc : JsonDocument) (env : Dispatch.Env) (c0 : Dispatch.State)
    (cfg : MotoCfg) (beginOk : bool) (now last : Z) :
  let c := after (Dispatch.ws_cmd_config_wr client doc env c0) c0 in
  let r := motorsTick cfg beginOk now {| core := c; lastMoveApplyMs := last |} in
  Dispatch.joyX (core (fst r)) = 0 /\ Dispatch.joyY (core (fst r)) = 0 /\
  Dispatch.motorsReinit (core (fst r)) = false /\
  lastMoveApplyMs (fst r) = last /\
  existsb isDrive (snd r) = false /\
  (In (SetMaxVel (maxVel cfg)) (snd r) <-> beginOk = true).
Proof.
  intros c r. subst r c. unfold Dispatch.ws_cmd_config_wr. cbn [after].
  unfold motorsTick. cbn [core Dispatch.motorsReload Dispatch.motorsReinit].
  unfold motorsInit. destruct beginOk; cbn; repeat split; auto.
  - intros [H | []]. discriminate H.
  - discriminate.
Qed.

End MotorsFacts.

(** ** Properties of the display buffers *)

Module DisplayFacts.
Import Display.

Lemma store_at : forall (l : list string) i s,
  (i < List.length l)%nat ->
  Dispatch.store i s l = firstn i l ++ s :: skipn (S i) l.
Proof.
  induction l as [|b r IH]; intros [|i] s H; cbn [List.length] in H; try lia.
  - reflexivity.
  - cbn [Dispatch.store firstn skipn app]. rewrite (IH i s) by lia. reflexivity.
Qed.

Lemma storeLine_Some (l : list string) i s :
  (i < List.length l)%nat ->
  storeLine i s l = Some (firstn i l ++ s :: skipn (S i) l).
Proof.
  intros H. unfold storeLine.
  destruct (Nat.ltb_spec i (List.length l)); [|lia].
  now rewrite store_at.
Qed.

(** *** Image *)

Section Image.

Variable p : DisplayParam.
Hypothesis Hbuf : Z.of_nat (List.length (dImgBuf (iParam p))) = dImgSize p.

Lemma start_upload (totalSize : Z) :
  exists b,
    displayStartImageUpload totalSize p
    = Some (withI {| dImgBuf := b;
                     dExpectedSize :=
                       if totalSize >? dImgSize p then dImgSize p else totalSize;
                     dReceivedSize := 0 |} p) /\
    List.length b = List.length (dImgBuf (iParam p)).
Proof.
  unfold displayStartImageUpload, memset.
  destruct (Z.leb_spec (dImgSize p) (Z.of_nat (List.length (dImgBuf (iParam p))))); [|lia].
  eexists. split; [reflexivity|].
  rewrite length_app, repeat_length, length_skipn. lia.
Qed.

Lemma append_chunk (data : list byte) (index total : Z) :
  0 <= index -> index + Z.of_nat (List.length data) < SIZE_MOD ->
  index < dImgSize p -> (0 < List.length data)%nat ->
  let k := Z.min (Z.of_nat (List.length data)) (dImgSize p - index) in
  displayAppendImageChunk (Some data) (Z.of_nat (List.length data)) index total p
  = Some (withI {| dImgBuf := firstn (Z.to_nat index) (dImgBuf (iParam p))
                              ++ firstn (Z.to_nat k) data
                              ++ skipn (Z.to_nat (index + k)) (dImgBuf (iParam p));
                   dExpectedSize := dExpectedSize (iParam p);
                   dReceivedSize := Z.max (dReceivedSize (iParam p)) (index + k) |} p).
Proof.
  intros Hi Hw Hlt Hlen k. unfold displayAppendImageChunk.
  destruct (Z.eqb_spec (Z.of_nat (List.length data)) 0) as [E|_]; [lia|].
  destruct (Z.geb_spec index (dImgSize p)) as [E|_]; [lia|].
  cbn [orb].
  rewrite (OtaFacts.wrap32_small (index + _)) by lia.
  assert (Hk : (if index + Z.of_nat (List.length data) <=? dImgSize p
                then Z.of_nat (List.length data)
                else wrap32 (dImgSize p - index)) = k).
  { subst k. destruct (Z.leb_spec (index + Z.of_nat (List.length data)) (dImgSize p));
      [|rewrite OtaFacts.wrap32_small]; lia. }
  rewrite Hk. unfold memcpy.
  destruct (Z.leb_spec k (Z.of_nat (List.length data))); [|lia].
  destruct (Z.leb_spec (index + k) (Z.of_nat (List.length (dImgBuf (iParam p))))); [|lia].
  cbn [andb]. rewrite OtaFacts.wrap32_small by lia.
  do 3 f_equal.
  destruct (Z.gtb_spec (index + k) (dReceivedSize (iParam p))); lia.
Qed.

End Image.

(** A chunk of an image is clipped to the image buffer.  For a buffer of
    [dImgSize] bytes and a chunk whose end [index + len] does not wrap,
    [displayAppendImageChunk] completes, the buffer keeps its length, the
    bytes before [index] are kept, the received size never shrinks and
    stays within [dImgSize]; a non-empty chunk that starts inside the
    buffer is copied up to the end of the buffer and no further. *)
Theorem image_chunk_clipped_to_buffer
    (p : DisplayParam) (data : list byte) (index total : Z) :
  Z.of_nat (List.length (dImgBuf (iParam p))) = dImgSize p ->
  0 <= index -> index + Z.of_nat (List.length data) < SIZE_MOD ->
  dReceivedSize (iParam p) <= dImgSize p ->
  exists p',
    displayAppendImageChunk (Some data) (Z.of_nat (List.length data)) index total p
    = Some p' /\
    List.length (dImgBuf (iParam p')) = List.length (dImgBuf (iParam p)) /\
    dReceivedSize (iParam p) <= dReceivedSize (iParam p') <= dImgSize p /\
    firstn (Z.to_nat index) (dImgBuf (iParam p'))
    = firstn (Z.to_nat index) (dImgBuf (iParam p)) /\
    (index < dImgSize p -> (0 < List.length data)%nat ->
     let k := Z.min (Z.of_nat (List.length data)) (dImgSize p - index) in
     firstn (Z.to_nat k) (skipn (Z.to_nat index) (dImgBuf (iParam p')))
     = firstn (Z.to_nat k) data /\
     skipn (Z.to_nat (index + k)) (dImgBuf (iParam p'))
     = skipn (Z.to_nat (index + k)) (dImgBuf (iParam p)) /\
     dReceivedSize (iParam p') = Z.max (dReceivedSize (iParam p)) (index + k)).
Proof.
  intros Hbuf Hi Hw Hr.
  destruct (Z.ltb_spec index (dImgSize p)) as [Hlt|Hge];
    [destruct (Nat.ltb_spec 0 (List.length data)) as [Hlen|Hlen]|].
  - rewrite (append_chunk p Hbuf data index total Hi Hw Hlt Hlen).
    set (k := Z.min (Z.of_nat (List.length data)) (dImgSize p - index)).
    set (buf := dImgBuf (iParam p)) in *.
    assert (Hk : 0 <= k <= Z.of_nat (List.length data)) by lia.
    assert (Hf : List.length (firstn (Z.to_nat index) buf) = Z.to_nat index)
      by (rewrite length_firstn; lia).
    assert (Hd : List.length (firstn (Z.to_nat k) data) = Z.to_nat k)
      by (rewrite length_firstn; lia).
    eexists. split; [reflexivity|]. cbn [withI iParam dImgBuf dReceivedSize].
    split; [|split; [|split; [|intros _ _; split; [|split]]]].
    + rewrite !length_app, Hf, Hd, length_skipn. lia.
    + lia.
    + rewrite firstn_app, Hf, Nat.sub_diag. cbn [firstn].
      rewrite app_nil_r. apply firstn_all2. lia.
    + rewrite skipn_app, Hf, Nat.sub_diag. cbn [skipn].
      rewrite (skipn_all2 (firstn (Z.to_nat index) buf)) by lia. cbn [app].
      rewrite firstn_app, Hd, Nat.sub_diag. cbn [firstn].
      rewrite app_nil_r. apply firstn_all2. lia.
    + rewrite app_assoc, skipn_app.
      rewrite (skipn_all2 (firstn _ buf ++ firstn _ data))
        by (rewrite length_app, Hf, Hd; lia).
      cbn [app]. rewrite length_app, Hf, Hd.
      replace (Z.to_nat (index + k) - (Z.to_nat index + Z.to_nat k))%nat with 0%nat by lia.
      reflexivity.
    + reflexivity.
  - exists p. unfold displayAppendImageChunk.
    replace (Z.of_nat (List.length data)) with 0 by lia. cbn [Z.eqb orb].
    repeat split; auto; lia.
  - exists p. unfold displayAppendImageChunk.
    destruct (Z.geb_spec index (dImgSize p)); [|lia]. rewrite Bool.orb_true_r.
    repeat split; auto; lia.
Qed.

Lemma image_chunk_clipped_to_buffer_witness :
  exists p',
    displayAppendImageChunk (Some [x01; x02; x03]) 3 1022 1024 begun = Some p' /\
    firstn 2 (skipn 1022 (dImgBuf (iParam p'))) = [x01; x02] /\
    dReceivedSize (iParam p') = 1024.
Proof.
  destruct (image_chunk_clipped_to_buffer begun [x01; x02; x03] 1022 1024)
    as (p' & E & _ & _ & _ & H);
    [ reflexivity | lia | vm_compute; reflexivity | vm_compute; discriminate | ].
  exists p'. split; [exact E|].
  destruct H as (H1 & _ & H3); [reflexivity | cbn; lia |].
  split; [exact H1 | exact H3].
Defined.

(** An uploaded image is shown only by a final chunk that ends exactly at
    the end of the image buffer.  On a display that was found, with a
    buffer of [dImgSize] bytes, [displayLoadImageFromServer] completes for
    every chunk whose end does not wrap; it returns [true] exactly when the
    chunk is final and [index + len] equals [dImgSize], and then draws the
    buffer; in every other case it returns [false] and draws nothing.  An
    image sent as one such chunk is drawn as it was sent. *)
Theorem image_drawn_only_on_exact_final_chunk
    (p : DisplayParam) (filename : string) (index : Z) (data : list byte)
    (final : bool) :
  dFindiIt p <> 0 ->
  Z.of_nat (List.length (dImgBuf (iParam p))) = dImgSize p ->
  0 <= index -> index + Z.of_nat (List.length data) < SIZE_MOD ->
  exists p' ok draws,
    displayLoadImageFromServer filename index (Some data)
      (Z.of_nat (List.length data)) final p = Some (p', ok, draws) /\
    (ok = true <-> final = true /\ index + Z.of_nat (List.length data) = dImgSize p) /\
    (ok = false -> draws = []) /\
    (ok = true ->
     draws = [ClearDisplay;
              DrawBitmap 0 0 (dImgBuf (iParam p')) (dWidth p) (dHeigth p) WHITE;
              Show] /\
     (index = 0 -> dImgBuf (iParam p') = data)).
Proof.
  intros Hf Hbuf Hi Hw. unfold displayLoadImageFromServer.
  destruct (Z.eqb_spec (dFindiIt p) 0) as [E|_]; [contradiction|].
  assert (H1 : exists p1,
             (if index =? 0 then displayStartImageUpload (dImgSize p) p else Some p)
             = Some p1 /\
             Z.of_nat (List.length (dImgBuf (iParam p1))) = dImgSize p1 /\
             dImgSize p1 = dImgSize p /\ dWidth p1 = dWidth p /\ dHeigth p1 = dHeigth p /\
             (index = 0 -> dReceivedSize (iParam p1) = 0)).
  { destruct (Z.eqb_spec index 0) as [E|E].
    - destruct (start_upload p Hbuf (dImgSize p)) as (b & Eb & Lb).
      rewrite Eb. eexists. split; [reflexivity|].
      cbn [withI iParam dImgBuf dImgSize dWidth dHeigth dReceivedSize].
      repeat split; auto. lia.
    - exists p. repeat split; auto. contradiction. }
  destruct H1 as (p1 & -> & Hbuf1 & Hs1 & Hw1 & Hh1 & Hr1).
  assert (H2 : exists p2,
             displayAppendImageChunk (Some data) (Z.of_nat (List.length data)) index
               (dImgSize p1) p1 = Some p2 /\
             dImgSize p2 = dImgSize p /\ dWidth p2 = dWidth p /\ dHeigth p2 = dHeigth p /\
             (index = 0 -> Z.of_nat (List.length data) = dImgSize p ->
              dImgBuf (iParam p2) = data)).
  { destruct (Z.ltb_spec index (dImgSize p1)) as [Hlt|Hge];
      [destruct (Nat.ltb_spec 0 (List.length data)) as [Hlen|Hlen]|].
    - rewrite (append_chunk p1 Hbuf1 data index (dImgSize p1) Hi Hw Hlt Hlen).
      eexists. split; [reflexivity|].
      cbn [withI iParam dImgBuf dImgSize dWidth dHeigth].
      repeat split; auto.
      intros -> Hd.
      replace (Z.min (Z.of_nat (List.length data)) (dImgSize p1 - 0))
        with (Z.of_nat (List.length data)) by lia.
      cbn [Z.to_nat firstn app Z.add]. rewrite Nat2Z.id, firstn_all.
      rewrite skipn_all2 by lia. apply app_nil_r.
    - exists p1. unfold displayAppendImageChunk.
      replace (Z.of_nat (List.length data)) with 0 by lia. cbn [Z.eqb orb].
      repeat split; auto. lia.
    - exists p1. unfold displayAppendImageChunk.
      destruct (Z.geb_spec index (dImgSize p1)); [|lia]. rewrite Bool.orb_true_r.
      repeat split; auto.
      intros E0 Hd.
      destruct data as [|? ?]; [|cbn [List.length] in Hd; lia].
      destruct (dImgBuf (iParam p1)) as [|? ?]; [reflexivity|].
      cbn [List.length] in Hbuf1. lia. }
  destruct H2 as (p2 & -> & Hs2 & Hw2 & Hh2 & Hd2).
  rewrite OtaFacts.wrap32_small by lia. rewrite Hs2.
  destruct final;
    [destruct (Z.eqb_spec (index + Z.of_nat (List.length data)) (dImgSize p)) as [E|E]|];
    cbn [andb displayFinalizeImageUpload displayDrawImageBuffer].
  - eexists _, true, _. split; [reflexivity|].
    cbn [withT iParam dImgBuf]. rewrite Hw2, Hh2.
    repeat split; auto; try discriminate.
    intros E0. apply Hd2; [exact E0 | lia].
  - exists p2, false, []. repeat split; auto; try discriminate.
    intros [_ H]. contradiction.
  - exists p2, false, []. repeat split; auto; try discriminate.
    intros [H _]. discriminate.
Qed.

Lemma image_drawn_only_on_exact_final_chunk_witness :
  exists p' ok draws,
    displayLoadImageFromServer "img" 1020 (Some [x01; x02; x03; x04]) 4 true begun
    = Some (p', ok, draws) /\ ok = true.
Proof.
  destruct (image_drawn_only_on_exact_final_chunk begun "img" 1020
              [x01; x02; x03; x04] true)
    as (p' & ok & draws & E & Hok & _);
    [ vm_compute; discriminate | reflexivity | lia | vm_compute; reflexivity | ].
  exists p', ok, draws. split; [exact E|].
  apply Hok. split; reflexivity.
Defined.

(** *** Text lines *)

Lemma firstn_mid {A} (a b : list A) (x : A) (n : nat) :
  List.length a = n -> firstn (S n) (a ++ x :: b) = a ++ [x].
Proof.
  intros <-. rewrite firstn_app.
  replace (S (List.length a) - List.length a)%nat with 1%nat by lia.
  rewrite firstn_all2 by lia. reflexivity.
Qed.

Lemma skipn_mid {A} (a b : list A) (x : A) (n c : nat) :
  List.length a = n -> skipn (S n + c) (a ++ x :: b) = skipn c b.
Proof.
  intros <-. rewrite skipn_app.
  rewrite skipn_all2 by lia.
  replace (S (List.length a) + c - List.length a)%nat with (S c) by lia.
  reflexivity.
Qed.

Lemma skipn_nth {A} (l : list A) (n : nat) (x : A) :
  nth_error l n = Some x -> skipn n l = x :: skipn (S n) l.
Proof.
  revert l. induction n as [|n IH]; intros [|y l] H; try discriminate.
  - cbn in H. injection H as ->. reflexivity.
  - cbn [nth_error] in H. cbn [skipn]. rewrite (IH l H). reflexivity.
Qed.

Lemma copyLines_spec (arr : list string) : forall count from lines,
  (from + count <= List.length arr)%nat ->
  (from + count <= List.length lines)%nat ->
  copyLines arr from count lines
  = Some (firstn from lines ++ firstn count (skipn from arr)
          ++ skipn (from + count) lines).
Proof.
  induction count as [|c IH]; intros from lines Ha Hl.
  - cbn [copyLines firstn app]. rewrite Nat.add_0_r, firstn_skipn. reflexivity.
  - cbn [copyLines].
    destruct (nth_error arr from) as [s|] eqn:En;
      [|apply nth_error_None in En; lia].
    rewrite storeLine_Some by lia.
    assert (Hf : List.length (firstn from lines) = from) by (rewrite length_firstn; lia).
    rewrite IH; [|lia|rewrite length_app, Hf; cbn [List.length];
                       rewrite length_skipn; lia].
    f_equal.
    rewrite (firstn_mid _ _ _ _ Hf), (skipn_mid _ _ _ _ c Hf), skipn_skipn.
    rewrite (skipn_nth _ _ _ En). cbn [firstn].
    rewrite <- app_assoc. cbn [app].
    replace (c + S from)%nat with (from + S c)%nat by lia. reflexivity.
Qed.

Lemma blankLines_spec : forall count from lines,
  (from + count <= List.length lines)%nat ->
  blankLines from count lines
  = Some (firstn from lines ++ repeat EmptyString count
          ++ skipn (from + count) lines).
Proof.
  induction count as [|c IH]; intros from lines Hl.
  - cbn [blankLines repeat app]. rewrite Nat.add_0_r, firstn_skipn. reflexivity.
  - cbn [blankLines]. rewrite storeLine_Some by lia.
    assert (Hf : List.length (firstn from lines) = from) by (rewrite length_firstn; lia).
    rewrite IH; [|rewrite length_app, Hf; cbn [List.length];
                  rewrite length_skipn; lia].
    f_equal.
    rewrite (firstn_mid _ _ _ _ Hf), (skipn_mid _ _ _ _ c Hf), skipn_skipn.
    cbn [repeat]. rewrite <- app_assoc. cbn [app].
    replace (c + S from)%nat with (from + S c)%nat by lia. reflexivity.
Qed.

(** [displaySetLines] keeps at most [dMaxLine] lines.  When the line
    array holds [dMaxLine] entries and the caller's array at least
    [min n dMaxLine], the call completes; the buffer then holds the first
    [min n dMaxLine] strings of the caller's array followed by empty
    strings, and [dLinesCount] is [min n dMaxLine]. *)
Theorem displaySetLines_keeps_at_most_the_buffer
    (p : DisplayParam) (arr : list string) (n : Z) :
  Z.of_nat (List.length (dLines (tParam p))) = dMaxLine p ->
  dMaxLine p <= 255 -> 0 <= n ->
  Z.min n (dMaxLine p) <= Z.of_nat (List.length arr) ->
  let m := Z.min n (dMaxLine p) in
  exists p',
    displaySetLines (Some arr) n p = Some p' /\
    dLines (tParam p')
    = firstn (Z.to_nat m) arr ++ repeat EmptyString (Z.to_nat (dMaxLine p - m)) /\
    dLinesCount (tParam p') = m /\
    List.length (dLines (tParam p')) = List.length (dLines (tParam p)).
Proof.
  intros Hl Hmax Hn Ha m. unfold displaySetLines.
  assert (Hm : (if n >? dMaxLine p then dMaxLine p else n) = m).
  { subst m. destruct (Z.gtb_spec n (dMaxLine p)); lia. }
  rewrite Hm.
  rewrite copyLines_spec by lia.
  cbn [firstn skipn app Nat.add].
  assert (L1 : List.length (firstn (Z.to_nat m) arr) = Z.to_nat m)
    by (rewrite length_firstn; lia).
  rewrite blankLines_spec
    by (rewrite length_app, L1, length_skipn; lia).
  eexists. split; [reflexivity|].
  cbn [withT tParam setLines dLines dLinesCount].
  rewrite firstn_app, L1, Nat.sub_diag. cbn [firstn]. rewrite app_nil_r.
  rewrite firstn_all2 by lia.
  rewrite (skipn_all2 (n := (Z.to_nat m + Z.to_nat (dMaxLine p - m))%nat))
    by (rewrite length_app, L1, length_skipn; lia).
  rewrite app_nil_r.
  split; [reflexivity|]. split.
  - unfold to_uint8. apply Z.mod_small. lia.
  - rewrite length_app, L1, repeat_length. lia.
Qed.

Lemma displaySetLines_keeps_at_most_the_buffer_witness :
  exists p',
    displaySetLines (Some (repeat "row" 20)) 20 begun = Some p' /\
    dLines (tParam p') = repeat "row" 16 /\
    dLinesCount (tParam p') = 16.
Proof.
  destruct (displaySetLines_keeps_at_most_the_buffer begun (repeat "row" 20) 20)
    as (p' & E & Hl & Hc & _);
    [ reflexivity | vm_compute; discriminate | lia | vm_compute; discriminate | ].
  exists p'. split; [exact E|]. split; [exact Hl | exact Hc].
Defined.

Lemma length_substring0 : forall (s : string) (n : nat),
  (n <= String.length s)%nat -> String.length (String.substring 0 n s) = n.
Proof.
  induction s as [|c s IH]; intros [|n] H; cbn [String.length] in H;
    cbn [String.substring String.length]; try lia.
  f_equal. apply IH. lia.
Qed.

Lemma renderRows_spec (t : TextParam) (vis cols stepY start : Z) :
  dLinesCount t <= Z.of_nat (List.length (dLines t)) ->
  forall fuel i,
  exists rows,
    renderRows fuel i vis cols stepY start t = Some rows /\
    (List.length (printed rows) <= fuel)%nat /\
    (dTrunc t = true -> 0 <= cols ->
     Forall (fun s => Z.of_nat (String.length s) <= cols) (printed rows)) /\
    Forall (fun s => exists line, In line (dLines t) /\
                       (s = line \/ s = String.substring 0 (Z.to_nat cols) line))
           (printed rows).
Proof.
  intros Hc. induction fuel as [|f IH]; intros i.
  - exists []. cbn. repeat split; auto.
  - cbn [renderRows].
    destruct (i <? vis); [|exists []; cbn; repeat split; auto; lia].
    destruct (Z.geb_spec (to_uint16 (start + i)) (dLinesCount t)) as [Hge|Hlt];
      [exists []; cbn; repeat split; auto; lia|].
    assert (H0 : 0 <= to_uint16 (start + i))
      by (unfold to_uint16; apply Z.mod_pos_bound; lia).
    destruct (nth_error (dLines t) (Z.to_nat (to_uint16 (start + i)))) as [line|] eqn:En;
      [|apply nth_error_None in En; lia].
    destruct (IH (to_uint8 (i + 1))) as (rest & -> & Hlen & Hfit & Hsrc).
    eexists. split; [reflexivity|]. cbn [printed List.length].
    split; [lia|]. split.
    + intros Ht Hcols. constructor; [|auto].
      rewrite Ht. cbn [andb].
      destruct (Z.gtb_spec (Z.of_nat (String.length line)) cols) as [Hgt|Hle]; [|lia].
      rewrite length_substring0 by lia. lia.
    + constructor; [|exact Hsrc].
      exists line. split; [eapply nth_error_In; eassumption|].
      destruct (dTrunc t && (Z.of_nat (String.length line) >? cols)); auto.
Qed.

Lemma printed_app (a b : list Draw) : printed (a ++ b) = printed a ++ printed b.
Proof.
  induction a as [|d a IH]; [reflexivity|].
  destruct d; cbn [app printed]; rewrite IH; reflexivity.
Qed.

Lemma vis_bounds (p : DisplayParam) : 1 <= displayGetMaxVisibleLines p <= 255.
Proof.
  unfold displayGetMaxVisibleLines.
  destruct (_ =? 0); [lia|].
  pose proof (Z.mod_pos_bound
                (dHeigth p / to_uint16 (dBaseCharH p * dTextSize (tParam p))) 256 eq_refl).
  unfold to_uint8.
  destruct (Z.eqb_spec
              ((dHeigth p / to_uint16 (dBaseCharH p * dTextSize (tParam p))) mod 256) 0);
    lia.
Qed.

Lemma cols_bounds (p : DisplayParam) : 1 <= displayGetMaxColsPerLine p <= 255.
Proof.
  unfold displayGetMaxColsPerLine.
  destruct (_ =? 0); [lia|].
  pose proof (Z.mod_pos_bound
                (dWidth p / to_uint16 (dBaseCharW p * dTextSize (tParam p))) 256 eq_refl).
  unfold to_uint8.
  destruct (Z.eqb_spec
              ((dWidth p / to_uint16 (dBaseCharW p * dTextSize (tParam p))) mod 256) 0);
    lia.
Qed.

Lemma renderPage_total (pageIndex : Z) (p : DisplayParam) :
  dLinesCount (tParam p) <= Z.of_nat (List.length (dLines (tParam p))) ->
  exists d, displayRenderPage pageIndex p = Some d /\
    (Z.of_nat (List.length (printed d)) <= displayGetMaxVisibleLines p) /\
    (dTrunc (tParam p) = true ->
     Forall (fun s => Z.of_nat (String.length s) <= displayGetMaxColsPerLine p)
            (printed d)).
Proof.
  intros Hc. unfold displayRenderPage.
  destruct (renderRows_spec (tParam p) (displayGetMaxVisibleLines p)
              (displayGetMaxColsPerLine p) (dBaseCharH p * dTextSize (tParam p))
              (to_uint16 (to_uint8 pageIndex * displayGetMaxVisibleLines p)) Hc
              (Z.to_nat (displayGetMaxVisibleLines p)) 0)
    as (rows & -> & Hlen & Hfit & _).
  pose proof (vis_bounds p). pose proof (cols_bounds p).
  eexists. split; [reflexivity|].
  assert (Hp : printed
                 ([ClearDisplay] ++
                  (if dInv (tParam p)
                   then [FillRect 0 0 (dWidth p) (dHeigth p) WHITE; SetTextColor BLACK]
                   else [SetTextColor WHITE]) ++
                  [SetTextSize (dTextSize (tParam p))] ++ rows ++ [Show])
               = printed rows).
  { rewrite !printed_app. destruct (dInv (tParam p)); cbn [printed app];
      now rewrite app_nil_r. }
  rewrite Hp. split; [lia|]. intros Ht. apply Hfit; [exact Ht | lia].
Qed.

(** A rendered page fits the screen.  Whenever [dLinesCount] does not
    exceed the line array, [displayRenderPage] completes; it prints at most
    [displayGetMaxVisibleLines()] texts, and with truncation on none of them
    is longer than [displayGetMaxColsPerLine()] characters. *)
Theorem rendered_page_fits_screen (pageIndex : Z) (p : DisplayParam) :
  dLinesCount (tParam p) <= Z.of_nat (List.length (dLines (tParam p))) ->
  exists d, displayRenderPage pageIndex p = Some d /\
    (Z.of_nat (List.length (printed d)) <= displayGetMaxVisibleLines p) /\
    (dTrunc (tParam p) = true ->
     Forall (fun s => Z.of_nat (String.length s) <= displayGetMaxColsPerLine p)
            (printed d)).
Proof. apply renderPage_total. Qed.

Lemma rendered_page_fits_screen_witness :
  exists d,
    displayRenderPage 0
      (withT (setLines (repeat "a line of text that is wider than the screen" 16) 16
                (tParam begun)) begun) = Some d /\
    (List.length (printed d) <= 8)%nat.
Proof.
  destruct (rendered_page_fits_screen 0
              (withT (setLines (repeat "a line of text that is wider than the screen" 16)
                        16 (tParam begun)) begun))
    as (d & E & Hn & _); [vm_compute; discriminate|].
  exists d. split; [exact E|].
  change (displayGetMaxVisibleLines _) with 8 in Hn. lia.
Defined.

Lemma push_step (text : string) (p : DisplayParam) :
  List.length (dLines (tParam p)) = DISPLAY_MAX_LINES ->
  dLinesCount (tParam p) <= Z.of_nat DISPLAY_MAX_LINES ->
  exists p' d,
    displayPushLine text p = Some (p', d) /\
    dLines (tParam p') = skipn 1 (dLines (tParam p)) ++ [text] /\
    dLinesCount (tParam p') = dLinesCount (tParam p) /\
    dAutoScrollOn (tParam p') = dAutoScrollOn (tParam p) /\
    (dAutoScrollOn (tParam p) = true -> d = []).
Proof.
  intros Hl Hc. unfold displayPushLine.
  remember (dLines (tParam p)) as l eqn:El.
  assert (Hs : exists l2,
             match shiftLines 0 (DISPLAY_MAX_LINES - 1) l with
             | Some l1 => storeLine (DISPLAY_MAX_LINES - 1) text l1
             | None => None
             end = Some l2 /\ l2 = skipn 1 l ++ [text]).
  { clear El Hc. unfold DISPLAY_MAX_LINES, Dispatch.DISPLAY_MAX_LINES in *.
    do 16 (destruct l as [|? l]; [discriminate Hl|]).
    destruct l; [|discriminate Hl].
    eexists. split; reflexivity. }
  destruct Hs as (l2 & Hs & E2).
  destruct (shiftLines 0 (DISPLAY_MAX_LINES - 1) l) as [l1|]; [|discriminate Hs].
  rewrite Hs.
  destruct (dAutoScrollOn (tParam p)) eqn:Ea; cbn [negb].
  - eexists _, []. split; [reflexivity|].
    cbn [withT tParam setLines dLines dLinesCount dAutoScrollOn].
    repeat split; auto.
  - unfold displayRenderTextLines.
    match goal with |- context [displayRenderPage 0 ?q] =>
      destruct (renderPage_total 0 q) as (d & -> & _) end.
    { cbn [withT tParam setLines dLines dLinesCount]. rewrite E2.
      rewrite length_app, length_skipn, Hl. cbn [List.length].
      unfold DISPLAY_MAX_LINES, Dispatch.DISPLAY_MAX_LINES in *. lia. }
    eexists _, d. split; [reflexivity|].
    cbn [withT tParam setLines dLines dLinesCount dAutoScrollOn].
    repeat split; auto. discriminate.
Qed.

(** The line buffer is a FIFO of [DISPLAY_MAX_LINES] lines.  On a buffer
    of that many lines whose [dLinesCount] is within it, pushing lines one
    after the other always completes, and the buffer then holds the last
    [DISPLAY_MAX_LINES] of the old lines followed by the pushed ones, in
    order; [dLinesCount] is never changed by a push. *)
Theorem pushed_lines_form_fifo (ts : list string) (p : DisplayParam) :
  List.length (dLines (tParam p)) = DISPLAY_MAX_LINES ->
  dLinesCount (tParam p) <= Z.of_nat DISPLAY_MAX_LINES ->
  exists p' d,
    pushAll ts p = Some (p', d) /\
    dLines (tParam p') = skipn (List.length ts) (dLines (tParam p) ++ ts) /\
    dLinesCount (tParam p') = dLinesCount (tParam p).
Proof.
  revert p. induction ts as [|t r IH]; intros p Hl Hc.
  - exists p, []. cbn [pushAll List.length skipn]. rewrite app_nil_r. auto.
  - cbn [pushAll].
    destruct (push_step t p Hl Hc) as (p1 & d1 & -> & E1 & C1 & _).
    destruct (IH p1) as (p2 & d2 & -> & E2 & C2).
    { rewrite E1, length_app, length_skipn, Hl. cbn [List.length].
      unfold DISPLAY_MAX_LINES, Dispatch.DISPLAY_MAX_LINES. lia. }
    { rewrite C1. exact Hc. }
    eexists _, _. split; [reflexivity|]. split; [|congruence].
    rewrite E2, E1. cbn [List.length].
    destruct (dLines (tParam p)) as [|a l]; [discriminate Hl|].
    cbn [skipn app]. rewrite <- app_assoc. reflexivity.
Qed.

Lemma pushed_lines_form_fifo_witness :
  exists p' d,
    pushAll ["one"; "two"] begun = Some (p', d) /\
    dLines (tParam p') = repeat EmptyString 14 ++ ["one"; "two"] /\
    dLinesCount (tParam p') = 0.
Proof.
  destruct (pushed_lines_form_fifo ["one"; "two"] begun) as (p' & d & E & Hl & Hc);
    [reflexivity | vm_compute; discriminate |].
  exists p', d. split; [exact E|]. split; [exact Hl | exact Hc].
Defined.

End DisplayFacts.
